(** * SharedCanva: the room synchronization engine

    A shallow embedding of [server/src/rooms.ts] (the [RoomStore] class) and
    [server/src/socket-handlers.ts] (the per-connection socket handlers),
    with the properties of the room engine stated and proved over it.

    Conventions of the embedding.
    - A JavaScript string is a [string]; every character is one code unit, so
      [String.length] is [.length] and the model covers the strings whose
      code units are below 256.  The emoji of the [AVATARS] table are kept as
      opaque text: the code only ever returns them whole.
    - A JavaScript number is a binary64 float ([PrimFloat.float]).  The
      readings of [Date.now()] are integers and are kept as [Z]; they are
      converted where the code stores one in a field typed as a number of a
      stroke.
    - A value received from a client with no static type ([any]) is a
      [JsVal]: the JSON values plus [undefined].
    - [Array.prototype] methods are the list functions of stdpp:
      [findIndex]/[find] are [list_find], [splice(i, 1)] is [delete i],
      [push] is [++ [_]], [shift] is [tail], and an assignment to a field of
      an element held by reference is [alter] at the index of that element.
    - The [Map] of rooms is an association list in insertion order, the
      order in which [Map.prototype.entries] iterates.
    - What the code draws from its environment ([Date.now], [randomUUID],
      [Math.random], the salt of bcrypt) is read from an [Oracle] handed to
      each handler invocation.
    - A handler invocation is one step of the transition system.  The two
      [async] handlers await bcrypt: [create-room] before it touches the
      store, [join-room] between reading the room and [upsertMember] when
      the room has a hash.  [on_join_room] is that handler with nothing
      handled during the [await]; [join_room_after_await] is the rest of it
      in whatever store the server is in by then. *)

Set Warnings "-register-all".
From Stdlib Require Import ZArith String Ascii PrimFloat.
From Stdlib Require Uint63.
From stdpp Require Import base list strings.

(** ** JavaScript values and strings *)

Inductive JsVal :=
| JsUndefined
| JsNull
| JsBool (b : bool)
| JsNumber (n : float)
| JsString (s : string)
| JsArray (elems : list JsVal)
| JsObject (props : list (string * JsVal)).

(** [Boolean(v)], the test of [if (v)], [!v], [v || w] and [v && w]. *)
Definition truthy (v : JsVal) : bool :=
  match v with
  | JsUndefined | JsNull => false
  | JsBool b => b
  | JsNumber n => negb (is_zero n || is_nan n)
  | JsString s => negb (String.eqb s "")
  | JsArray _ | JsObject _ => true
  end.

(** [a || b] *)
Definition js_or (a b : JsVal) : JsVal := if truthy a then a else b.

Fixpoint assoc (key : string) (props : list (string * JsVal)) : JsVal :=
  match props with
  | [] => JsUndefined
  | (k, v) :: rest => if String.eqb k key then v else assoc key rest
  end.

(** [v.key] for the keys the handlers read; only objects carry them. *)
Definition get (v : JsVal) (key : string) : JsVal :=
  match v with
  | JsObject props => assoc key props
  | _ => JsUndefined
  end.

Definition typeof_string (v : JsVal) : bool :=
  match v with JsString _ => true | _ => false end.

Definition typeof_number (v : JsVal) : bool :=
  match v with JsNumber _ => true | _ => false end.

(** [Number.isFinite(v)] *)
Definition Number_isFinite (v : JsVal) : bool :=
  match v with JsNumber n => is_finite n | _ => false end.

(** The number a reading of [Date.now()] is (an integer below 2^53). *)
Definition number_of_time (t : Z) : float := of_uint63 (Uint63.of_Z t).

(** Code units that [String.prototype.trim] strips, among those below 256:
    TAB, LF, VT, FF, CR, SP and NBSP. *)
Definition is_white_space (c : ascii) : bool :=
  let n := nat_of_ascii c in
  ((9 <=? n) && (n <=? 13)) || (n =? 32) || (n =? 160).

Fixpoint trimStart (s : string) : string :=
  match s with
  | String c rest => if is_white_space c then trimStart rest else s
  | EmptyString => EmptyString
  end.

Fixpoint string_rev (acc s : string) : string :=
  match s with
  | String c rest => string_rev (String c acc) rest
  | EmptyString => acc
  end.

Definition trim (s : string) : string :=
  string_rev "" (trimStart (string_rev "" (trimStart s))).

(** [s.slice(0, n)] *)
Definition slice0 (n : nat) (s : string) : string := substring 0 n s.

(** [s.startsWith(p)] *)
Definition startsWith (p s : string) : bool := String.prefix p s.

(** [s.replace(/[\r\n\t]+/g, " ")]: every maximal run of CR, LF and TAB
    becomes one space. *)
Definition is_break (c : ascii) : bool :=
  let n := nat_of_ascii c in (n =? 13) || (n =? 10) || (n =? 9).

Fixpoint collapse_breaks (in_run : bool) (s : string) : string :=
  match s with
  | EmptyString => EmptyString
  | String c rest =>
      if is_break c
      then if in_run then collapse_breaks true rest
           else String " " (collapse_breaks true rest)
      else String c (collapse_breaks false rest)
  end.

(** ** The data model of [rooms.ts] *)

Inductive MemberStatus := online | offline.

Record Member := {
  memberId : string;
  socketId : string;
  clientId : string;
  displayName : string;
  avatar : string;
  isHost : bool;
  joinedAt : Z;
  status : MemberStatus;
  lastSeen : Z;
}.

Record MemberSnapshot := {
  snap_memberId : string;
  snap_clientId : string;
  snap_displayName : string;
  snap_avatar : string;
  snap_isHost : bool;
  snap_joinedAt : Z;
  snap_status : MemberStatus;
}.

(** The entries of [room.history]: the object literal [normalized] of the
    [canvas:stroke] handler. *)
Inductive Tool := pen | eraser.

Record Point := { x : JsVal; y : JsVal; pressure : JsVal }.

Record Stroke := {
  id : string;
  tool : Tool;
  color : JsVal;
  width : JsVal;
  points : list Point;
  stroke_createdAt : JsVal;
}.

(** [canvasData] is [null] or the trimmed string [canvas:save-snapshot]
    stored; [diagramData] is never written after creation. *)
Record Room := {
  code : string;
  passwordHash : option string;
  members : list Member;
  createdAt : Z;
  lastActive : Z;
  history : list Stroke;
  canvasData : option string;
  diagramData : option JsVal;
}.

Definition set_members (ms : list Member) (r : Room) : Room :=
  {| code := code r; passwordHash := passwordHash r; members := ms;
     createdAt := createdAt r; lastActive := lastActive r;
     history := history r; canvasData := canvasData r;
     diagramData := diagramData r |}.

Definition set_lastActive (t : Z) (r : Room) : Room :=
  {| code := code r; passwordHash := passwordHash r; members := members r;
     createdAt := createdAt r; lastActive := t;
     history := history r; canvasData := canvasData r;
     diagramData := diagramData r |}.

Definition set_history (h : list Stroke) (r : Room) : Room :=
  {| code := code r; passwordHash := passwordHash r; members := members r;
     createdAt := createdAt r; lastActive := lastActive r;
     history := h; canvasData := canvasData r;
     diagramData := diagramData r |}.

Definition set_canvasData (d : option string) (r : Room) : Room :=
  {| code := code r; passwordHash := passwordHash r; members := members r;
     createdAt := createdAt r; lastActive := lastActive r;
     history := history r; canvasData := d;
     diagramData := diagramData r |}.

Definition set_isHost (b : bool) (m : Member) : Member :=
  {| memberId := memberId m; socketId := socketId m; clientId := clientId m;
     displayName := displayName m; avatar := avatar m; isHost := b;
     joinedAt := joinedAt m; status := status m; lastSeen := lastSeen m |}.

(** ** [class RoomStore] *)

(** [private rooms: Map<string, Room>], in insertion order. *)
Record RoomStore := { rooms : list (string * Room) }.

Definition empty_store : RoomStore := {| rooms := [] |}.

(** [this.rooms.get(code)] *)
Definition getRoom (st : RoomStore) (c : string) : option Room :=
  snd <$> (snd <$> list_find (λ kv, kv.1 = c) (rooms st)).

(** [this.rooms.has(code)] *)
Definition has (st : RoomStore) (c : string) : bool :=
  bool_decide (is_Some (getRoom st c)).

(** The write-back of a room object that a method mutated: the entry of
    [c] keeps its place in the iteration order. *)
Definition update_room (c : string) (f : Room → Room) (st : RoomStore)
  : RoomStore :=
  match list_find (λ kv, kv.1 = c) (rooms st) with
  | Some (i, _) => {| rooms := alter (λ kv, (kv.1, f kv.2)) i (rooms st) |}
  | None => st
  end.

(** [this.rooms.delete(code)] *)
Definition deleteRoom (c : string) (st : RoomStore) : RoomStore :=
  match list_find (λ kv, kv.1 = c) (rooms st) with
  | Some (i, _) => {| rooms := delete i (rooms st) |}
  | None => st
  end.

Definition toSnapshotOf (member : Member) : MemberSnapshot :=
  {| snap_memberId := memberId member;
     snap_clientId := clientId member;
     snap_displayName := displayName member;
     snap_avatar := avatar member;
     snap_isHost := isHost member;
     snap_joinedAt := joinedAt member;
     snap_status := status member |}.

Definition getMembersSnapshot (st : RoomStore) (c : string)
  : list MemberSnapshot :=
  match getRoom st c with
  | None => []
  | Some room => toSnapshotOf <$> members room
  end.

(** [generateCode()] is a random draw; [draws] lists the successive results
    of the calls the [do ... while] loop of [createRoom] makes.  The loop
    returns the first draw that no room has; it has not returned while every
    draw so far collides. *)
Fixpoint first_free_code (st : RoomStore) (draws : list string)
  : option string :=
  match draws with
  | [] => None
  | c :: rest => if has st c then first_free_code st rest else Some c
  end.

Definition createRoom (now : Z) (draws : list string)
    (hash : option string) (st : RoomStore) : option (RoomStore * Room) :=
  match first_free_code st draws with
  | None => None
  | Some c =>
      let room :=
        {| code := c; passwordHash := hash; members := [];
           createdAt := now; lastActive := now; history := [];
           canvasData := None; diagramData := None |} in
      Some ({| rooms := rooms st ++ [(c, room)] |}, room)
  end.

(** [this.rooms.entries()] as [listRooms] hands it out. *)
Definition listRooms (st : RoomStore) : list (string * Room) := rooms st.

(** The argument object of [upsertMember]; [p_isHost] is [None] when the
    optional field is left out. *)
Record UpsertPayload := {
  p_socketId : string;
  p_clientId : string;
  p_displayName : string;
  p_avatar : string;
  p_isHost : option bool;
}.

Definition upsertMember (now : Z) (uuid : string) (c : string)
    (payload : UpsertPayload) (st : RoomStore) : RoomStore * option Member :=
  match getRoom st c with
  | None => (st, None)
  | Some room =>
      match list_find (λ member, socketId member = p_socketId payload)
                      (members room) with
      | Some (i, bySocket) =>
          let bySocket' :=
            {| memberId := memberId bySocket;
               socketId := socketId bySocket;
               clientId := clientId bySocket;
               displayName := p_displayName payload;
               avatar := p_avatar payload;
               isHost := match p_isHost payload with
                         | Some b => b || isHost bySocket
                         | None => isHost bySocket
                         end;
               joinedAt := joinedAt bySocket;
               status := online;
               lastSeen := now |} in
          (update_room c
             (λ r, set_lastActive now
                     (set_members (<[i := bySocket']> (members r)) r)) st,
           Some bySocket')
      | None =>
          let hasHost := existsb isHost (members room) in
          let member :=
            {| memberId := uuid;
               socketId := p_socketId payload;
               clientId := p_clientId payload;
               displayName := p_displayName payload;
               avatar := p_avatar payload;
               isHost := match p_isHost payload with
                         | Some b => b
                         | None => negb hasHost
                         end;
               joinedAt := now;
               status := online;
               lastSeen := now |} in
          (update_room c
             (λ r, set_lastActive now
                     (set_members (members r ++ [member]) r)) st,
           Some member)
      end
  end.

(** The callback of [room.members.reduce(..., seed)].  A candidate is a
    reference to an element of the array; it is kept with the index of that
    element, so that the later assignment [nextHost.isHost = true] is an
    update of the array at that index. *)
Definition earlier (candidate current : nat * Member) : nat * Member :=
  if (joinedAt current.2 <? joinedAt candidate.2)%Z then current
  else candidate.

Definition nextHost (ms : list Member) : option (nat * Member) :=
  match ms with
  | [] => None
  | seed :: _ => Some (fold_left earlier (imap pair ms) (0, seed))
  end.

Definition promote_next_host (ms : list Member) : list Member :=
  match nextHost ms with
  | Some (k, _) => alter (set_isHost true) k ms
  | None => ms
  end.

Definition removeMemberBySocketId (now : Z) (c : string) (sid : string)
    (st : RoomStore) : RoomStore * option Member :=
  match getRoom st c with
  | None => (st, None)
  | Some room =>
      match list_find (λ m, socketId m = sid) (members room) with
      | None => (st, None)
      | Some (index, removed) =>
          let rest := delete index (members room) in
          let rest' :=
            if isHost removed && (0 <? length rest)
            then promote_next_host rest else rest in
          (update_room c (λ r, set_lastActive now (set_members rest' r)) st,
           Some removed)
      end
  end.

Definition cleanupInactiveRooms (now : Z) (timeoutMs : Z) (st : RoomStore)
  : RoomStore :=
  {| rooms := filter (λ kv, ¬ (now - lastActive kv.2 > timeoutMs)%Z)
                     (rooms st) |}.

(** ** [socket-handlers.ts] *)

(** Stroke validation that accepts either [width] or [size]. *)
Definition valid_point (pt : JsVal) : bool :=
  truthy pt
  && typeof_number (get pt "x")
  && typeof_number (get pt "y")
  && Number_isFinite (get pt "x")
  && Number_isFinite (get pt "y").

Definition isValidStroke (stroke : JsVal) : bool :=
  if negb (truthy stroke) then false
  else if negb (typeof_string (get stroke "color")) then false
  else
    let hasWidth := typeof_number (get stroke "width") in
    let hasSize := typeof_number (get stroke "size") in
    if negb hasWidth && negb hasSize then false
    else
      match get stroke "points" with
      | JsArray pts => forallb valid_point pts
      | _ => false
      end.

(** *** The profile normaliser *)

Record ProfilePayload := {
  pp_clientId : option string;
  pp_displayName : option string;
  pp_avatar : option string;
}.

Record Profile := {
  prof_clientId : string;
  prof_displayName : string;
  prof_avatar : string;
}.

Definition ADJECTIVES : list string :=
  ["Agile"; "Bold"; "Calm"; "Daring"; "Eager"; "Fierce"; "Gentle"; "Lively";
   "Mighty"; "Nimble"; "Quick"; "Rapid"; "Serene"; "Swift"; "Vivid"]%string.

Definition NOUNS : list string :=
  ["Artist"; "Brush"; "Canvas"; "Creator"; "Designer"; "Explorer"; "Maker";
   "Painter"; "Sketcher"; "Visionary"]%string.

Definition AVATARS : list string :=
  ["🎨"; "🖌️"; "🧠"; "🧩"; "✨"; "🎯"; "🛠️"; "🪄"; "🌈"; "🎲"]%string.

(** What one handler invocation reads from its environment. *)
Record Oracle := {
  now : Z;                    (* Date.now() *)
  codeDraws : list string;    (* the results of generateCode(), in order *)
  salt : string;              (* the salt bcrypt.hash draws *)
  memberUuid : string;        (* randomUUID() in upsertMember *)
  clientUuid : string;        (* randomUUID() in sanitizeClientId *)
  strokeUuid : string;        (* randomUUID() in the canvas:stroke handler *)
  adjectivePick : nat;        (* Math.floor(Math.random() * items.length) *)
  nounPick : nat;
  avatarPick : nat;
}.

(** [items[i] ?? items[0] ?? ""] *)
Definition pickRandom (i : nat) (items : list string) : string :=
  match items !! i with
  | Some s => s
  | None => match items !! 0 with Some s => s | None => "" end
  end.

(** An argument that is not a string ([typeof value !== "string"]) is
    [None]. *)
Definition sanitizeClientId (o : Oracle) (value : option string) : string :=
  let trimmed := match value with Some v => trim v | None => "" end in
  if 6 <=? String.length trimmed then slice0 64 trimmed else clientUuid o.

Definition random_name (o : Oracle) : string :=
  pickRandom (adjectivePick o) ADJECTIVES +:+ " "
  +:+ pickRandom (nounPick o) NOUNS.

Definition sanitizeDisplayName (o : Oracle) (value : option string)
  : string :=
  match value with
  | Some v =>
      let trimmed := collapse_breaks false (trim v) in
      if 2 <=? String.length trimmed then slice0 60 trimmed
      else random_name o
  | None => random_name o
  end.

Definition sanitizeAvatar (o : Oracle) (value : option string) : string :=
  match value with
  | Some v =>
      if 0 <? String.length (trim v) then slice0 4 (trim v)
      else pickRandom (avatarPick o) AVATARS
  | None => pickRandom (avatarPick o) AVATARS
  end.

(** [profile?.field] of an absent profile is [undefined]. *)
Definition buildProfile (o : Oracle) (profile : option ProfilePayload)
  : Profile :=
  {| prof_clientId := sanitizeClientId o (profile ≫= pp_clientId);
     prof_displayName := sanitizeDisplayName o (profile ≫= pp_displayName);
     prof_avatar := sanitizeAvatar o (profile ≫= pp_avatar) |}.

Definition toSnapshot (member : option Member) : option MemberSnapshot :=
  toSnapshotOf <$> member.

(** *** Events *)

(** What the server sends. *)
Inductive ServerEvent :=
| room_members (ms : list MemberSnapshot)     (* "room:members" {members} *)
| canvas_stroke (s : Stroke)                  (* "canvas:stroke" *)
| canvas_undo (strokeId : string)             (* "canvas:undo" {strokeId} *)
| canvas_snapshot (data : string)             (* "canvas:snapshot" *)
| canvas_history (h : list Stroke).           (* "canvas:history" *)

Inductive Ack :=
| ack_success (roomCode : string) (host : bool)
              (ms : list MemberSnapshot) (self : option MemberSnapshot)
| ack_failure (error : string).

(** What one handler invocation does to the outside, in order. *)
Inductive Effect :=
| io_to_emit (c : string) (e : ServerEvent)   (* io.to(c).emit(...) *)
| socket_emit (e : ServerEvent)               (* socket.emit(...) *)
| socket_join (c : string)                    (* socket.join(c) *)
| callback (a : Ack)                          (* callback({...}) *)
| console_warn.                               (* the rejected-stroke log *)

(** What a connection sends.  The fields of the [canvas:*] payloads have no
    static type and are tested by the handlers. *)
Inductive ClientEvent :=
| create_room (password : option string) (profile : option ProfilePayload)
| join_room (c : string) (password : option string)
            (profile : option ProfilePayload)
| stroke_event (codeParam roomCode stroke : JsVal)
| undo_event (codeParam roomCode strokeId : JsVal)
| request_snapshot (codeParam roomCode : JsVal)
| save_snapshot (codeParam roomCode snapshot : JsVal)
| disconnect.

(** The bcrypt package.  [bcrypt_hash password salt] is the string
    [bcrypt.hash(password, 10)] resolves to when it draws [salt];
    [bcrypt_compare password hash] is what [bcrypt.compare] resolves to. *)
Class Bcrypt := {
  bcrypt_hash : string → string → string;
  bcrypt_compare : string → string → bool;
}.

(** The truth value of an optional string: [undefined], [null] and the
    empty string are false. *)
Definition nonempty (s : option string) : bool :=
  match s with Some v => negb (String.eqb v "") | None => false end.

Definition emitMembers (st : RoomStore) (c : string) : list Effect :=
  [io_to_emit c (room_members (getMembersSnapshot st c))].

(** The [if (room.canvasData) ... else if (room.history.length > 0) ...]
    that ends [join-room] and makes up [canvas:request-snapshot]. *)
Definition send_history (room : Room) : list Effect :=
  if 0 <? length (history room)
  then [socket_emit (canvas_history (history room))]
  else [].

Definition send_recovery_state (room : Room) : list Effect :=
  match canvasData room with
  | Some data =>
      if String.eqb data "" then send_history room
      else [socket_emit (canvas_snapshot data)]
  | None => send_history room
  end.

(** [roomStore.getRoom(v)] for a key with no static type: the keys of the
    map are strings, so any other value finds nothing. *)
Definition lookup_room (st : RoomStore) (v : JsVal)
  : option (string * Room) :=
  match v with
  | JsString c => pair c <$> getRoom st c
  | _ => None
  end.

Definition normalize_point (p : JsVal) : Point :=
  {| x := get p "x";
     y := get p "y";
     pressure :=
       if typeof_number (get p "pressure")
          && Number_isFinite (get p "pressure")
       then get p "pressure"
       else JsNumber 0.5 |}.

(** The elements of [stroke.points], an array once [isValidStroke] holds. *)
Definition elements (v : JsVal) : list JsVal :=
  match v with JsArray elems => elems | _ => [] end.

Definition normalize (o : Oracle) (stroke : JsVal) : Stroke :=
  let normalizedId :=
    match get stroke "id" with
    | JsString s =>
        if 0 <? String.length (trim s) then s else slice0 12 (strokeUuid o)
    | _ => slice0 12 (strokeUuid o)
    end in
  {| id := normalizedId;
     tool := match get stroke "tool" with
             | JsString t => if String.eqb t "eraser" then eraser else pen
             | _ => pen
             end;
     color := get stroke "color";
     width := if typeof_number (get stroke "width")
              then get stroke "width" else get stroke "size";
     points := normalize_point <$> elements (get stroke "points");
     stroke_createdAt :=
       js_or (get stroke "createdAt") (JsNumber (number_of_time (now o))) |}.

(** [room.history.push(normalized)] and the [shift] that follows it. *)
Definition push_capped (normalized : Stroke) (h : list Stroke)
  : list Stroke :=
  let h' := h ++ [normalized] in
  if 5000 <? length h' then tail h' else h'.

Section Handlers.
Context `{Bcrypt}.

(** The handlers of one connection; [sock] is [socket.id].  The two
    [async] handlers are taken as running to completion: the model has no
    event interleaved at their [await]. *)
Variable sock : string.
Variable o : Oracle.

(** [socket.on("create-room", ...)].  Nothing in the body of its [try]
    throws in the model, so the [catch] branch has no counterpart; the
    handler has not answered while [createRoom] is still drawing codes. *)
Definition on_create_room (password : option string)
    (profile : option ProfilePayload) (st : RoomStore)
  : option (RoomStore * list Effect) :=
  let hash :=
    match password with
    | Some pw =>
        if String.eqb pw "" then None else Some (bcrypt_hash pw (salt o))
    | None => None
    end in
  match createRoom (now o) (codeDraws o) hash st with
  | None => None
  | Some (st1, room) =>
      let normalizedProfile := buildProfile o profile in
      let '(st2, member) :=
        upsertMember (now o) (memberUuid o) (code room)
          {| p_socketId := sock;
             p_clientId := prof_clientId normalizedProfile;
             p_displayName := prof_displayName normalizedProfile;
             p_avatar := prof_avatar normalizedProfile;
             p_isHost := Some true |} st1 in
      Some (st2,
            [socket_join (code room)]
            ++ emitMembers st2 (code room)
            ++ [callback (ack_success (code room) true
                            (getMembersSnapshot st2 (code room))
                            (toSnapshot member))])
  end.

(** [password || ""] *)
Definition supplied (password : option string) : string :=
  match password with Some pw => pw | None => "" end.

(** The password gate of [join-room]: [true] when the room has a hash and
    the supplied password does not verify against it. *)
Definition password_rejected (room : Room) (password : option string)
  : bool :=
  match passwordHash room with
  | Some h =>
      if String.eqb h "" then false
      else negb (bcrypt_compare (supplied password) h)
  | None => false
  end.

(** [socket.on("join-room", ...)].  [room] is read before [upsertMember]
    runs; the call leaves [canvasData] and [history] as they are, so the
    recovery state is the same read before or after it. *)
Definition on_join_room (c : string) (password : option string)
    (profile : option ProfilePayload) (st : RoomStore)
  : RoomStore * list Effect :=
  match getRoom st c with
  | None => (st, [callback (ack_failure "Room not found")])
  | Some room =>
      if password_rejected room password
      then (st, [callback (ack_failure "Invalid password")])
      else
        let normalizedProfile := buildProfile o profile in
        let '(st1, member) :=
          upsertMember (now o) (memberUuid o) c
            {| p_socketId := sock;
               p_clientId := prof_clientId normalizedProfile;
               p_displayName := prof_displayName normalizedProfile;
               p_avatar := prof_avatar normalizedProfile;
               p_isHost := Some false |} st in
        (st1,
         [socket_join c]
         ++ emitMembers st1 c
         ++ send_recovery_state room
         ++ [callback (ack_success c
                         (match member with
                          | Some m => isHost m
                          | None => false
                          end)
                         (getMembersSnapshot st1 c)
                         (toSnapshot member))])
  end.

(** The rest of [join-room] from [buildProfile] on, as it runs when the
    handler goes on after [await bcrypt.compare] has answered that the
    password is valid.  [st] is the store of that moment: [on_join_room]
    above is the handler with nothing handled during the [await] (and a
    room with no hash has no [await]), while here the store may have moved
    on.  [room] is the object the handler read before the [await], as it
    is now; the table is looked up again by [upsertMember] and by
    [getMembersSnapshot], and a room the sweep has deleted is not found. *)
Definition join_room_after_await (c : string)
    (profile : option ProfilePayload) (room : Room) (st : RoomStore)
  : RoomStore * list Effect :=
  let normalizedProfile := buildProfile o profile in
  let '(st1, member) :=
    upsertMember (now o) (memberUuid o) c
      {| p_socketId := sock;
         p_clientId := prof_clientId normalizedProfile;
         p_displayName := prof_displayName normalizedProfile;
         p_avatar := prof_avatar normalizedProfile;
         p_isHost := Some false |} st in
  (st1,
   [socket_join c]
   ++ emitMembers st1 c
   ++ send_recovery_state room
   ++ [callback (ack_success c
                   (match member with
                    | Some m => isHost m
                    | None => false
                    end)
                   (getMembersSnapshot st1 c)
                   (toSnapshot member))]).

(** [socket.on("canvas:stroke", ...)].  In the branch where the room is
    found the key is a string, and it is the topic of the broadcast. *)
Definition on_stroke (codeParam roomCode stroke : JsVal) (st : RoomStore)
  : RoomStore * list Effect :=
  let c := js_or codeParam roomCode in
  if negb (truthy c) then (st, [])
  else
    match lookup_room st c with
    | None => (st, [])
    | Some (c, room) =>
        if negb (isValidStroke stroke) then (st, [console_warn])
        else
          let normalized := normalize o stroke in
          (update_room c
             (λ r, set_lastActive (now o)
                     (set_history (push_capped normalized (history r)) r))
             st,
           [io_to_emit c (canvas_stroke normalized)])
    end.

(** [socket.on("canvas:undo", ...)].  The entries of a history are the
    objects the stroke handler pushed, so [entry && entry.id === strokeId]
    is the comparison of ids. *)
Definition on_undo (codeParam roomCode strokeId : JsVal) (st : RoomStore)
  : RoomStore * list Effect :=
  let c := js_or codeParam roomCode in
  match strokeId with
  | JsString strokeId =>
      if negb (truthy c) then (st, [])
      else
        match lookup_room st c with
        | None => (st, [])
        | Some (c, room) =>
            match list_find (λ entry, id entry = strokeId)
                            (history room) with
            | None => (st, [])
            | Some (index, _) =>
                let clear (r : Room) : Room :=
                  match canvasData r with
                  | Some data =>
                      if startsWith "{" (trim data)
                      then set_canvasData None r else r
                  | None => r
                  end in
                (update_room c
                   (λ r, clear (set_lastActive (now o)
                            (set_history (delete index (history r)) r)))
                   st,
                 [io_to_emit c (canvas_undo strokeId)])
            end
        end
  | _ => (st, [])
  end.

(** [socket.on("canvas:request-snapshot", ...)] *)
Definition on_request_snapshot (codeParam roomCode : JsVal)
    (st : RoomStore) : RoomStore * list Effect :=
  match lookup_room st (js_or codeParam roomCode) with
  | None => (st, [])
  | Some (_, room) => (st, send_recovery_state room)
  end.

(** [socket.on("canvas:save-snapshot", ...)] *)
Definition on_save_snapshot (codeParam roomCode snapshot : JsVal)
    (st : RoomStore) : RoomStore * list Effect :=
  match lookup_room st (js_or codeParam roomCode) with
  | None => (st, [])
  | Some (c, room) =>
      match snapshot with
      | JsString snapshot =>
          let trimmed := trim snapshot in
          if startsWith "{" trimmed
             || startsWith "data:image/" trimmed
          then (update_room c
                  (λ r, set_lastActive (now o)
                          (set_canvasData (Some trimmed) r)) st,
                [])
          else (st, [])
      | _ => (st, [])
      end
  end.

(** One turn of the loop of the [disconnect] handler. *)
Definition leave_room (acc : RoomStore * list Effect)
    (entry : string * Room) : RoomStore * list Effect :=
  let '(st1, removed) :=
    removeMemberBySocketId (now o) entry.1 sock acc.1 in
  match removed with
  | Some _ => (st1, acc.2 ++ emitMembers st1 entry.1)
  | None => (st1, acc.2)
  end.

(** [socket.on("disconnect", ...)] *)
Definition on_disconnect (st : RoomStore) : RoomStore * list Effect :=
  fold_left leave_room (listRooms st) (st, []).

(** [registerSocketHandlers]: the dispatch on the event name.  The result
    is [None] only while [createRoom] has not found a free code. *)
Definition handle (ev : ClientEvent) (st : RoomStore)
  : option (RoomStore * list Effect) :=
  match ev with
  | create_room password profile => on_create_room password profile st
  | join_room c password profile =>
      Some (on_join_room c password profile st)
  | stroke_event codeParam roomCode stroke =>
      Some (on_stroke codeParam roomCode stroke st)
  | undo_event codeParam roomCode strokeId =>
      Some (on_undo codeParam roomCode strokeId st)
  | request_snapshot codeParam roomCode =>
      Some (on_request_snapshot codeParam roomCode st)
  | save_snapshot codeParam roomCode snapshot =>
      Some (on_save_snapshot codeParam roomCode snapshot st)
  | disconnect => Some (on_disconnect st)
  end.
End Handlers.

(** ** The server as a transition system ([server.ts]) *)

(** What moves the store: an event of a connection, the REST endpoint that
    creates a room with no password and no member, and the sweep that
    [setInterval] runs with a timeout of one hour. *)
Inductive Step :=
| socket_event (sock : string) (o : Oracle) (ev : ClientEvent)
| http_create_room (o : Oracle)          (* POST /create-room *)
| cleanup_tick (o : Oracle).             (* the sweep of setInterval *)

Definition step `{Bcrypt} (s : Step) (st : RoomStore)
  : option (RoomStore * list Effect) :=
  match s with
  | socket_event sock o ev => handle sock o ev st
  | http_create_room o =>
      (λ r, (r.1, [])) <$> createRoom (now o) (codeDraws o) None st
  | cleanup_tick o =>
      Some (cleanupInactiveRooms (now o) (60 * 60 * 1000) st, [])
  end.

(** The states the server can be in: it starts with no room and moves by
    steps that return. *)
Inductive reachable `{Bcrypt} : RoomStore → Prop :=
| reachable_start : reachable empty_store
| reachable_step s st st' out :
    reachable st → step s st = Some (st', out) → reachable st'.

(** A run of socket events, with the effects of each. *)
Fixpoint run `{Bcrypt} (evs : list (string * Oracle * ClientEvent))
    (st : RoomStore) : option (RoomStore * list (list Effect)) :=
  match evs with
  | [] => Some (st, [])
  | (sock, o, ev) :: rest =>
      match handle sock o ev st with
      | None => None
      | Some (st1, out) =>
          match run rest st1 with
          | None => None
          | Some (st2, outs) => Some (st2, out :: outs)
          end
      end
  end.

(** A stand-in for the bcrypt package, for running the handlers on
    examples: the hash of a password is its salt, a [$] and the password,
    and a password verifies against the hashes that end in [$] and it. *)
Definition plain_bcrypt : Bcrypt :=
  {| bcrypt_hash pw s := s +:+ "$" +:+ pw;
     bcrypt_compare pw h :=
       String.eqb ("$" +:+ pw)
         (substring (String.length h - String.length pw - 1)
                    (String.length pw + 1) h) |}.

(** ** The properties, as definitions *)

Definition hosts (ms : list Member) : list Member :=
  filter (λ m, isHost m = true) ms.

(** The single-host property of a room, and its weaker half. *)
Definition exactly_one_host (ms : list Member) : Prop :=
  length (hosts ms) = 1.

Definition at_most_one_host (ms : list Member) : Prop :=
  length (hosts ms) ≤ 1.

Record room_ok (r : Room) : Prop := {
  ok_hosts : at_most_one_host (members r);
  ok_history : length (history r) ≤ 5000;
  ok_canvas : canvasData r ≠ Some ""%string;
}.

Definition store_ok (st : RoomStore) : Prop :=
  Forall (λ kv, room_ok kv.2) (rooms st).

(** The recovery state of a room as the specification words it: the stored
    snapshot when there is one, else the history when it is not empty, else
    nothing. *)
Definition recovery_by_priority (room : Room) : list ServerEvent :=
  match canvasData room with
  | Some data => [canvas_snapshot data]
  | None =>
      match history room with
      | [] => []
      | _ :: _ => [canvas_history (history room)]
      end
  end.

(** [st'] has every room of [st], with the same history and snapshot. *)
Definition same_canvas (st st' : RoomStore) : Prop :=
  ∀ c r, getRoom st c = Some r →
    ∃ r', getRoom st' c = Some r'
      ∧ history r' = history r ∧ canvasData r' = canvasData r.

(** A run of steps of the server, socket events, REST calls and sweeps
    alike, with the effects of each. *)
Fixpoint run_steps `{Bcrypt} (steps : list Step) (st : RoomStore)
  : option (RoomStore * list (list Effect)) :=
  match steps with
  | [] => Some (st, [])
  | s :: rest =>
      match step s st with
      | None => None
      | Some (st1, out) =>
          match run_steps rest st1 with
          | None => None
          | Some (st2, outs) => Some (st2, out :: outs)
          end
      end
  end.

(** A step spares the stroke [n] of room [c] when it is none of these: an
    undo of the id of [n] in [c]; a valid stroke pushed onto a history of
    [c] that is at the cap with [n] as its oldest entry; a save of a
    snapshot that [c] takes; a sweep that finds [c] stale.  A stroke or a
    snapshot that the handler rejects spares [n], and so does every other
    step. *)
Definition spares (c : string) (n : Stroke) (st : RoomStore) (s : Step)
  : Prop :=
  match s with
  | socket_event _ _ (undo_event codeParam roomCode strokeId) =>
      ¬ (js_or codeParam roomCode = JsString c
         ∧ strokeId = JsString (id n))
  | socket_event _ _ (stroke_event codeParam roomCode stroke) =>
      js_or codeParam roomCode = JsString c →
      isValidStroke stroke = true →
      ∀ room, getRoom st c = Some room →
        5000 ≤ length (history room) → head (history room) ≠ Some n
  | socket_event _ _ (save_snapshot codeParam roomCode snapshot) =>
      js_or codeParam roomCode = JsString c →
      ∀ data, snapshot = JsString data →
        startsWith "{" (trim data) || startsWith "data:image/" (trim data)
        = false
  | cleanup_tick o =>
      ∀ room, getRoom st c = Some room →
        (now o - lastActive room ≤ 60 * 60 * 1000)%Z
  | _ => True
  end.

(** Every step of a run spares [n], each in the store it is taken in. *)
Fixpoint spared `{Bcrypt} (c : string) (n : Stroke) (steps : list Step)
    (st : RoomStore) : Prop :=
  match steps with
  | [] => True
  | s :: rest =>
      spares c n st s
      ∧ match step s st with
        | Some (st1, _) => spared c n rest st1
        | None => True
        end
  end.

(** Room [c] exists, holds [n] in its history, and has no snapshot. *)
Definition holds (c : string) (n : Stroke) (st : RoomStore) : Prop :=
  ∃ room, getRoom st c = Some room
    ∧ n ∈ history room ∧ canvasData room = None.

(** ** Stores and runs used as examples *)

Definition oracle_at (t : Z) (draw uuid : string) : Oracle :=
  {| now := t; codeDraws := [draw]; salt := "salt";
     memberUuid := uuid; clientUuid := "client-0001";
     strokeUuid := "0123456789abcdef";
     adjectivePick := 0; nounPick := 0; avatarPick := 0 |}.

(** A host creates room [k3x9qz] and leaves; a second connection then
    joins the room, which is still in the table.  *)
Definition rejoin_after_empty : list (string * Oracle * ClientEvent) :=
  [("sock-A"%string, oracle_at 1000 "k3x9qz" "member-A",
    create_room None None);
   ("sock-A"%string, oracle_at 2000 "" "", disconnect);
   ("sock-B"%string, oracle_at 3000 "" "member-B",
    join_room "k3x9qz" None None)].

(** A room with a password, made by [create-room]. *)
Definition guarded_store : RoomStore :=
  match handle (H := plain_bcrypt) "sock-A"
          (oracle_at 1000 "k3x9qz" "member-A")
          (create_room (Some "secret"%string) None) empty_store with
  | Some (st, _) => st
  | None => empty_store
  end.

(** The room of [rejoin_after_empty] once its host has left. *)
Definition emptied_store : RoomStore :=
  match run (H := plain_bcrypt) (take 2 rejoin_after_empty) empty_store with
  | Some (st, _) => st
  | None => empty_store
  end.

(** The stroke [s1] of the scenarios: two points, no pressure given. *)
Definition stroke_s1 : JsVal :=
  JsObject [("id"%string, JsString "s1");
            ("tool"%string, JsString "pen");
            ("color"%string, JsString "#fff");
            ("width"%string, JsNumber 4);
            ("points"%string,
             JsArray [JsObject [("x"%string, JsNumber 0);
                                ("y"%string, JsNumber 0)];
                      JsObject [("x"%string, JsNumber 10);
                                ("y"%string, JsNumber 10)]])].

(** A host creates room [k3x9qz] and draws [s1]. *)
Definition create_and_draw : list (string * Oracle * ClientEvent) :=
  [("sock-A"%string, oracle_at 1000 "k3x9qz" "member-A",
    create_room None None);
   ("sock-A"%string, oracle_at 1500 "" "",
    stroke_event (JsString "k3x9qz") JsUndefined stroke_s1)].

(** Room [k3x9qz] with one member and the stroke [s1] in its history. *)
Definition drawn_store : RoomStore :=
  match run (H := plain_bcrypt) create_and_draw empty_store with
  | Some (st, _) => st
  | None => empty_store
  end.

(** A room whose history holds 5000 strokes. *)
Definition full_store : RoomStore :=
  {| rooms :=
       [("k3x9qz"%string,
         {| code := "k3x9qz"; passwordHash := None; members := [];
            createdAt := 1000; lastActive := 1500;
            history := replicate 5000 (normalize (oracle_at 1500 "" "")
                                         stroke_s1);
            canvasData := None; diagramData := None |})] |}.

Definition member_of (uuid sid : string) (host : bool) (t : Z) : Member :=
  {| memberId := uuid; socketId := sid; clientId := "client-0001";
     displayName := "Agile Artist"; avatar := "🎨"; isHost := host;
     joinedAt := t; status := online; lastSeen := t |}.

(** A room with host A and two members B and C who joined in the same
    millisecond. *)
Definition crowded_room : Room :=
  {| code := "k3x9qz"; passwordHash := None;
     members := [member_of "member-A" "sock-A" true 1000;
                 member_of "member-B" "sock-B" false 2000;
                 member_of "member-C" "sock-C" false 2000];
     createdAt := 1000; lastActive := 2000; history := [];
     canvasData := None; diagramData := None |}.

Definition crowded_store : RoomStore :=
  {| rooms := [("k3x9qz"%string, crowded_room)] |}.

(** Room [k3x9qz] with a stroke in its history and a saved snapshot. *)
Definition saved_store : RoomStore :=
  match run (H := plain_bcrypt)
          (create_and_draw ++
           [("sock-A"%string, oracle_at 1700 "" "",
             save_snapshot (JsString "k3x9qz") JsUndefined
               (JsString " {}"))])
          empty_store with
  | Some (st, _) => st
  | None => empty_store
  end.

(** Room [k3x9qz] just after its creation. *)
Definition created_store : RoomStore :=
  match run (H := plain_bcrypt) (take 1 create_and_draw) empty_store with
  | Some (st, _) => st
  | None => empty_store
  end.

(** A stroke with no point. *)
Definition stroke_s2 : JsVal :=
  JsObject [("id"%string, JsString "s2");
            ("color"%string, JsString "#fff");
            ("width"%string, JsNumber 4);
            ("points"%string, JsArray [])].

(** What follows the stroke [s1] on a busy server: a second member joins
    and draws [s2], the sweep runs and finds the room fresh, the REST
    endpoint makes another room, a save of something that is no snapshot is
    turned down, and the host undoes [s2]. *)
Definition busy_after_s1 : list Step :=
  [socket_event "sock-B" (oracle_at 3000 "" "member-B")
     (join_room "k3x9qz" None None);
   socket_event "sock-B" (oracle_at 3100 "" "")
     (stroke_event (JsString "k3x9qz") JsUndefined stroke_s2);
   cleanup_tick (oracle_at 3150 "" "");
   http_create_room (oracle_at 3160 "q7w2er" "");
   socket_event "sock-B" (oracle_at 3170 "" "")
     (save_snapshot (JsString "k3x9qz") JsUndefined (JsString "no snapshot"));
   socket_event "sock-A" (oracle_at 3200 "" "")
     (undo_event JsUndefined (JsString "k3x9qz") (JsString "s2"))].

Definition busy_store : RoomStore :=
  match run_steps (H := plain_bcrypt) busy_after_s1 drawn_store with
  | Some (st, _) => st
  | None => empty_store
  end.

(** The store of [drawn_store] an hour and a millisecond after its last
    stroke, once the sweep has run. *)
Definition swept_store : RoomStore :=
  cleanupInactiveRooms 3601501 (60 * 60 * 1000) drawn_store.

(** The store of [guarded_store] once the sweep has deleted its room. *)
Definition guarded_swept_store : RoomStore :=
  cleanupInactiveRooms 3601001 (60 * 60 * 1000) guarded_store.

(** ** Further properties, as definitions *)

(** A room sits well in the table under key [k]: its [code] is [k] and no
    two of its members have the same [socketId]. *)
Definition room_wf (k : string) (r : Room) : Prop :=
  code r = k ∧ NoDup (socketId <$> members r).

(** No two entries of the table share a key, and every room sits well
    under its key. *)
Definition table_wf (st : RoomStore) : Prop :=
  NoDup (rooms st).*1 ∧ Forall (λ kv, room_wf kv.1 kv.2) (rooms st).

(** A value that is a number and that [Number.isFinite] accepts. *)
Definition finite_number (v : JsVal) : bool :=
  typeof_number v && Number_isFinite v.

(** A history entry has the shape the clients draw from: a string [color],
    a numeric [width], and points whose [x], [y] and [pressure] are finite
    numbers. *)
Definition point_wf (p : Point) : Prop :=
  finite_number (x p) = true
  ∧ finite_number (y p) = true
  ∧ finite_number (pressure p) = true.

Definition stroke_wf (s : Stroke) : Prop :=
  typeof_string (color s) = true
  ∧ typeof_number (width s) = true
  ∧ Forall point_wf (points s).

(** [r'] is the room [r] at a later time: the fields that are set once, at
    creation, are the same. *)
Definition same_identity (r r' : Room) : Prop :=
  code r' = code r
  ∧ passwordHash r' = passwordHash r
  ∧ createdAt r' = createdAt r.

(** The room key an event carries; [create-room] and [disconnect] carry
    none. *)
Definition addressed (ev : ClientEvent) : option JsVal :=
  match ev with
  | join_room c _ _ => Some (JsString c)
  | stroke_event codeParam roomCode _
  | undo_event codeParam roomCode _
  | request_snapshot codeParam roomCode
  | save_snapshot codeParam roomCode _ => Some (js_or codeParam roomCode)
  | create_room _ _ | disconnect => None
  end.

(** What [canvas:undo] leaves of a snapshot: a structured one is dropped, a
    raster one is kept. *)
Definition snapshot_after_undo (d : option string) : option string :=
  match d with
  | Some data => if startsWith "{" (trim data) then None else Some data
  | None => None
  end.

(** A string that does not start with a code unit that [trim] strips. *)
Definition starts_clean (s : string) : bool :=
  match s with
  | String c _ => negb (is_white_space c)
  | EmptyString => true
  end.

(** A stored snapshot is its own trimmed form and has one of the two
    prefixes [canvas:save-snapshot] admits. *)
Definition snapshot_wf (d : string) : Prop :=
  trim d = d
  ∧ startsWith "{" d || startsWith "data:image/" d = true.

(** A string with no CR, LF or TAB. *)
Fixpoint no_break (s : string) : bool :=
  match s with
  | String c rest => negb (is_break c) && no_break rest
  | EmptyString => true
  end.

(** The law of the bcrypt package the password gate relies on: a password
    verifies against every hash made of it. *)
Definition bcrypt_verifies `{Bcrypt} : Prop :=
  ∀ pw s, bcrypt_compare pw (bcrypt_hash pw s) = true.

(** A display name as [sanitizeDisplayName] hands it out: two to sixty
    code units, none of them CR, LF or TAB. *)
Definition name_wf (s : string) : bool :=
  (2 <=? String.length s) && (String.length s <=? 60) && no_break s.

(** What a member shows of the profile: a display name of that form and an
    avatar that is not empty. *)
Definition member_wf (m : Member) : Prop :=
  name_wf (displayName m) = true ∧ avatar m ≠ ""%string.

(** A stroke whose second point has no number as [y]. *)
Definition stroke_bad_point : JsVal :=
  JsObject [("id"%string, JsString "s3");
            ("color"%string, JsString "#fff");
            ("width"%string, JsNumber 4);
            ("points"%string,
             JsArray [JsObject [("x"%string, JsNumber 0);
                                ("y"%string, JsNumber 0)];
                      JsObject [("x"%string, JsNumber 10);
                                ("y"%string, JsString "10")]])].

(** The body of the loop of [cleanupInactiveRooms] as it is written: a
    stale entry is deleted from the map by its code. *)
Definition delete_if_stale (now timeoutMs : Z) (acc : RoomStore)
    (entry : string * Room) : RoomStore :=
  if decide (now - lastActive entry.2 > timeoutMs)%Z
  then deleteRoom entry.1 acc else acc.

(** The loop over [this.rooms.entries()]. *)
Definition cleanup_loop (now timeoutMs : Z) (st : RoomStore) : RoomStore :=
  fold_left (delete_if_stale now timeoutMs) (listRooms st) st.

(** ** The room table *)

Section RoomTable.
Implicit Types (st : RoomStore) (c k : string) (r : Room)
               (f : Room → Room).

Lemma getRoom_Some st c r :
  getRoom st c = Some r → (c, r) ∈ rooms st.
Proof.
  unfold getRoom. intros Hget.
  destruct (list_find _ _) as [[i [k r']]|] eqn:Hfind; simplify_eq/=.
  apply list_find_Some in Hfind as (Hi & Hk & _). simpl in Hk. subst k.
  by eapply list_elem_of_lookup_2.
Qed.

Lemma getRoom_update_room st c f c' :
  getRoom (update_room c f st) c' =
  if decide (c = c') then f <$> getRoom st c' else getRoom st c'.
Proof.
  unfold getRoom, update_room.
  destruct (list_find (λ kv, kv.1 = c) (rooms st))
    as [[i [k r]]|] eqn:Hfind; simpl.
  - apply list_find_Some in Hfind as (Hi & Hk & Hbefore).
    simpl in Hk. subst k.
    case_decide as Hc; [subst c'|].
    + assert (list_find (λ kv : string * Room, kv.1 = c)
                (alter (λ kv, (kv.1, f kv.2)) i (rooms st))
              = Some (i, (c, f r))) as ->.
      { apply list_find_Some. split_and!.
        - by rewrite list_lookup_alter_eq, Hi.
        - done.
        - intros j [k' r'] Hj Hlt.
          rewrite list_lookup_alter_ne in Hj by lia. eauto. }
      assert (list_find (λ kv : string * Room, kv.1 = c) (rooms st)
              = Some (i, (c, r))) as ->; [|done].
      apply list_find_Some. eauto.
    + destruct (list_find (λ kv : string * Room, kv.1 = c') (rooms st))
        as [[j [k' r']]|] eqn:Hfind'.
      * apply list_find_Some in Hfind' as (Hj & Hk' & Hbefore').
        simpl in Hk'. subst k'.
        assert (i ≠ j) by (intros ->; congruence).
        assert (list_find (λ kv : string * Room, kv.1 = c')
                  (alter (λ kv, (kv.1, f kv.2)) i (rooms st))
                = Some (j, (c', r'))) as ->; [|done].
        apply list_find_Some. split_and!.
        -- by rewrite list_lookup_alter_ne.
        -- done.
        -- intros j' [k'' r''] Hj' Hlt.
           destruct (decide (i = j')) as [->|].
           ++ rewrite list_lookup_alter_eq, Hi in Hj'.
              simplify_eq/=. done.
           ++ rewrite list_lookup_alter_ne in Hj' by done. eauto.
      * assert (list_find (λ kv : string * Room, kv.1 = c')
                  (alter (λ kv, (kv.1, f kv.2)) i (rooms st))
                = None) as ->; [|done].
        apply list_find_None. apply list_find_None in Hfind'.
        apply Forall_alter; [done|]. intros [k' r'] _ Hk'. done.
  - apply list_find_None in Hfind.
    case_decide as Hc; [subst c'|done].
    assert (list_find (λ kv : string * Room, kv.1 = c) (rooms st) = None)
      as -> by by apply list_find_None.
    done.
Qed.
End RoomTable.

(** ** Hosts of a member list *)

Section Hosts.
Implicit Types (ms : list Member) (m : Member).

Lemma hosts_app ms1 ms2 : hosts (ms1 ++ ms2) = hosts ms1 ++ hosts ms2.
Proof. apply filter_app. Qed.

Lemma hosts_cons m ms :
  hosts (m :: ms) = if isHost m then m :: hosts ms else hosts ms.
Proof.
  unfold hosts. rewrite filter_cons.
  destruct (isHost m); by case_decide.
Qed.

Lemma hosts_nil_iff ms :
  hosts ms = [] ↔ ∀ j m, ms !! j = Some m → isHost m = false.
Proof.
  split.
  - intros Hnil j m Hj. destruct (isHost m) eqn:Hm; [|done].
    assert (m ∈ hosts ms) as Hin.
    { apply list_elem_of_filter. split; [done|].
      by eapply list_elem_of_lookup_2. }
    rewrite Hnil in Hin. by apply not_elem_of_nil in Hin.
  - intros Hall. induction ms as [|m ms IH]; [done|].
    rewrite hosts_cons, (Hall 0 m) by done.
    apply IH. intros j m' Hj. by apply (Hall (S j)).
Qed.

Lemma hosts_length_split ms i m :
  ms !! i = Some m →
  length (hosts ms) =
  length (hosts (take i ms)) + (if isHost m then 1 else 0)
  + length (hosts (drop (S i) ms)).
Proof.
  intros Hi. rewrite <- (take_drop_middle ms i m Hi) at 1.
  rewrite hosts_app, hosts_cons, length_app.
  destruct (isHost m); simpl; lia.
Qed.

Lemma hosts_length_insert ms i m m' :
  ms !! i = Some m →
  length (hosts (<[i := m']> ms)) + (if isHost m then 1 else 0) =
  length (hosts ms) + (if isHost m' then 1 else 0).
Proof.
  intros Hi. pose proof (lookup_lt_Some _ _ _ Hi) as Hlt.
  rewrite (hosts_length_split ms i m Hi).
  rewrite insert_take_drop by done.
  rewrite hosts_app, hosts_cons, length_app.
  destruct (isHost m), (isHost m'); simpl; lia.
Qed.

Lemma hosts_length_delete ms i m :
  ms !! i = Some m →
  length (hosts ms) =
  length (hosts (delete i ms)) + (if isHost m then 1 else 0).
Proof.
  intros Hi. rewrite (hosts_length_split ms i m Hi).
  rewrite delete_take_drop, hosts_app, length_app. lia.
Qed.

Lemma alter_as_insert {A} (g : A → A) (l : list A) i a :
  l !! i = Some a → alter g i l = <[i := g a]> l.
Proof.
  intros Hi. apply list_eq. intros j.
  destruct (decide (i = j)) as [->|].
  - rewrite list_lookup_alter_eq, Hi.
    by rewrite list_lookup_insert_eq by by eapply lookup_lt_Some.
  - by rewrite list_lookup_alter_ne, list_lookup_insert_ne.
Qed.
End Hosts.

(** ** Host succession: [reduce] picks the first member of least
    [joinedAt] *)

Section Succession.
Implicit Types (ms : list Member) (m : Member)
               (ps : list (nat * Member)) (cand : nat * Member).

Lemma fold_earlier ps cand :
  let res := fold_left earlier ps cand in
  (res = cand ∧
   ∀ j p, ps !! j = Some p → (joinedAt cand.2 ≤ joinedAt p.2)%Z)
  ∨ (∃ j, ps !! j = Some res
        ∧ (joinedAt res.2 < joinedAt cand.2)%Z
        ∧ (∀ j' p, j' < j → ps !! j' = Some p →
                   (joinedAt res.2 < joinedAt p.2)%Z)
        ∧ (∀ j' p, ps !! j' = Some p →
                   (joinedAt res.2 ≤ joinedAt p.2)%Z)).
Proof.
  revert cand. induction ps as [|p ps IH]; intros cand; simpl.
  - left. split; [done|]. intros j p Hj. by destruct j.
  - destruct (Z.ltb_spec (joinedAt p.2) (joinedAt cand.2)) as [Hlt|Hge].
    + assert (earlier cand p = p) as ->.
      { unfold earlier. by rewrite (proj2 (Z.ltb_lt _ _) Hlt). }
      pose proof (IH p) as IHp. cbv zeta in IHp.
      destruct IHp as [[Heq Hmin]|(j & Hj & Hlt' & Hbefore & Hmin)].
      * right. exists 0. rewrite Heq. split_and!; [done|done|..].
        -- intros j' q Hj'. lia.
        -- intros [|j'] q Hq; simplify_eq/=; [lia|]. by eapply Hmin.
      * right. exists (S j). split_and!; [done|lia|..].
        -- intros [|j'] q Hj' Hq; simplify_eq/=; [lia|].
           eapply Hbefore; [|done]. lia.
        -- intros [|j'] q Hq; simplify_eq/=; [lia|]. by eapply Hmin.
    + assert (earlier cand p = cand) as ->.
      { unfold earlier. by rewrite (proj2 (Z.ltb_ge _ _) Hge). }
      pose proof (IH cand) as IHc. cbv zeta in IHc.
      destruct IHc as [[Heq Hmin]|(j & Hj & Hlt' & Hbefore & Hmin)].
      * left. split; [done|].
        intros [|j'] q Hq; simplify_eq/=; [lia|]. by eapply Hmin.
      * right. exists (S j). split_and!; [done|lia|..].
        -- intros [|j'] q Hj' Hq; simplify_eq/=; [lia|].
           eapply Hbefore; [|done]. lia.
        -- intros [|j'] q Hq; simplify_eq/=; [lia|]. by eapply Hmin.
Qed.

(** [nextHost] is the member of least [joinedAt]; among several of them,
    the one that comes first in the array. *)
Lemma nextHost_spec ms :
  ms ≠ [] →
  ∃ k m, nextHost ms = Some (k, m)
    ∧ ms !! k = Some m
    ∧ (∀ j m', ms !! j = Some m' → (joinedAt m ≤ joinedAt m')%Z)
    ∧ (∀ j m', j < k → ms !! j = Some m' →
               (joinedAt m < joinedAt m')%Z).
Proof.
  destruct ms as [|seed ms']; [done|]. intros _.
  change (nextHost (seed :: ms'))
    with (Some (fold_left earlier (imap pair (seed :: ms')) (0, seed))).
  pose proof (fold_earlier (imap pair (seed :: ms')) (0, seed)) as Hfold.
  cbv zeta in Hfold.
  assert ((seed :: ms') !! 0 = Some seed) as Hseed by done.
  remember (seed :: ms') as ms eqn:Hms. clear Hms.
  destruct Hfold as [[Heq Hmin]|(j & Hj & Hlt & Hbefore & Hmin)].
  - exists 0, seed. rewrite Heq. split_and!; [done|done|..].
    + intros j m' Hj. apply (Hmin j (j, m')).
      by rewrite list_lookup_imap, Hj.
    + intros j m' Hlt. lia.
  - destruct (fold_left earlier (imap pair ms) (0, seed)) as [k m].
    rewrite list_lookup_imap in Hj.
    destruct (ms !! j) as [m0|] eqn:Hm0; simplify_eq/=.
    eexists _, _. split_and!; [done|eassumption|..].
    + intros j' m' Hj'. apply (Hmin j' (j', m')).
      by rewrite list_lookup_imap, Hj'.
    + intros j' m' Hlt' Hj'. apply (Hbefore j' (j', m')); [done|].
      by rewrite list_lookup_imap, Hj'.
Qed.
End Succession.

(** ** What holds of every room of a reachable store *)

Section Preservation.
Implicit Types (st : RoomStore) (c : string) (r room : Room).

Lemma store_ok_getRoom st c r : store_ok st → getRoom st c = Some r → room_ok r.
Proof.
  intros Hok Hget. apply getRoom_Some in Hget.
  unfold store_ok in Hok. rewrite Forall_forall in Hok.
  apply (Hok _ Hget).
Qed.

Lemma store_ok_update_room st c (f : Room → Room) :
  store_ok st →
  (∀ r, getRoom st c = Some r → room_ok r → room_ok (f r)) →
  store_ok (update_room c f st).
Proof.
  intros Hok Hf. unfold update_room.
  destruct (list_find _ _) as [[i [k r]]|] eqn:Hfind; [|done].
  unfold store_ok. simpl. apply Forall_alter; [done|].
  intros [k' r'] Hi Hr'. simpl in *.
  apply Hf; [|done]. unfold getRoom. rewrite Hfind. simpl.
  apply list_find_Some in Hfind as (Hi' & _ & _). congruence.
Qed.

Lemma room_ok_set_lastActive t r : room_ok r → room_ok (set_lastActive t r).
Proof. by intros []. Qed.

Lemma room_ok_set_members ms r :
  at_most_one_host ms → room_ok r → room_ok (set_members ms r).
Proof. by intros ? []. Qed.

Lemma room_ok_set_history h r :
  length h ≤ 5000 → room_ok r → room_ok (set_history h r).
Proof. by intros ? []. Qed.

Lemma room_ok_set_canvasData d r :
  d ≠ Some ""%string → room_ok r → room_ok (set_canvasData d r).
Proof. by intros ? []. Qed.

Lemma first_free_code_free st draws c :
  first_free_code st draws = Some c → getRoom st c = None.
Proof.
  induction draws as [|d draws IH]; simpl; [done|].
  unfold has. case_bool_decide as Hd; [done|].
  intros [= ->]. by apply eq_None_not_Some.
Qed.

Lemma getRoom_new st c r :
  getRoom st c = None →
  getRoom {| rooms := rooms st ++ [(c, r)] |} c = Some r.
Proof.
  unfold getRoom. simpl. intros Hnone.
  destruct (list_find (λ kv : string * Room, kv.1 = c) (rooms st))
    as [[i [k r']]|] eqn:Hfind; [done|].
  rewrite list_find_app_r by done. simpl. by rewrite decide_True.
Qed.

Lemma getRoom_new_ne st c c' r :
  c ≠ c' →
  getRoom {| rooms := rooms st ++ [(c, r)] |} c' = getRoom st c'.
Proof.
  unfold getRoom. simpl. intros Hne.
  destruct (list_find (λ kv : string * Room, kv.1 = c') (rooms st))
    as [[i [k r']]|] eqn:Hfind.
  - by rewrite (list_find_app_l _ _ _ _ _ Hfind).
  - rewrite list_find_app_r by done. simpl. by rewrite decide_False.
Qed.

Lemma createRoom_ok now draws hash st st' room :
  store_ok st →
  createRoom now draws hash st = Some (st', room) →
  store_ok st' ∧ getRoom st' (code room) = Some room ∧ members room = [].
Proof.
  unfold createRoom. intros Hok.
  destruct (first_free_code st draws) as [c|] eqn:Hfree; [|done].
  intros [= <- <-]. simpl. split_and!; [|..|done].
  - apply Forall_app_2; [done|]. apply Forall_singleton.
    split; simpl; [unfold at_most_one_host; simpl; lia|lia|done].
  - by apply getRoom_new, first_free_code_free with draws.
Qed.

Lemma upsertMember_ok now uuid c payload st :
  store_ok st →
  (p_isHost payload = Some true →
   ∀ r, getRoom st c = Some r → members r = []) →
  store_ok (upsertMember now uuid c payload st).1.
Proof.
  intros Hok Hfresh. unfold upsertMember.
  destruct (getRoom st c) as [room|] eqn:Hroom; [|done].
  destruct (list_find _ (members room)) as [[i bySocket]|] eqn:Hfind; simpl.
  - apply list_find_Some in Hfind as (Hi & _ & _).
    apply store_ok_update_room; [done|].
    intros r Hr Hrok. rewrite Hroom in Hr. injection Hr as ->.
    apply room_ok_set_lastActive, room_ok_set_members; [|done].
    destruct Hrok as [Hhosts _ _]. unfold at_most_one_host in *.
    destruct (p_isHost payload) as [[]|] eqn:Hp; simpl.
    { rewrite (Hfresh eq_refl r eq_refl) in Hi. done. }
    all: match goal with
         | Hi : ?ms !! ?i = Some ?m |- context [<[?i := ?m']> ?ms] =>
             pose proof (hosts_length_insert ms i m m' Hi) as Hlen;
             simpl in Hlen; destruct (isHost m); lia
         end.
  - apply store_ok_update_room; [done|].
    intros r Hr Hrok. rewrite Hroom in Hr. injection Hr as ->.
    apply room_ok_set_lastActive, room_ok_set_members; [|done].
    destruct Hrok as [Hhosts _ _]. unfold at_most_one_host in *.
    rewrite hosts_app, length_app. cbn [hosts]. rewrite hosts_cons.
    simpl.
    destruct (p_isHost payload) as [[]|] eqn:Hp; simpl in *.
    + rewrite (Hfresh eq_refl r eq_refl). simpl. lia.
    + lia.
    + destruct (existsb isHost (members r)) eqn:Hex; simpl; [lia|].
      assert (hosts (members r) = []) as ->; [|simpl; lia].
      apply hosts_nil_iff. intros j m Hj.
      destruct (isHost m) eqn:Hm; [|done].
      assert (existsb isHost (members r) = true); [|congruence].
      apply existsb_exists. exists m. split; [|done].
      apply list_elem_of_In. by eapply list_elem_of_lookup_2.
Qed.
Lemma promote_next_host_spec (rest : list Member) :
  rest ≠ [] →
  ∃ k m, rest !! k = Some m
    ∧ (∀ j m', rest !! j = Some m' → (joinedAt m ≤ joinedAt m')%Z)
    ∧ (∀ j m', j < k → rest !! j = Some m' →
               (joinedAt m < joinedAt m')%Z)
    ∧ promote_next_host rest = <[k := set_isHost true m]> rest.
Proof.
  intros Hne.
  destruct (nextHost_spec rest Hne) as (k & m & Hnext & Hk & Hmin & Hfirst).
  exists k, m. split_and!; [done..|].
  unfold promote_next_host. rewrite Hnext. by apply alter_as_insert.
Qed.

Lemma promote_next_host_hosts (rest : list Member) :
  length (hosts (promote_next_host rest)) ≤ S (length (hosts rest)).
Proof.
  destruct rest as [|m0 rest'] eqn:Hrest; [cbn; lia|]. rewrite <- Hrest.
  destruct (promote_next_host_spec rest) as (k & m & Hk & _ & _ & ->);
    [by rewrite Hrest|].
  pose proof (hosts_length_insert rest k m (set_isHost true m) Hk) as Hlen.
  simpl in Hlen. destruct (isHost m); lia.
Qed.

Lemma removeMemberBySocketId_ok now c sid st :
  store_ok st → store_ok (removeMemberBySocketId now c sid st).1.
Proof.
  intros Hok. unfold removeMemberBySocketId.
  destruct (getRoom st c) as [room|] eqn:Hroom; [|done].
  destruct (list_find _ (members room)) as [[index removed]|] eqn:Hfind;
    [|done].
  simpl. apply list_find_Some in Hfind as (Hi & _ & _).
  apply store_ok_update_room; [done|].
  intros r Hr Hrok. rewrite Hroom in Hr. injection Hr as ->.
  apply room_ok_set_lastActive, room_ok_set_members; [|done].
  destruct Hrok as [Hhosts _ _]. unfold at_most_one_host in *.
  pose proof (hosts_length_delete (members r) index removed Hi) as Hdel.
  destruct (isHost removed); simpl.
  - destruct (0 <? length (delete index (members r))); [|lia].
    pose proof (promote_next_host_hosts (delete index (members r))). lia.
  - lia.
Qed.

Lemma push_capped_length normalized (h : list Stroke) :
  length h ≤ 5000 → length (push_capped normalized h) ≤ 5000.
Proof.
  intros Hh. unfold push_capped.
  destruct (Nat.ltb_spec 5000 (length (h ++ [normalized]))) as [Hlt|Hle];
    [|done].
  rewrite length_app in Hlt. simpl in Hlt.
  destruct h as [|s0 h']; simpl in *; [lia|].
  rewrite length_app. simpl. lia.
Qed.

Context `{Bcrypt}.

Lemma on_create_room_ok sock o password profile st st' out :
  store_ok st →
  on_create_room sock o password profile st = Some (st', out) →
  store_ok st'.
Proof.
  intros Hok. unfold on_create_room.
  destruct (createRoom _ _ _ st) as [[st1 room]|] eqn:Hcreate; [|done].
  apply createRoom_ok in Hcreate as (Hok1 & Hget & Hempty); [|done].
  destruct (upsertMember _ _ _ _ st1) as [st2 member] eqn:Hup.
  intros [= <- <-].
  change st2 with (st2, member).1. rewrite <- Hup.
  apply upsertMember_ok; [done|].
  intros _ r Hr. congruence.
Qed.

Lemma on_join_room_ok sock o c password profile st :
  store_ok st → store_ok (on_join_room sock o c password profile st).1.
Proof.
  intros Hok. unfold on_join_room.
  destruct (getRoom st c) as [room|]; [|done].
  destruct (password_rejected room password); [done|].
  destruct (upsertMember _ _ _ _ st) as [st1 member] eqn:Hup. simpl.
  change st1 with (st1, member).1. rewrite <- Hup.
  by apply upsertMember_ok.
Qed.

Lemma lookup_room_Some st v c room :
  lookup_room st v = Some (c, room) →
  v = JsString c ∧ getRoom st c = Some room.
Proof.
  destruct v; simpl; try done.
  destruct (getRoom st s) eqn:Hget; simpl; [|done].
  by intros [= <- <-].
Qed.

Lemma on_stroke_ok o codeParam roomCode stroke st :
  store_ok st → store_ok (on_stroke o codeParam roomCode stroke st).1.
Proof.
  intros Hok. unfold on_stroke.
  destruct (negb (truthy _)); [done|].
  destruct (lookup_room st _) as [[c room]|]; [|done].
  destruct (negb (isValidStroke stroke)); [done|]. simpl.
  apply store_ok_update_room; [done|].
  intros r _ Hr.
  apply room_ok_set_lastActive, room_ok_set_history; [|done].
  apply push_capped_length, Hr.
Qed.

Lemma on_undo_ok o codeParam roomCode strokeId st :
  store_ok st → store_ok (on_undo o codeParam roomCode strokeId st).1.
Proof.
  intros Hok. unfold on_undo.
  destruct strokeId as [| | | |strokeId| |]; try done.
  destruct (negb (truthy _)); [done|].
  destruct (lookup_room st _) as [[c room]|]; [|done].
  destruct (list_find _ (history room)) as [[index entry]|]; [|done].
  simpl. apply store_ok_update_room; [done|].
  intros r _ Hr.
  assert (room_ok (set_lastActive (now o)
                     (set_history (delete index (history r)) r))) as Hr'.
  { apply room_ok_set_lastActive, room_ok_set_history; [|done].
    destruct Hr as [_ Hh _].
    rewrite delete_take_drop, length_app, length_take, length_drop. lia. }
  simpl. destruct (canvasData r) as [data|]; [|done].
  destruct (startsWith "{" (trim data)); [|done].
  by apply room_ok_set_canvasData.
Qed.

Lemma on_request_snapshot_state codeParam roomCode st :
  (on_request_snapshot codeParam roomCode st).1 = st.
Proof.
  unfold on_request_snapshot.
  by destruct (lookup_room st _) as [[c room]|].
Qed.

Lemma on_save_snapshot_ok o codeParam roomCode snapshot st :
  store_ok st →
  store_ok (on_save_snapshot o codeParam roomCode snapshot st).1.
Proof.
  intros Hok. unfold on_save_snapshot.
  destruct (lookup_room st _) as [[c room]|]; [|done].
  destruct snapshot as [| | | |snapshot| |]; try done.
  destruct (startsWith "{" (trim snapshot)
            || startsWith "data:image/" (trim snapshot)) eqn:Hstart;
    [|done].
  simpl. apply store_ok_update_room; [done|].
  intros r _ Hr.
  apply room_ok_set_lastActive, room_ok_set_canvasData; [|done].
  intros [= Hempty]. rewrite Hempty in Hstart. done.
Qed.

Lemma on_disconnect_ok sock o st :
  store_ok st → store_ok (on_disconnect sock o st).1.
Proof.
  unfold on_disconnect. generalize (listRooms st).
  generalize (@nil Effect). intros out entries. revert st out.
  induction entries as [|entry entries IH]; intros st out Hok; [done|].
  simpl. unfold leave_room at 2. simpl.
  pose proof (removeMemberBySocketId_ok (now o) entry.1 sock st Hok) as Hok'.
  destruct (removeMemberBySocketId _ _ _ st) as [st1 [removed|]];
    by apply IH.
Qed.

Lemma cleanupInactiveRooms_ok now timeoutMs st :
  store_ok st → store_ok (cleanupInactiveRooms now timeoutMs st).
Proof.
  unfold store_ok, cleanupInactiveRooms. simpl. rewrite !Forall_forall.
  intros Hok kv Hin. apply list_elem_of_filter in Hin as [_ Hin]. auto.
Qed.

Lemma step_ok s st st' out :
  store_ok st → step s st = Some (st', out) → store_ok st'.
Proof.
  intros Hok. destruct s as [sock o ev|o|o]; simpl.
  - destruct ev; simpl; [by apply on_create_room_ok|..];
      intros [= Heq]; change st' with (st', out).1; rewrite <- Heq.
    + by apply on_join_room_ok.
    + by apply on_stroke_ok.
    + by apply on_undo_ok.
    + by rewrite on_request_snapshot_state.
    + by apply on_save_snapshot_ok.
    + by apply on_disconnect_ok.
  - destruct (createRoom _ _ _ st) as [[st1 room]|] eqn:Hcreate; [|done].
    simpl. intros [= <- <-].
    by apply createRoom_ok in Hcreate as (? & _ & _).
  - intros [= <- <-]. by apply cleanupInactiveRooms_ok.
Qed.

Lemma reachable_store_ok st : reachable st → store_ok st.
Proof.
  induction 1 as [|s st st' out _ IH Hstep].
  - constructor.
  - by eapply step_ok.
Qed.
End Preservation.

(** ** The claims *)

(** *** Membership and hosts *)

(** Every room of a reachable store has at most one host. *)
Lemma reachable_at_most_one_host `{Bcrypt} st c r :
  reachable st → getRoom st c = Some r → at_most_one_host (members r).
Proof.
  intros Hreach Hget.
  by destruct (store_ok_getRoom st c r (reachable_store_ok st Hreach) Hget).
Qed.

(** C1: the single-host property fails after [create-room], [disconnect]
    and [join-room]: the run returns, and room [k3x9qz] then has one member
    and no host.  The member that [join-room] added carries the flag
    [isHost: false] the handler passed. *)
Theorem join_of_emptied_room_has_no_host :
  ∃ st outs r,
    run (H := plain_bcrypt) rejoin_after_empty empty_store = Some (st, outs)
    ∧ getRoom st "k3x9qz" = Some r
    ∧ length (members r) = 1
    ∧ hosts (members r) = []
    ∧ ¬ exactly_one_host (members r).
Proof.
  eexists _, _, _. split_and!.
  - vm_compute. reflexivity.
  - vm_compute. reflexivity.
  - reflexivity.
  - reflexivity.
  - unfold exactly_one_host. vm_compute. discriminate.
Qed.

(** C2, as stated, fails in both directions, because a flag passed by the
    caller wins over the no-host rule.  Called on the emptied room with the
    flag [false] (the call [join-room] makes), [upsertMember] creates a
    member that is not host although no existing member is host; called
    with the flag [true] on a room that has a host, it creates a second
    host. *)
Lemma upsertMember_host_iff_no_host_counterexample :
  (∃ room m,
     getRoom emptied_store "k3x9qz" = Some room
     ∧ list_find (λ member, socketId member = "sock-B"%string)
         (members room) = None
     ∧ (upsertMember 3000 "member-B" "k3x9qz"
          {| p_socketId := "sock-B"; p_clientId := "client-0001";
             p_displayName := "Agile Artist"; p_avatar := "A";
             p_isHost := Some false |} emptied_store).2 = Some m
     ∧ ¬ (isHost m = true ↔ hosts (members room) = []))
  ∧ (∃ room m,
       getRoom crowded_store "k3x9qz" = Some room
       ∧ list_find (λ member, socketId member = "sock-D"%string)
           (members room) = None
       ∧ (upsertMember 3000 "member-D" "k3x9qz"
            {| p_socketId := "sock-D"; p_clientId := "client-0001";
               p_displayName := "Agile Artist"; p_avatar := "A";
               p_isHost := Some true |} crowded_store).2 = Some m
       ∧ ¬ (isHost m = true ↔ hosts (members room) = [])).
Proof.
  split.
  - eexists _, _. split_and!.
    + vm_compute. reflexivity.
    + reflexivity.
    + vm_compute. reflexivity.
    + simpl. intros [_ Hhost]. specialize (Hhost eq_refl). discriminate.
  - eexists _, _. split_and!.
    + reflexivity.
    + reflexivity.
    + reflexivity.
    + simpl. intros [Hnone _]. specialize (Hnone eq_refl). discriminate.
Qed.

(** C2, amended: a member that [upsertMember] creates is appended to the
    room; its [isHost] is the flag of the caller when the caller passes one,
    and without a flag it is true exactly when no existing member is host. *)
Theorem upsertMember_new_member_host now uuid c payload st room :
  getRoom st c = Some room →
  list_find (λ member, socketId member = p_socketId payload) (members room)
  = None →
  ∃ m room',
    (upsertMember now uuid c payload st).2 = Some m
    ∧ getRoom (upsertMember now uuid c payload st).1 c = Some room'
    ∧ members room' = members room ++ [m]
    ∧ match p_isHost payload with
      | Some flag => isHost m = flag
      | None => isHost m = true ↔ hosts (members room) = []
      end.
Proof.
  intros Hroom Hfind. unfold upsertMember. rewrite Hroom, Hfind. simpl.
  eexists _, _. split; [done|]. split.
  { rewrite getRoom_update_room, decide_True, Hroom by done. reflexivity. }
  split; [reflexivity|].
  - simpl. destruct (p_isHost payload) as [flag|]; [done|].
    rewrite negb_true_iff, hosts_nil_iff. split.
    + intros Hex j m Hj. destruct (isHost m) eqn:Hm; [|done].
      assert (existsb isHost (members room) = true); [|congruence].
      apply existsb_exists. exists m. split; [|done].
      apply list_elem_of_In. by eapply list_elem_of_lookup_2.
    + intros Hall. destruct (existsb isHost (members room)) eqn:Hex; [|done].
      apply existsb_exists in Hex as (m & Hin & Hm).
      apply list_elem_of_In, list_elem_of_lookup in Hin as [j Hj].
      rewrite (Hall j m Hj) in Hm. done.
Qed.

Lemma upsertMember_new_member_host_witness :
  ∃ m room',
    (upsertMember 3000 "member-B" "k3x9qz"
       {| p_socketId := "sock-B"; p_clientId := "client-0001";
          p_displayName := "Agile Artist"; p_avatar := "A";
          p_isHost := None |} emptied_store).2 = Some m
    ∧ getRoom (upsertMember 3000 "member-B" "k3x9qz"
                 {| p_socketId := "sock-B"; p_clientId := "client-0001";
                    p_displayName := "Agile Artist"; p_avatar := "A";
                    p_isHost := None |} emptied_store).1 "k3x9qz"
      = Some room'
    ∧ members room' = [] ++ [m]
    ∧ (isHost m = true ↔ hosts [] = []).
Proof.
  apply (upsertMember_new_member_host 3000 "member-B" "k3x9qz"
           {| p_socketId := "sock-B"; p_clientId := "client-0001";
              p_displayName := "Agile Artist"; p_avatar := "A";
              p_isHost := None |} emptied_store
           {| code := "k3x9qz"; passwordHash := None; members := [];
              createdAt := 1000; lastActive := 2000; history := [];
              canvasData := None; diagramData := None |}).
  - vm_compute. reflexivity.
  - reflexivity.
Defined.

(** C10: for a code that names no room, [getMembersSnapshot] is the empty
    array, and [emitMembers] broadcasts an empty member list. *)
Theorem getMembersSnapshot_no_room (st : RoomStore) (c : string) :
  getRoom st c = None →
  getMembersSnapshot st c = []
  ∧ emitMembers st c = [io_to_emit c (room_members [])].
Proof.
  intros Hnone. unfold emitMembers, getMembersSnapshot.
  by rewrite Hnone.
Qed.

Lemma getMembersSnapshot_no_room_witness :
  getMembersSnapshot emptied_store "zzzzzz" = []
  ∧ emitMembers emptied_store "zzzzzz"
    = [io_to_emit "zzzzzz" (room_members [])].
Proof.
  apply (getMembersSnapshot_no_room emptied_store "zzzzzz").
  vm_compute. reflexivity.
Defined.

(** *** Joining *)

(** C8: [join-room] on a code with no room answers "Room not found"; on a
    room with a password hash that the supplied password (the empty string
    when left out) does not verify against, it answers "Invalid password".
    In both cases the store is the one before the call and the answer is
    the only effect: no member is upserted, nothing is broadcast. *)
Theorem join_room_failures `{Bcrypt} sock o c password profile st :
  (getRoom st c = None →
   handle sock o (join_room c password profile) st
   = Some (st, [callback (ack_failure "Room not found")]))
  ∧ (∀ room h,
       getRoom st c = Some room →
       passwordHash room = Some h → h ≠ ""%string →
       bcrypt_compare (supplied password) h = false →
       handle sock o (join_room c password profile) st
       = Some (st, [callback (ack_failure "Invalid password")])).
Proof.
  split.
  - intros Hnone. simpl. unfold on_join_room. by rewrite Hnone.
  - intros room h Hroom Hhash Hne Hcmp. simpl.
    unfold on_join_room, password_rejected.
    rewrite Hroom, Hhash, Hcmp.
    by rewrite (proj2 (String.eqb_neq h "") Hne).
Qed.

Lemma join_room_failures_witness :
  handle (H := plain_bcrypt) "sock-B" (oracle_at 3000 "" "member-B")
    (join_room "ZZZZZZ" (Some "secret"%string) None) guarded_store
  = Some (guarded_store, [callback (ack_failure "Room not found")])
  ∧ handle (H := plain_bcrypt) "sock-B" (oracle_at 3000 "" "member-B")
      (join_room "k3x9qz" (Some "wrong"%string) None) guarded_store
    = Some (guarded_store, [callback (ack_failure "Invalid password")])
  ∧ handle (H := plain_bcrypt) "sock-B" (oracle_at 3000 "" "member-B")
      (join_room "k3x9qz" None None) guarded_store
    = Some (guarded_store, [callback (ack_failure "Invalid password")]).
Proof.
  split_and!.
  - apply (join_room_failures (H := plain_bcrypt)). vm_compute. reflexivity.
  - eapply (join_room_failures (H := plain_bcrypt)
              "sock-B" _ "k3x9qz" (Some "wrong"%string) None guarded_store).
    + vm_compute. reflexivity.
    + reflexivity.
    + discriminate.
    + vm_compute. reflexivity.
  - eapply (join_room_failures (H := plain_bcrypt)
              "sock-B" _ "k3x9qz" None None guarded_store).
    + vm_compute. reflexivity.
    + reflexivity.
    + discriminate.
    + vm_compute. reflexivity.
Defined.

(** *** Undo *)

(** C3, as stated, fails: an undo of an id that the history of the room
    does not hold leaves the store alone and emits nothing, so the
    [canvas:undo] broadcast is not among its effects. *)
Lemma undo_unknown_id_broadcast_counterexample :
  ∃ room out,
    getRoom drawn_store "k3x9qz" = Some room
    ∧ (∀ entry, entry ∈ history room → id entry ≠ "s2"%string)
    ∧ handle (H := plain_bcrypt) "sock-A" (oracle_at 1600 "" "")
        (undo_event (JsString "k3x9qz") JsUndefined (JsString "s2"))
        drawn_store = Some (drawn_store, out)
    ∧ io_to_emit "k3x9qz" (canvas_undo "s2") ∉ out.
Proof.
  eexists _, _. split_and!.
  - vm_compute. reflexivity.
  - intros entry Hin. apply list_elem_of_singleton in Hin as ->. done.
  - vm_compute. reflexivity.
  - apply not_elem_of_nil.
Qed.

(** C3, amended: an undo event on an existing room whose [strokeId] is a
    string that is the id of no history entry changes nothing in the store
    and has no effect at all: the handler returns before the broadcast. *)
Theorem undo_unknown_id_is_silent `{Bcrypt} sock o codeParam roomCode
    (strokeId : string) st c room :
  lookup_room st (js_or codeParam roomCode) = Some (c, room) →
  (∀ entry, entry ∈ history room → id entry ≠ strokeId) →
  handle sock o (undo_event codeParam roomCode (JsString strokeId)) st
  = Some (st, []).
Proof.
  intros Hroom Hfresh. simpl. unfold on_undo. rewrite Hroom.
  destruct (negb (truthy _)); [done|].
  destruct (list_find _ (history room)) as [[index entry]|] eqn:Hfind;
    [|done].
  apply list_find_Some in Hfind as (Hi & Hid & _).
  exfalso. eapply Hfresh; [|done]. by eapply list_elem_of_lookup_2.
Qed.

Lemma undo_unknown_id_is_silent_witness :
  handle (H := plain_bcrypt) "sock-A" (oracle_at 1600 "" "")
    (undo_event (JsString "k3x9qz") JsUndefined (JsString "s2")) drawn_store
  = Some (drawn_store, []).
Proof.
  eapply (undo_unknown_id_is_silent (H := plain_bcrypt) "sock-A"
            (oracle_at 1600 "" "") (JsString "k3x9qz") JsUndefined "s2"
            drawn_store "k3x9qz").
  - vm_compute. reflexivity.
  - intros entry Hin. apply list_elem_of_singleton in Hin as ->. done.
Defined.

(** *** Strokes *)

Lemma run_reachable `{Bcrypt} evs st st' outs :
  reachable st → run evs st = Some (st', outs) → reachable st'.
Proof.
  revert st st' outs.
  induction evs as [|[[sock o] ev] evs IH]; intros st st' outs Hreach; simpl.
  - by intros [= <- <-].
  - destruct (handle sock o ev st) as [[st1 out]|] eqn:Hstep; [|done].
    destruct (run evs st1) as [[st2 outs']|] eqn:Hrun; [|done].
    intros [= <- <-]. eapply IH; [|done].
    by apply (reachable_step (socket_event sock o ev) st st1 out).
Qed.

Lemma on_stroke_accepts `{Bcrypt} o codeParam roomCode stroke st c room :
  truthy (js_or codeParam roomCode) = true →
  lookup_room st (js_or codeParam roomCode) = Some (c, room) →
  isValidStroke stroke = true →
  ∃ st' room',
    on_stroke o codeParam roomCode stroke st
    = (st', [io_to_emit c (canvas_stroke (normalize o stroke))])
    ∧ getRoom st' c = Some room'
    ∧ history room' = push_capped (normalize o stroke) (history room)
    ∧ members room' = members room
    ∧ canvasData room' = canvasData room.
Proof.
  intros Hcode Hroom Hvalid. unfold on_stroke.
  rewrite Hcode, Hroom, Hvalid. simpl.
  apply lookup_room_Some in Hroom as [_ Hget].
  eexists _, _. split; [reflexivity|].
  rewrite getRoom_update_room, decide_True, Hget by done. done.
Qed.

(** C4, as stated, fails: a stroke with an empty [points] array is appended
    to the history and broadcast. *)
Lemma stroke_without_points_counterexample :
  let stroke :=
    JsObject [("id"%string, JsString "s2");
              ("color"%string, JsString "#fff");
              ("width"%string, JsNumber 4);
              ("points"%string, JsArray [])] in
  ∃ room st' room' normalized,
    getRoom drawn_store "k3x9qz" = Some room
    ∧ get stroke "points" = JsArray []
    ∧ handle (H := plain_bcrypt) "sock-A" (oracle_at 1600 "" "")
        (stroke_event (JsString "k3x9qz") JsUndefined stroke) drawn_store
      = Some (st', [io_to_emit "k3x9qz" (canvas_stroke normalized)])
    ∧ getRoom st' "k3x9qz" = Some room'
    ∧ history room' = history room ++ [normalized]
    ∧ history room' ≠ history room.
Proof.
  eexists _, _, _, _. split_and!.
  - vm_compute. reflexivity.
  - reflexivity.
  - vm_compute. reflexivity.
  - vm_compute. reflexivity.
  - reflexivity.
  - discriminate.
Qed.

(** C4, amended: a stroke event on an existing room whose payload has a
    string [color], a numeric [width] or [size] and an empty [points] array
    passes validation: its normal form, with no point, is appended to the
    history of the room and broadcast to the room. *)
Theorem stroke_without_points_is_accepted `{Bcrypt} sock o codeParam roomCode
    stroke st c room :
  truthy (js_or codeParam roomCode) = true →
  lookup_room st (js_or codeParam roomCode) = Some (c, room) →
  get stroke "points" = JsArray [] →
  typeof_string (get stroke "color") = true →
  typeof_number (get stroke "width") || typeof_number (get stroke "size")
  = true →
  ∃ st' room',
    handle sock o (stroke_event codeParam roomCode stroke) st
    = Some (st', [io_to_emit c (canvas_stroke (normalize o stroke))])
    ∧ points (normalize o stroke) = []
    ∧ getRoom st' c = Some room'
    ∧ history room' = push_capped (normalize o stroke) (history room).
Proof.
  intros Hcode Hroom Hpoints Hcolor Hwidth.
  assert (isValidStroke stroke = true) as Hvalid.
  { unfold isValidStroke. rewrite Hpoints, Hcolor. simpl.
    destruct stroke; try done. simpl.
    by destruct (typeof_number _), (typeof_number _). }
  destruct (on_stroke_accepts o codeParam roomCode stroke st c room)
    as (st' & room' & Hstep & Hget & Hhist & _); [done..|].
  exists st', room'. simpl. rewrite Hstep. split_and!; [done| |done|done].
  unfold normalize. simpl. by rewrite Hpoints.
Qed.

Lemma stroke_without_points_is_accepted_witness :
  let stroke :=
    JsObject [("id"%string, JsString "s2");
              ("color"%string, JsString "#fff");
              ("width"%string, JsNumber 4);
              ("points"%string, JsArray [])] in
  ∃ st' room',
    handle (H := plain_bcrypt) "sock-A" (oracle_at 1600 "" "")
      (stroke_event (JsString "k3x9qz") JsUndefined stroke) drawn_store
    = Some (st', [io_to_emit "k3x9qz"
                    (canvas_stroke (normalize (oracle_at 1600 "" "") stroke))])
    ∧ points (normalize (oracle_at 1600 "" "") stroke) = []
    ∧ getRoom st' "k3x9qz" = Some room'
    ∧ history room'
      = push_capped (normalize (oracle_at 1600 "" "") stroke)
          [normalize (oracle_at 1500 "" "") stroke_s1].
Proof.
  intros stroke.
  eapply (stroke_without_points_is_accepted (H := plain_bcrypt) "sock-A"
            (oracle_at 1600 "" "") (JsString "k3x9qz") JsUndefined stroke
            drawn_store "k3x9qz"
            {| code := "k3x9qz"; passwordHash := None;
               members := _; createdAt := 1000; lastActive := 1500;
               history := [normalize (oracle_at 1500 "" "") stroke_s1];
               canvasData := None; diagramData := None |}).
  - reflexivity.
  - vm_compute. reflexivity.
  - reflexivity.
  - reflexivity.
  - reflexivity.
Defined.

Lemma push_capped_full normalized (h : list Stroke) :
  length h = 5000 →
  ∃ oldest rest,
    h = oldest :: rest ∧ push_capped normalized h = rest ++ [normalized].
Proof.
  intros Hlen. destruct h as [|oldest rest]; [done|].
  exists oldest, rest. split; [done|]. unfold push_capped.
  rewrite (proj2 (Nat.ltb_lt 5000 (length ((oldest :: rest) ++ [normalized]))));
    [done|].
  rewrite length_app, Hlen. simpl. lia.
Qed.

(** C5: in every reachable store the history of every room holds at most
    5000 strokes; and a stroke accepted into a history of 5000 entries
    evicts the oldest entry, [history[0]], and is kept at the end. *)
Theorem history_is_capped `{Bcrypt} :
  (∀ st c room,
     reachable st → getRoom st c = Some room →
     length (history room) ≤ 5000)
  ∧ (∀ sock o codeParam roomCode stroke st c room,
       truthy (js_or codeParam roomCode) = true →
       lookup_room st (js_or codeParam roomCode) = Some (c, room) →
       isValidStroke stroke = true →
       length (history room) = 5000 →
       ∃ st' room' oldest rest,
         handle sock o (stroke_event codeParam roomCode stroke) st
         = Some (st', [io_to_emit c (canvas_stroke (normalize o stroke))])
         ∧ getRoom st' c = Some room'
         ∧ history room = oldest :: rest
         ∧ history room' = rest ++ [normalize o stroke]
         ∧ length (history room') = 5000).
Proof.
  split.
  - intros st c room Hreach Hget.
    by destruct (store_ok_getRoom st c room (reachable_store_ok st Hreach) Hget).
  - intros sock o codeParam roomCode stroke st c room Hcode Hroom Hvalid Hlen.
    destruct (on_stroke_accepts o codeParam roomCode stroke st c room)
      as (st' & room' & Hstep & Hget & Hhist & _); [done..|].
    destruct (push_capped_full (normalize o stroke) (history room) Hlen)
      as (oldest & rest & Hh & Hpush).
    exists st', room', oldest, rest. simpl. rewrite Hstep.
    split_and!; [done|done|done|congruence|].
    rewrite Hhist, Hpush, length_app. rewrite Hh in Hlen. simpl in *. lia.
Qed.

Lemma drawn_store_reachable : reachable (H := plain_bcrypt) drawn_store.
Proof.
  eapply (run_reachable (H := plain_bcrypt) create_and_draw empty_store);
    [apply reachable_start|].
  vm_compute. reflexivity.
Qed.

Lemma history_is_capped_witness :
  (∃ room,
     getRoom drawn_store "k3x9qz" = Some room
     ∧ length (history room) ≤ 5000)
  ∧ (∃ st' room' oldest rest,
       handle (H := plain_bcrypt) "sock-A" (oracle_at 1600 "" "")
         (stroke_event (JsString "k3x9qz") JsUndefined stroke_s1) full_store
       = Some (st', [io_to_emit "k3x9qz"
                       (canvas_stroke
                          (normalize (oracle_at 1600 "" "") stroke_s1))])
       ∧ getRoom st' "k3x9qz" = Some room'
       ∧ replicate 5000 (normalize (oracle_at 1500 "" "") stroke_s1)
         = oldest :: rest
       ∧ history room'
         = rest ++ [normalize (oracle_at 1600 "" "") stroke_s1]
       ∧ length (history room') = 5000).
Proof.
  destruct (history_is_capped (H := plain_bcrypt)) as [Hcap Hevict].
  split.
  - eexists. split; [vm_compute; reflexivity|].
    eapply (Hcap drawn_store "k3x9qz").
    + apply drawn_store_reachable.
    + vm_compute. reflexivity.
  - eapply (Hevict "sock-A" (oracle_at 1600 "" "") (JsString "k3x9qz")
              JsUndefined stroke_s1 full_store "k3x9qz"
              {| code := "k3x9qz"; passwordHash := None; members := [];
                 createdAt := 1000; lastActive := 1500;
                 history := replicate 5000 (normalize (oracle_at 1500 "" "")
                                              stroke_s1);
                 canvasData := None; diagramData := None |}).
    + reflexivity.
    + vm_compute. reflexivity.
    + vm_compute. reflexivity.
    + vm_compute. reflexivity.
Defined.

(** *** Host succession *)

(** C6: when [removeMemberBySocketId] removes a host and members remain,
    the member [m] at index [k] of the remaining list is promoted, where
    [m] has the least [joinedAt] of the remaining members and every member
    before index [k] joined strictly later (so among members of equal least
    [joinedAt] it is the first in list order); nothing else of the list
    changes.  When the removed member was the only host, as in every
    reachable store, the promoted member is then the one host. *)
Theorem removeMemberBySocketId_promotes now c sid st room index removed :
  getRoom st c = Some room →
  list_find (λ m, socketId m = sid) (members room) = Some (index, removed) →
  isHost removed = true →
  delete index (members room) ≠ [] →
  ∃ room' k m,
    (removeMemberBySocketId now c sid st).2 = Some removed
    ∧ getRoom (removeMemberBySocketId now c sid st).1 c = Some room'
    ∧ delete index (members room) !! k = Some m
    ∧ (∀ j m', delete index (members room) !! j = Some m' →
               (joinedAt m ≤ joinedAt m')%Z)
    ∧ (∀ j m', j < k → delete index (members room) !! j = Some m' →
               (joinedAt m < joinedAt m')%Z)
    ∧ members room' = <[k := set_isHost true m]> (delete index (members room))
    ∧ (at_most_one_host (members room) →
       ∀ j m', members room' !! j = Some m' → (isHost m' = true ↔ j = k)).
Proof.
  intros Hroom Hfind Hhost Hrest.
  destruct (promote_next_host_spec _ Hrest)
    as (k & m & Hk & Hmin & Hfirst & Hpromote).
  unfold removeMemberBySocketId. rewrite Hroom, Hfind, Hhost. simpl.
  assert ((0 <? length (delete index (members room))) = true) as ->.
  { apply Nat.ltb_lt. destruct (delete index (members room)); [done|].
    simpl. lia. }
  rewrite getRoom_update_room, decide_True, Hroom by done. simpl.
  eexists _, k, m. split_and!; [done|reflexivity|done|done|done|done|].
  simpl. rewrite Hpromote. intros Hone j m' Hj.
  apply list_find_Some in Hfind as (Hindex & _ & _).
  pose proof (hosts_length_delete (members room) index removed Hindex) as Hlen.
  rewrite Hhost in Hlen. unfold at_most_one_host in Hone.
  assert (hosts (delete index (members room)) = []) as Hnone.
  { apply length_zero_iff_nil. lia. }
  rewrite hosts_nil_iff in Hnone.
  destruct (decide (j = k)) as [->|Hne].
  - rewrite list_lookup_insert_eq in Hj by by eapply lookup_lt_Some.
    injection Hj as <-. done.
  - rewrite list_lookup_insert_ne in Hj by done.
    rewrite (Hnone j m' Hj). split; [done|]. intros ->. done.
Qed.

Lemma removeMemberBySocketId_promotes_witness :
  let rest := [member_of "member-B" "sock-B" false 2000;
               member_of "member-C" "sock-C" false 2000] in
  ∃ room' k m,
    (removeMemberBySocketId 3000 "k3x9qz" "sock-A" crowded_store).2
    = Some (member_of "member-A" "sock-A" true 1000)
    ∧ getRoom (removeMemberBySocketId 3000 "k3x9qz" "sock-A"
                 crowded_store).1 "k3x9qz" = Some room'
    ∧ rest !! k = Some m
    ∧ (∀ j m', rest !! j = Some m' → (joinedAt m ≤ joinedAt m')%Z)
    ∧ (∀ j m', j < k → rest !! j = Some m' → (joinedAt m < joinedAt m')%Z)
    ∧ members room' = <[k := set_isHost true m]> rest
    ∧ (at_most_one_host (members crowded_room) →
       ∀ j m', members room' !! j = Some m' → (isHost m' = true ↔ j = k)).
Proof.
  apply (removeMemberBySocketId_promotes 3000 "k3x9qz" "sock-A"
           crowded_store crowded_room 0
           (member_of "member-A" "sock-A" true 1000)).
  - reflexivity.
  - reflexivity.
  - reflexivity.
  - discriminate.
Defined.

(** On the tie of B and C, B, the first in list order, becomes host. *)
Example tie_promotes_first :
  members <$> getRoom (removeMemberBySocketId 3000 "k3x9qz" "sock-A"
                         crowded_store).1 "k3x9qz"
  = Some [member_of "member-B" "sock-B" true 2000;
          member_of "member-C" "sock-C" false 2000].
Proof. reflexivity. Qed.

(** *** Recovery state *)

Lemma send_recovery_state_by_priority room :
  canvasData room ≠ Some ""%string →
  send_recovery_state room = socket_emit <$> recovery_by_priority room.
Proof.
  intros Hcanvas. unfold send_recovery_state, recovery_by_priority.
  destruct (canvasData room) as [data|].
  - destruct (String.eqb_spec data ""); [congruence|done].
  - unfold send_history. by destruct (history room).
Qed.

Lemma upsertMember_returns now uuid c payload st room :
  getRoom st c = Some room →
  ∃ m, (upsertMember now uuid c payload st).2 = Some m.
Proof.
  intros Hroom. unfold upsertMember. rewrite Hroom.
  destruct (list_find _ (members room)) as [[i bySocket]|]; simpl; eauto.
Qed.

(** C7: in a reachable store, [canvas:request-snapshot] on an existing room
    sends to the requesting connection the recovery state by priority, and
    nothing else; a [join-room] that passes the password gate joins the
    topic, broadcasts the members, sends to the joining connection the
    recovery state by priority, and acknowledges success.  The recovery
    state is one message at most: the snapshot and the history are never
    both sent. *)
Theorem recovery_state_by_priority `{Bcrypt} st :
  reachable st →
  (∀ sock o codeParam roomCode c room,
     lookup_room st (js_or codeParam roomCode) = Some (c, room) →
     handle sock o (request_snapshot codeParam roomCode) st
     = Some (st, socket_emit <$> recovery_by_priority room))
  ∧ (∀ sock o c password profile room,
       getRoom st c = Some room →
       password_rejected room password = false →
       ∃ st' m,
         handle sock o (join_room c password profile) st
         = Some (st',
                 [socket_join c;
                  io_to_emit c (room_members (getMembersSnapshot st' c))]
                 ++ (socket_emit <$> recovery_by_priority room)
                 ++ [callback (ack_success c (isHost m)
                                 (getMembersSnapshot st' c)
                                 (Some (toSnapshotOf m)))]))
  ∧ (∀ room, length (recovery_by_priority room) ≤ 1).
Proof.
  intros Hreach. pose proof (reachable_store_ok st Hreach) as Hok.
  split_and!.
  - intros sock o codeParam roomCode c room Hroom. simpl.
    unfold on_request_snapshot. rewrite Hroom.
    apply lookup_room_Some in Hroom as [_ Hget].
    rewrite send_recovery_state_by_priority; [done|].
    by destruct (store_ok_getRoom st c room Hok Hget).
  - intros sock o c password profile room Hget Hgate. simpl.
    unfold on_join_room. rewrite Hget, Hgate.
    match goal with
    | |- context [upsertMember ?t ?u ?k ?p st] =>
        destruct (upsertMember_returns t u k p st room Hget) as [m Hm];
        destruct (upsertMember t u k p st) as [st1 member]
    end.
    simpl in Hm. subst member. exists st1, m.
    rewrite send_recovery_state_by_priority; [done|].
    by destruct (store_ok_getRoom st c room Hok Hget).
  - intros room. unfold recovery_by_priority.
    destruct (canvasData room); [simpl; lia|].
    destruct (history room); simpl; lia.
Qed.

Lemma saved_store_reachable : reachable (H := plain_bcrypt) saved_store.
Proof.
  eapply (run_reachable (H := plain_bcrypt)
            (create_and_draw ++
             [("sock-A"%string, oracle_at 1700 "" "",
               save_snapshot (JsString "k3x9qz") JsUndefined
                 (JsString " {}"))]) empty_store);
    [apply reachable_start|].
  vm_compute. reflexivity.
Qed.

Lemma recovery_state_by_priority_witness :
  handle (H := plain_bcrypt) "sock-B" (oracle_at 3000 "" "member-B")
    (request_snapshot JsUndefined (JsString "k3x9qz")) saved_store
  = Some (saved_store, [socket_emit (canvas_snapshot "{}")])
  ∧ handle (H := plain_bcrypt) "sock-B" (oracle_at 3000 "" "member-B")
      (request_snapshot JsUndefined (JsString "k3x9qz")) drawn_store
    = Some (drawn_store,
            [socket_emit
               (canvas_history [normalize (oracle_at 1500 "" "") stroke_s1])])
  ∧ ∃ st' m,
      handle (H := plain_bcrypt) "sock-B" (oracle_at 3000 "" "member-B")
        (join_room "k3x9qz" None None) saved_store
      = Some (st',
              [socket_join "k3x9qz";
               io_to_emit "k3x9qz"
                 (room_members (getMembersSnapshot st' "k3x9qz"));
               socket_emit (canvas_snapshot "{}");
               callback (ack_success "k3x9qz" (isHost m)
                           (getMembersSnapshot st' "k3x9qz")
                           (Some (toSnapshotOf m)))]).
Proof.
  destruct (recovery_state_by_priority (H := plain_bcrypt) saved_store
              saved_store_reachable) as (Hrequest & Hjoin & _).
  destruct (recovery_state_by_priority (H := plain_bcrypt) drawn_store
              drawn_store_reachable) as (Hrequest' & _ & _).
  split_and!.
  - eapply (Hrequest "sock-B" _ JsUndefined (JsString "k3x9qz") "k3x9qz"
              {| code := "k3x9qz"; passwordHash := None; members := _;
                 createdAt := 1000; lastActive := 1700;
                 history := [normalize (oracle_at 1500 "" "") stroke_s1];
                 canvasData := Some "{}"%string; diagramData := None |}).
    vm_compute. reflexivity.
  - eapply (Hrequest' "sock-B" _ JsUndefined (JsString "k3x9qz") "k3x9qz"
              {| code := "k3x9qz"; passwordHash := None; members := _;
                 createdAt := 1000; lastActive := 1500;
                 history := [normalize (oracle_at 1500 "" "") stroke_s1];
                 canvasData := None; diagramData := None |}).
    vm_compute. reflexivity.
  - eapply (Hjoin "sock-B" _ "k3x9qz" None None
              {| code := "k3x9qz"; passwordHash := None; members := _;
                 createdAt := 1000; lastActive := 1700;
                 history := [normalize (oracle_at 1500 "" "") stroke_s1];
                 canvasData := Some "{}"%string; diagramData := None |}).
    + vm_compute. reflexivity.
    + reflexivity.
Defined.

(** *** Round trip of a stroke *)

Section Frame.
Implicit Types (st : RoomStore) (c : string) (r room : Room).

Lemma same_canvas_refl st : same_canvas st st.
Proof. intros c r Hr. eauto. Qed.

Lemma same_canvas_trans st1 st2 st3 :
  same_canvas st1 st2 → same_canvas st2 st3 → same_canvas st1 st3.
Proof.
  intros H12 H23 c r Hr.
  destruct (H12 c r Hr) as (r2 & Hr2 & Hh2 & Hc2).
  destruct (H23 c r2 Hr2) as (r3 & Hr3 & Hh3 & Hc3).
  exists r3. split_and!; congruence.
Qed.

Lemma same_canvas_update_room st c (f : Room → Room) :
  (∀ r, history (f r) = history r ∧ canvasData (f r) = canvasData r) →
  same_canvas st (update_room c f st).
Proof.
  intros Hf c' r Hr. rewrite getRoom_update_room, Hr.
  case_decide; simpl; [|eauto].
  destruct (Hf r). eauto.
Qed.

Lemma same_canvas_createRoom now draws hash st st' room :
  createRoom now draws hash st = Some (st', room) → same_canvas st st'.
Proof.
  unfold createRoom.
  destruct (first_free_code st draws) as [c0|] eqn:Hfree; [|done].
  intros [= <- <-] c r Hr. exists r. split; [|done].
  destruct (decide (c0 = c)) as [->|Hne].
  - apply first_free_code_free in Hfree. congruence.
  - by rewrite getRoom_new_ne.
Qed.

Lemma same_canvas_upsertMember now uuid c payload st :
  same_canvas st (upsertMember now uuid c payload st).1.
Proof.
  unfold upsertMember.
  destruct (getRoom st c) as [room|]; [|apply same_canvas_refl].
  destruct (list_find _ (members room)) as [[i bySocket]|]; simpl;
    by apply same_canvas_update_room.
Qed.

Lemma same_canvas_removeMemberBySocketId now c sid st :
  same_canvas st (removeMemberBySocketId now c sid st).1.
Proof.
  unfold removeMemberBySocketId.
  destruct (getRoom st c) as [room|]; [|apply same_canvas_refl].
  destruct (list_find _ (members room)) as [[index removed]|]; simpl;
    [|apply same_canvas_refl].
  by apply same_canvas_update_room.
Qed.

Context `{Bcrypt}.

Lemma same_canvas_on_create_room sock o password profile st st' out :
  on_create_room sock o password profile st = Some (st', out) →
  same_canvas st st'.
Proof.
  unfold on_create_room.
  destruct (createRoom _ _ _ st) as [[st1 room]|] eqn:Hcreate; [|done].
  pose proof (same_canvas_upsertMember (now o) (memberUuid o) (code room)
    {| p_socketId := sock;
       p_clientId := prof_clientId (buildProfile o profile);
       p_displayName := prof_displayName (buildProfile o profile);
       p_avatar := prof_avatar (buildProfile o profile);
       p_isHost := Some true |} st1) as Hup.
  destruct (upsertMember _ _ _ _ st1) as [st2 member].
  intros [= <- <-].
  eapply same_canvas_trans; [|exact Hup].
  by eapply same_canvas_createRoom.
Qed.

Lemma same_canvas_on_join_room sock o c password profile st :
  same_canvas st (on_join_room sock o c password profile st).1.
Proof.
  unfold on_join_room.
  destruct (getRoom st c) as [room|]; [|apply same_canvas_refl].
  destruct (password_rejected room password); [apply same_canvas_refl|].
  pose proof (same_canvas_upsertMember (now o) (memberUuid o) c
    {| p_socketId := sock;
       p_clientId := prof_clientId (buildProfile o profile);
       p_displayName := prof_displayName (buildProfile o profile);
       p_avatar := prof_avatar (buildProfile o profile);
       p_isHost := Some false |} st) as Hup.
  by destruct (upsertMember _ _ _ _ st) as [st1 member].
Qed.

Lemma same_canvas_leave_rooms sock o entries st0 acc out :
  same_canvas st0 acc →
  same_canvas st0 (fold_left (leave_room sock o) entries (acc, out)).1.
Proof.
  revert acc out.
  induction entries as [|entry entries IH]; intros acc out Hacc; [done|].
  simpl. unfold leave_room at 2. simpl.
  pose proof (same_canvas_removeMemberBySocketId (now o) entry.1 sock acc)
    as Hstep.
  destruct (removeMemberBySocketId _ _ _ acc) as [st1 [removed|]];
    apply IH; by eapply same_canvas_trans.
Qed.

Lemma same_canvas_on_disconnect sock o st :
  same_canvas st (on_disconnect sock o st).1.
Proof. apply same_canvas_leave_rooms, same_canvas_refl. Qed.
End Frame.

Section RoundTrip.
Context `{Bcrypt}.
Implicit Types (st : RoomStore) (c : string) (n : Stroke).

Lemma holds_same_canvas c n st st' :
  same_canvas st st' → holds c n st → holds c n st'.
Proof.
  intros Hsame (room & Hroom & Hin & Hcanvas).
  destruct (Hsame c room Hroom) as (room' & Hroom' & Hh & Hc).
  exists room'. split_and!; congruence.
Qed.

Lemma holds_update_other c c' (f : Room → Room) n st :
  c' ≠ c → holds c n st → holds c n (update_room c' f st).
Proof.
  intros Hne (room & Hroom & Hin & Hcanvas). exists room.
  by rewrite getRoom_update_room, decide_False.
Qed.

Lemma push_capped_last n (h : list Stroke) : n ∈ push_capped n h.
Proof.
  unfold push_capped.
  destruct (Nat.ltb_spec 5000 (length (h ++ [n]))) as [Hlt|_].
  - destruct h as [|s0 h']; simpl in *; [lia|].
    apply elem_of_app. right. by apply list_elem_of_singleton.
  - apply elem_of_app. right. by apply list_elem_of_singleton.
Qed.

Lemma push_capped_keeps n m (h : list Stroke) :
  n ∈ h →
  (5000 ≤ length h → head h ≠ Some n) →
  n ∈ push_capped m h.
Proof.
  intros Hin Hhead. unfold push_capped.
  destruct (Nat.ltb_spec 5000 (length (h ++ [m]))) as [Hlt|_].
  - rewrite length_app in Hlt. simpl in Hlt.
    destruct h as [|s0 h']; simpl in *; [lia|].
    apply elem_of_app. left.
    apply elem_of_cons in Hin as [->|Hin]; [|done].
    exfalso. apply Hhead; [lia|done].
  - apply elem_of_app. by left.
Qed.

Lemma delete_keeps n (h : list Stroke) index entry :
  n ∈ h → h !! index = Some entry → id entry ≠ id n →
  n ∈ delete index h.
Proof.
  intros Hin Hentry Hid.
  apply list_elem_of_lookup in Hin as [j Hj].
  assert (j ≠ index) as Hne by (intros ->; congruence).
  apply list_elem_of_lookup.
  destruct (decide (j < index)) as [Hlt|Hge].
  - exists j. by rewrite list_lookup_delete_lt.
  - exists (j - 1). rewrite list_lookup_delete_ge by lia.
    by replace (S (j - 1)) with j by lia.
Qed.

Lemma getRoom_cleanup_fresh now timeoutMs st c r :
  getRoom st c = Some r → (now - lastActive r ≤ timeoutMs)%Z →
  getRoom (cleanupInactiveRooms now timeoutMs st) c = Some r.
Proof.
  unfold getRoom, cleanupInactiveRooms. simpl. intros Hget Hfresh.
  induction (rooms st) as [|[k r0] l IH]; [done|].
  rewrite filter_cons. simpl in *.
  destruct (decide (k = c)) as [->|Hne]; simpl in *.
  - injection Hget as ->. rewrite decide_True by lia. simpl.
    by rewrite decide_True.
  - assert (snd <$> (snd <$> list_find (λ kv : string * Room, kv.1 = c) l)
            = Some r) as Hl.
    { by destruct (list_find _ l) as [[i [k' r']]|]. }
    specialize (IH Hl).
    destruct (decide (¬ (now - lastActive r0 > timeoutMs)%Z)); [|done].
    simpl. rewrite decide_False by done.
    by destruct (list_find _ (filter _ l)) as [[i [k' r']]|].
Qed.

Lemma step_spares c n s st st' out :
  spares c n st s → holds c n st →
  step s st = Some (st', out) → holds c n st'.
Proof.
  intros Hspares Hholds.
  destruct s as [sock o ev|o|o]; simpl.
  - destruct ev as [password profile|c' password profile
                   |codeParam roomCode stroke|codeParam roomCode strokeId
                   |codeParam roomCode|codeParam roomCode snapshot|]; simpl.
    + intros Hstep. eapply holds_same_canvas; [|done].
      by eapply same_canvas_on_create_room.
    + intros [= Heq]. change st' with (st', out).1. rewrite <- Heq.
      eapply holds_same_canvas; [|done]. apply same_canvas_on_join_room.
    + intros [= Heq]. change st' with (st', out).1. rewrite <- Heq.
      clear Heq. unfold on_stroke.
      destruct (negb (truthy _)); [done|].
      destruct (lookup_room st _) as [[c' room']|] eqn:Hroom'; [|done].
      destruct (isValidStroke stroke) eqn:Hvalid; [|done]. simpl.
      apply lookup_room_Some in Hroom' as [Hkey Hget'].
      destruct (decide (c' = c)) as [->|Hne];
        [|by apply holds_update_other].
      destruct Hholds as (room & Hroom & Hin & Hcanvas).
      rewrite Hroom in Hget'. injection Hget' as <-.
      eexists. rewrite getRoom_update_room, decide_True, Hroom by done.
      split; [reflexivity|]. simpl. split; [|done].
      apply push_capped_keeps; [done|].
      by apply (Hspares Hkey Hvalid room Hroom).
    + intros [= Heq]. change st' with (st', out).1. rewrite <- Heq.
      clear Heq. unfold on_undo.
      destruct strokeId as [| | | |strokeId| |]; try done.
      destruct (negb (truthy _)); [done|].
      destruct (lookup_room st _) as [[c' room']|] eqn:Hroom'; [|done].
      destruct (list_find _ (history room')) as [[index entry]|] eqn:Hfind;
        [|done].
      simpl. apply lookup_room_Some in Hroom' as [Hkey Hget'].
      destruct (decide (c' = c)) as [->|Hne];
        [|by apply holds_update_other].
      destruct Hholds as (room & Hroom & Hin & Hcanvas).
      rewrite Hroom in Hget'. injection Hget' as <-.
      apply list_find_Some in Hfind as (Hentry & Hid & _).
      eexists. rewrite getRoom_update_room, decide_True, Hroom by done.
      split; [reflexivity|]. simpl. rewrite Hcanvas. simpl.
      split; [|done].
      eapply delete_keeps; [done..|].
      intros Heq. apply Hspares. split; [done|]. congruence.
    + intros [= Heq]. change st' with (st', out).1. rewrite <- Heq.
      by rewrite on_request_snapshot_state.
    + intros [= Heq]. change st' with (st', out).1. rewrite <- Heq.
      clear Heq. unfold on_save_snapshot.
      destruct (lookup_room st _) as [[c' room']|] eqn:Hroom'; [|done].
      destruct snapshot as [| | | |snapshot| |]; try done.
      destruct (startsWith "{" (trim snapshot) || _) eqn:Htaken; [|done].
      simpl. apply lookup_room_Some in Hroom' as [Hkey Hget'].
      apply holds_update_other; [|done]. intros ->.
      specialize (Hspares Hkey snapshot eq_refl). congruence.
    + intros [= Heq]. change st' with (st', out).1. rewrite <- Heq.
      eapply holds_same_canvas; [|done]. apply same_canvas_on_disconnect.
  - destruct (createRoom _ _ _ st) as [[st1 room]|] eqn:Hcreate; [|done].
    simpl. intros [= <- <-]. eapply holds_same_canvas; [|done].
    by eapply same_canvas_createRoom.
  - intros [= <- <-]. destruct Hholds as (room & Hroom & Hin & Hcanvas).
    exists room. split; [|done].
    apply getRoom_cleanup_fresh; [done|]. by apply Hspares.
Qed.

Lemma run_steps_spared c n steps st st' outs :
  spared c n steps st → holds c n st →
  run_steps steps st = Some (st', outs) → holds c n st'.
Proof.
  revert st st' outs.
  induction steps as [|s steps IH]; intros st st' outs; simpl.
  - by intros _ Hholds [= <- <-].
  - intros [Hspares Hrest] Hholds.
    destruct (step s st) as [[st1 out]|] eqn:Hstep; [|done].
    destruct (run_steps steps st1) as [[st2 outs']|] eqn:Hrun; [|done].
    intros [= <- <-]. eapply IH; [done| |done].
    by eapply step_spares.
Qed.
End RoundTrip.

(** C9, as stated, fails: the stroke [s1] is accepted into a room with no
    saved snapshot and broadcast in its normal form; nothing undoes it and
    nothing evicts it; an hour and a millisecond later the sweep deletes
    the room, and a [canvas:request-snapshot] on the room then delivers
    nothing, no history array included. *)
Lemma accepted_stroke_round_trip_counterexample :
  ∃ room,
    getRoom created_store "k3x9qz" = Some room
    ∧ canvasData room = None
    ∧ handle (H := plain_bcrypt) "sock-A" (oracle_at 1500 "" "")
        (stroke_event (JsString "k3x9qz") JsUndefined stroke_s1)
        created_store
      = Some (drawn_store,
              [io_to_emit "k3x9qz"
                 (canvas_stroke (normalize (oracle_at 1500 "" "")
                                   stroke_s1))])
    ∧ step (H := plain_bcrypt) (cleanup_tick (oracle_at 3601501 "" ""))
        drawn_store
      = Some (swept_store, [])
    ∧ getRoom swept_store "k3x9qz" = None
    ∧ handle (H := plain_bcrypt) "sock-A" (oracle_at 3601600 "" "")
        (request_snapshot (JsString "k3x9qz") JsUndefined) swept_store
      = Some (swept_store, []).
Proof.
  eexists. split_and!.
  - vm_compute. reflexivity.
  - reflexivity.
  - vm_compute. reflexivity.
  - reflexivity.
  - vm_compute. reflexivity.
  - vm_compute. reflexivity.
Qed.

(** C9, amended: a stroke accepted into a room with no saved snapshot is
    broadcast in its normal form; after any run of steps of the server
    that returns and spares the stroke (no undo of its id, no eviction at
    the cap, no snapshot taken for the room, no sweep that finds the room
    stale), [canvas:request-snapshot] on the room sends the history, and
    the history holds that same normal form. *)
Theorem accepted_stroke_round_trip `{Bcrypt} sock o codeParam roomCode stroke
    st c room st1 out1 steps st2 outs sock' o' codeParam' roomCode' :
  truthy (js_or codeParam roomCode) = true →
  lookup_room st (js_or codeParam roomCode) = Some (c, room) →
  canvasData room = None →
  isValidStroke stroke = true →
  handle sock o (stroke_event codeParam roomCode stroke) st
  = Some (st1, out1) →
  run_steps steps st1 = Some (st2, outs) →
  spared c (normalize o stroke) steps st1 →
  js_or codeParam' roomCode' = JsString c →
  out1 = [io_to_emit c (canvas_stroke (normalize o stroke))]
  ∧ ∃ h,
      handle sock' o' (request_snapshot codeParam' roomCode') st2
      = Some (st2, [socket_emit (canvas_history h)])
      ∧ normalize o stroke ∈ h.
Proof.
  intros Hcode Hroom Hcanvas Hvalid Hstep Hrun Hspared Hkey.
  destruct (on_stroke_accepts o codeParam roomCode stroke st c room)
    as (st1' & room1 & Hon & Hget1 & Hhist1 & _ & Hcanvas1); [done..|].
  simpl in Hstep. rewrite Hon in Hstep. injection Hstep as <- <-.
  split; [done|].
  assert (holds c (normalize o stroke) st1') as Hholds.
  { exists room1. split_and!; [done| |congruence].
    rewrite Hhist1. apply push_capped_last. }
  destruct (run_steps_spared c _ steps st1' st2 outs Hspared Hholds Hrun)
    as (room2 & Hroom2 & Hin2 & Hcanvas2).
  exists (history room2). split; [|done]. simpl.
  unfold on_request_snapshot. rewrite Hkey. simpl. rewrite Hroom2. simpl.
  unfold send_recovery_state, send_history. rewrite Hcanvas2.
  destruct (history room2); [by apply elem_of_nil in Hin2|done].
Qed.

Lemma accepted_stroke_round_trip_witness :
  [io_to_emit "k3x9qz"
     (canvas_stroke (normalize (oracle_at 1500 "" "") stroke_s1))]
  = [io_to_emit "k3x9qz"
       (canvas_stroke (normalize (oracle_at 1500 "" "") stroke_s1))]
  ∧ ∃ h,
      handle (H := plain_bcrypt) "sock-B" (oracle_at 3300 "" "")
        (request_snapshot (JsString "k3x9qz") JsUndefined) busy_store
      = Some (busy_store, [socket_emit (canvas_history h)])
      ∧ normalize (oracle_at 1500 "" "") stroke_s1 ∈ h.
Proof.
  eapply (accepted_stroke_round_trip (H := plain_bcrypt)
            "sock-A" (oracle_at 1500 "" "") (JsString "k3x9qz") JsUndefined
            stroke_s1 created_store "k3x9qz" _ drawn_store _
            busy_after_s1 busy_store).
  - reflexivity.
  - vm_compute. reflexivity.
  - reflexivity.
  - vm_compute. reflexivity.
  - vm_compute. reflexivity.
  - vm_compute. reflexivity.
  - split; [exact I|]. split.
    { intros _ _ room Hroom Hlen. exfalso.
      vm_compute in Hroom. injection Hroom as <-.
      simpl in Hlen. lia. }
    split.
    { intros room Hroom. vm_compute in Hroom. injection Hroom as <-.
      simpl. lia. }
    split; [exact I|]. split.
    { intros _ data [= <-]. vm_compute. reflexivity. }
    split; [|exact I]. intros [_ [=]].
  - reflexivity.
Defined.

(** ** The scenarios of the specification, run on the model *)

(** A join with the right password succeeds, the joiner is not host. *)
Example scenario_join_with_password :
  ∃ st ms self,
    handle (H := plain_bcrypt) "sock-B" (oracle_at 3000 "" "member-B")
      (join_room "k3x9qz" (Some "secret"%string) None) guarded_store
    = Some (st, [socket_join "k3x9qz";
                 io_to_emit "k3x9qz" (room_members ms);
                 callback (ack_success "k3x9qz" false ms (Some self))])
    ∧ length ms = 2
    ∧ snap_isHost self = false.
Proof. eexists _, _, _. split_and!; vm_compute; reflexivity. Qed.

(** The stroke [s1] is echoed to the room with the pressure of both points
    set to [0.5]. *)
Example scenario_pressure_defaults :
  ∃ st,
    handle (H := plain_bcrypt) "sock-A" (oracle_at 1500 "" "")
      (stroke_event (JsString "k3x9qz") JsUndefined stroke_s1) created_store
    = Some (st,
            [io_to_emit "k3x9qz"
               (canvas_stroke
                  {| id := "s1"; tool := pen; color := JsString "#fff";
                     width := JsNumber 4;
                     points := [{| x := JsNumber 0; y := JsNumber 0;
                                   pressure := JsNumber 0.5 |};
                                {| x := JsNumber 10; y := JsNumber 10;
                                   pressure := JsNumber 0.5 |}];
                     stroke_createdAt := JsNumber 1500 |})]).
Proof. eexists. vm_compute. reflexivity. Qed.

(** After [s1] is drawn and undone, nothing is left to recover. *)
Example scenario_undo_then_snapshot :
  ∃ st,
    run (H := plain_bcrypt)
      [("sock-A"%string, oracle_at 1600 "" "",
        undo_event (JsString "k3x9qz") JsUndefined (JsString "s1"));
       ("sock-A"%string, oracle_at 1700 "" "",
        request_snapshot (JsString "k3x9qz") JsUndefined)] drawn_store
    = Some (st, [[io_to_emit "k3x9qz" (canvas_undo "s1")]; []]).
Proof. eexists. vm_compute. reflexivity. Qed.

(** Host A and member B are in a room; A disconnects; the member list
    broadcast then shows B as host. *)
Example scenario_host_failover :
  ∃ st out1 out2 b,
    run (H := plain_bcrypt)
      [("sock-A"%string, oracle_at 1000 "k3x9qz" "member-A",
        create_room None None);
       ("sock-B"%string, oracle_at 2000 "" "member-B",
        join_room "k3x9qz" None None);
       ("sock-A"%string, oracle_at 3000 "" "", disconnect)] empty_store
    = Some (st, [out1; out2; [io_to_emit "k3x9qz" (room_members [b])]])
    ∧ snap_memberId b = "member-B"%string
    ∧ snap_isHost b = true.
Proof. eexists _, _, _, _. split_and!; vm_compute; reflexivity. Qed.

(** * Further properties of the room engine *)

(** ** The table stays well formed *)

Section TableWf.
Implicit Types (st : RoomStore) (c k : string) (r room : Room).

Lemma getRoom_None_key st c : getRoom st c = None ↔ c ∉ (rooms st).*1.
Proof.
  unfold getRoom.
  destruct (list_find _ _) as [[i [k r]]|] eqn:Hfind; simpl.
  - apply list_find_Some in Hfind as (Hi & Hk & _). simpl in Hk. subst k.
    split; [done|]. intros Hnot. exfalso. apply Hnot.
    apply list_elem_of_fmap. exists (c, r). split; [done|].
    by eapply list_elem_of_lookup_2.
  - apply list_find_None in Hfind. rewrite Forall_forall in Hfind.
    split; [|done]. intros _ Hin.
    apply list_elem_of_fmap in Hin as ([k r] & -> & Hin).
    by apply (Hfind _ Hin).
Qed.

Lemma getRoom_elem_of st k r :
  NoDup (rooms st).*1 → (k, r) ∈ rooms st ↔ getRoom st k = Some r.
Proof.
  intros Hkeys. split; [|apply getRoom_Some].
  intros Hin. unfold getRoom.
  destruct (list_find (λ kv : string * Room, kv.1 = k) (rooms st))
    as [[i [k' r']]|] eqn:Hfind; simpl.
  - apply list_find_Some in Hfind as (Hi & Hk & _). simpl in Hk. subst k'.
    apply list_elem_of_lookup in Hin as [j Hj].
    assert (i = j) as ->; [|congruence].
    apply (NoDup_lookup (rooms st).*1 i j k); [done|..].
    + by rewrite list_lookup_fmap, Hi.
    + by rewrite list_lookup_fmap, Hj.
  - apply list_find_None in Hfind. rewrite Forall_forall in Hfind.
    by destruct (Hfind _ Hin).
Qed.

Lemma update_room_keys st c (f : Room → Room) :
  (rooms (update_room c f st)).*1 = (rooms st).*1.
Proof.
  unfold update_room.
  destruct (list_find _ _) as [[i [k r]]|]; [|done]. simpl.
  apply list_eq. intros j. rewrite !list_lookup_fmap.
  destruct (decide (i = j)) as [->|Hne].
  - rewrite list_lookup_alter_eq. by destruct (rooms st !! j).
  - by rewrite list_lookup_alter_ne.
Qed.

Lemma table_wf_update_room st c (f : Room → Room) :
  table_wf st →
  (∀ r, getRoom st c = Some r → room_wf c r → room_wf c (f r)) →
  table_wf (update_room c f st).
Proof.
  intros [Hkeys Hrooms] Hf. split; [by rewrite update_room_keys|].
  unfold update_room.
  destruct (list_find _ _) as [[i [k r]]|] eqn:Hfind; [|done]. simpl.
  apply Forall_alter; [done|].
  intros [k' r'] Hi Hwf. simpl in *.
  pose proof Hfind as Hfind'.
  apply list_find_Some in Hfind' as (Hi' & Hk & _).
  rewrite Hi in Hi'. injection Hi' as -> ->. simpl in Hk. subst k.
  apply Hf; [|done]. unfold getRoom. by rewrite Hfind.
Qed.

Lemma room_wf_set_lastActive k t r :
  room_wf k r → room_wf k (set_lastActive t r).
Proof. done. Qed.

Lemma room_wf_set_history k h r : room_wf k r → room_wf k (set_history h r).
Proof. done. Qed.

Lemma room_wf_set_canvasData k d r :
  room_wf k r → room_wf k (set_canvasData d r).
Proof. done. Qed.

Lemma room_wf_set_members k ms r :
  NoDup (socketId <$> ms) → room_wf k r → room_wf k (set_members ms r).
Proof. intros Hms [Hcode _]. by split. Qed.

Lemma table_wf_createRoom now draws hash st st' room :
  table_wf st → createRoom now draws hash st = Some (st', room) →
  table_wf st'.
Proof.
  intros [Hkeys Hrooms]. unfold createRoom.
  destruct (first_free_code st draws) as [c|] eqn:Hfree; [|done].
  intros [= <- <-]. apply first_free_code_free in Hfree.
  apply getRoom_None_key in Hfree. split; simpl.
  - rewrite fmap_app. apply NoDup_app. split_and!; [done| |].
    + intros k Hk Hin. apply list_elem_of_singleton in Hin as ->. done.
    + apply NoDup_singleton.
  - apply Forall_app_2; [done|]. apply Forall_singleton.
    split; [done|]. simpl. apply NoDup_nil_2.
Qed.

Lemma table_wf_upsertMember now uuid c payload st :
  table_wf st → table_wf (upsertMember now uuid c payload st).1.
Proof.
  intros Hwf. unfold upsertMember.
  destruct (getRoom st c) as [room|] eqn:Hroom; [|done].
  destruct (list_find _ (members room)) as [[i bySocket]|] eqn:Hfind; simpl.
  - apply list_find_Some in Hfind as (Hi & _ & _).
    apply table_wf_update_room; [done|].
    intros r Hr Hrwf. rewrite Hroom in Hr. injection Hr as ->.
    apply room_wf_set_lastActive, room_wf_set_members; [|done].
    rewrite list_fmap_insert. simpl.
    rewrite list_insert_id; [by destruct Hrwf|].
    by rewrite list_lookup_fmap, Hi.
  - apply list_find_None in Hfind. rewrite Forall_forall in Hfind.
    apply table_wf_update_room; [done|].
    intros r Hr Hrwf. rewrite Hroom in Hr. injection Hr as ->.
    apply room_wf_set_lastActive, room_wf_set_members; [|done].
    rewrite fmap_app. apply NoDup_app. split_and!; [by destruct Hrwf| |].
    + intros sid Hin Hnew. apply list_elem_of_singleton in Hnew.
      simpl in Hnew. subst sid.
      apply list_elem_of_fmap in Hin as (m & Hsid & Hm).
      by apply (Hfind m Hm).
    + apply NoDup_singleton.
Qed.

Lemma promote_next_host_sockets (ms : list Member) :
  socketId <$> promote_next_host ms = socketId <$> ms.
Proof.
  unfold promote_next_host.
  destruct (nextHost ms) as [[k m]|]; [|done].
  apply list_eq. intros j. rewrite !list_lookup_fmap.
  destruct (decide (k = j)) as [->|Hne].
  - rewrite list_lookup_alter_eq. by destruct (ms !! j).
  - by rewrite list_lookup_alter_ne.
Qed.

Lemma table_wf_removeMemberBySocketId now c sid st :
  table_wf st → table_wf (removeMemberBySocketId now c sid st).1.
Proof.
  intros Hwf. unfold removeMemberBySocketId.
  destruct (getRoom st c) as [room|] eqn:Hroom; [|done].
  destruct (list_find _ (members room)) as [[index removed]|]; [|done].
  simpl. apply table_wf_update_room; [done|].
  intros r Hr [Hcode Hsock]. rewrite Hroom in Hr. injection Hr as ->.
  apply room_wf_set_lastActive, room_wf_set_members; [|done].
  assert (NoDup (socketId <$> delete index (members r))) as Hdel.
  { rewrite list_fmap_delete. eapply sublist_NoDup; [exact Hsock|apply sublist_delete]. }
  destruct (isHost removed && _); [|done].
  by rewrite promote_next_host_sockets.
Qed.

Lemma filter_keys_NoDup (P : string * Room → Prop)
    `{∀ kv, Decision (P kv)} (l : list (string * Room)) :
  NoDup l.*1 → NoDup (filter P l).*1.
Proof.
  induction l as [|kv l IH]; [done|]. simpl. intros Hnd.
  apply NoDup_cons in Hnd as [Hkv Hl]. rewrite filter_cons.
  destruct (decide (P kv)); [|by apply IH]. simpl.
  apply NoDup_cons. split; [|by apply IH].
  intros Hin. apply Hkv.
  apply list_elem_of_fmap in Hin as (kv' & -> & Hin).
  apply list_elem_of_filter in Hin as [_ Hin].
  by apply list_elem_of_fmap_2.
Qed.

Lemma table_wf_cleanupInactiveRooms now timeoutMs st :
  table_wf st → table_wf (cleanupInactiveRooms now timeoutMs st).
Proof.
  intros [Hkeys Hrooms]. unfold cleanupInactiveRooms. split; simpl.
  - by apply filter_keys_NoDup.
  - rewrite Forall_forall in Hrooms. apply Forall_forall.
    intros kv Hin. apply list_elem_of_filter in Hin as [_ Hin]. auto.
Qed.

Context `{Bcrypt}.

Lemma table_wf_step s st st' out :
  table_wf st → step s st = Some (st', out) → table_wf st'.
Proof.
  intros Hwf. destruct s as [sock o ev|o|o]; simpl.
  - destruct ev as [password profile|c password profile
                   |codeParam roomCode stroke|codeParam roomCode strokeId
                   |codeParam roomCode|codeParam roomCode snapshot|]; simpl.
    + unfold on_create_room.
      destruct (createRoom _ _ _ st) as [[st1 room]|] eqn:Hcreate; [|done].
      apply table_wf_createRoom in Hcreate; [|done].
      match goal with
      | |- context [upsertMember ?t ?u ?k ?p st1] =>
          pose proof (table_wf_upsertMember t u k p st1 Hcreate) as Hup;
          destruct (upsertMember t u k p st1) as [st2 member]
      end.
      by intros [= <- <-].
    + unfold on_join_room.
      destruct (getRoom st c) as [room|]; [|by intros [= <- <-]].
      destruct (password_rejected room password); [by intros [= <- <-]|].
      match goal with
      | |- context [upsertMember ?t ?u ?k ?p st] =>
          pose proof (table_wf_upsertMember t u k p st Hwf) as Hup;
          destruct (upsertMember t u k p st) as [st1 member]
      end.
      by intros [= <- <-].
    + unfold on_stroke.
      destruct (negb (truthy _)); [by intros [= <- <-]|].
      destruct (lookup_room st _) as [[c room]|]; [|by intros [= <- <-]].
      destruct (negb (isValidStroke stroke)); intros [= <- <-]; [done|].
      by apply table_wf_update_room.
    + unfold on_undo.
      destruct strokeId as [| | | |strokeId| |];
        try by intros [= <- <-].
      destruct (negb (truthy _)); [by intros [= <- <-]|].
      destruct (lookup_room st _) as [[c room]|]; [|by intros [= <- <-]].
      destruct (list_find _ (history room)) as [[index entry]|];
        intros [= <- <-]; [|done].
      apply table_wf_update_room; [done|]. intros r _ Hr. simpl.
      destruct (canvasData r) as [data|]; [|done].
      by destruct (startsWith "{" (trim data)).
    + intros [= Heq]. change st' with (st', out).1. rewrite <- Heq.
      by rewrite on_request_snapshot_state.
    + unfold on_save_snapshot.
      destruct (lookup_room st _) as [[c room]|]; [|by intros [= <- <-]].
      destruct snapshot as [| | | |snapshot| |]; try by intros [= <- <-].
      destruct (startsWith "{" (trim snapshot) || _);
        intros [= <- <-]; [|done].
      by apply table_wf_update_room.
    + intros [= Heq]. change st' with (st', out).1. rewrite <- Heq.
      clear Heq. unfold on_disconnect. generalize (listRooms st).
      generalize (@nil Effect). intros acc entries. revert st acc Hwf.
      induction entries as [|entry entries IH]; intros st acc Hwf; [done|].
      simpl. unfold leave_room at 2. simpl.
      pose proof (table_wf_removeMemberBySocketId (now o) entry.1 sock st Hwf).
      destruct (removeMemberBySocketId _ _ _ st) as [st1 [removed|]];
        by apply IH.
  - destruct (createRoom _ _ _ st) as [[st1 room]|] eqn:Hcreate; [|done].
    simpl. intros [= <- <-]. by eapply table_wf_createRoom.
  - intros [= <- <-]. by apply table_wf_cleanupInactiveRooms.
Qed.

Lemma reachable_table_wf st : reachable st → table_wf st.
Proof.
  induction 1 as [|s st st' out _ IH Hstep].
  - split; simpl; constructor.
  - by eapply table_wf_step.
Qed.
End TableWf.

(** ** The store methods *)

(** X1: [createRoom] returns exactly when some draw is free.  The code of
    the new room is the first draw that no room has, every draw before it
    collides, the room is registered under that code without touching any
    other entry, and it starts empty with the hash it was given. *)
Theorem createRoom_first_free now draws hash st :
  match createRoom now draws hash st with
  | Some (st', room) =>
      ∃ taken rest,
        draws = taken ++ code room :: rest
        ∧ Forall (λ c, is_Some (getRoom st c)) taken
        ∧ getRoom st (code room) = None
        ∧ getRoom st' (code room) = Some room
        ∧ (∀ c, c ≠ code room → getRoom st' c = getRoom st c)
        ∧ members room = [] ∧ history room = []
        ∧ canvasData room = None ∧ passwordHash room = hash
  | None => Forall (λ c, is_Some (getRoom st c)) draws
  end.
Proof.
  unfold createRoom.
  assert (match first_free_code st draws with
          | Some c => ∃ taken rest,
              draws = taken ++ c :: rest
              ∧ Forall (λ c, is_Some (getRoom st c)) taken
              ∧ getRoom st c = None
          | None => Forall (λ c, is_Some (getRoom st c)) draws
          end) as Hloop.
  { induction draws as [|d draws IH]; simpl; [done|].
    unfold has. case_bool_decide as Hd.
    - destruct (first_free_code st draws) as [c|].
      + destruct IH as (taken & rest & -> & Htaken & Hfree).
        exists (d :: taken), rest. split_and!; [done| |done].
        by constructor.
      + by constructor.
    - exists [], draws. split_and!; [done|done|].
      by apply eq_None_not_Some. }
  destruct (first_free_code st draws) as [c|]; [|done].
  destruct Hloop as (taken & rest & -> & Htaken & Hfree).
  exists taken, rest. simpl. split_and!; try done.
  - by apply getRoom_new.
  - intros c' Hne. by apply getRoom_new_ne.
Qed.

(** X2: in every reachable store no two rooms share a code: the keys of
    the table are pairwise distinct, the [code] of a room is the key it is
    found under, and the entries of the table are the rooms [getRoom]
    finds. *)
Theorem room_codes_unique `{Bcrypt} st :
  reachable st →
  NoDup (rooms st).*1
  ∧ (∀ k r, getRoom st k = Some r → code r = k)
  ∧ (∀ k r, (k, r) ∈ rooms st ↔ getRoom st k = Some r).
Proof.
  intros Hreach. destruct (reachable_table_wf st Hreach) as [Hkeys Hrooms].
  split_and!; [done| |].
  - intros k r Hget. apply getRoom_Some in Hget.
    rewrite Forall_forall in Hrooms. by destruct (Hrooms _ Hget).
  - intros k r. by apply getRoom_elem_of.
Qed.

Lemma room_codes_unique_witness :
  NoDup (rooms drawn_store).*1
  ∧ (∀ k r, getRoom drawn_store k = Some r → code r = k)
  ∧ (∀ k r, (k, r) ∈ rooms drawn_store ↔ getRoom drawn_store k = Some r).
Proof.
  apply (room_codes_unique (H := plain_bcrypt) drawn_store).
  apply drawn_store_reachable.
Defined.

(** X3: in every reachable store a room has at most one member per
    [socketId]: the [socketId]s of its member list are pairwise distinct,
    so two places of the list that hold the same [socketId] are the same
    place. *)
Theorem one_member_per_socket `{Bcrypt} st c room :
  reachable st → getRoom st c = Some room →
  NoDup (socketId <$> members room)
  ∧ (∀ i j m m',
       members room !! i = Some m → members room !! j = Some m' →
       socketId m = socketId m' → i = j).
Proof.
  intros Hreach Hget.
  destruct (reachable_table_wf st Hreach) as [_ Hrooms].
  apply getRoom_Some in Hget. rewrite Forall_forall in Hrooms.
  destruct (Hrooms _ Hget) as [_ Hnd]. simpl in Hnd.
  split; [done|]. intros i j m m' Hi Hj Hsid.
  apply (NoDup_lookup _ i j (socketId m) Hnd).
  - by rewrite list_lookup_fmap, Hi.
  - by rewrite list_lookup_fmap, Hj, Hsid.
Qed.

Lemma one_member_per_socket_witness :
  NoDup (socketId <$> [member_of "member-A" "sock-A" true 1000])
  ∧ (∀ i j m m',
       [member_of "member-A" "sock-A" true 1000] !! i = Some m →
       [member_of "member-A" "sock-A" true 1000] !! j = Some m' →
       socketId m = socketId m' → i = j).
Proof.
  apply (one_member_per_socket (H := plain_bcrypt) drawn_store "k3x9qz"
           {| code := "k3x9qz"; passwordHash := None;
              members := [member_of "member-A" "sock-A" true 1000];
              createdAt := 1000; lastActive := 1500;
              history := [normalize (oracle_at 1500 "" "") stroke_s1];
              canvasData := None; diagramData := None |}
           drawn_store_reachable).
  vm_compute. reflexivity.
Defined.

(** X4: [upsertMember] on a [socketId] the room already has updates that
    member in place.  The member list keeps its length and its other
    members; the member keeps its [memberId], [socketId], [clientId] and
    [joinedAt], takes the new [displayName] and [avatar], is marked online,
    and a host stays host whatever flag is passed. *)
Theorem upsertMember_known_socket now uuid c payload st room i bySocket :
  getRoom st c = Some room →
  list_find (λ member, socketId member = p_socketId payload) (members room)
  = Some (i, bySocket) →
  ∃ m room',
    (upsertMember now uuid c payload st).2 = Some m
    ∧ getRoom (upsertMember now uuid c payload st).1 c = Some room'
    ∧ members room' = <[i := m]> (members room)
    ∧ length (members room') = length (members room)
    ∧ memberId m = memberId bySocket
    ∧ socketId m = p_socketId payload
    ∧ clientId m = clientId bySocket
    ∧ joinedAt m = joinedAt bySocket
    ∧ displayName m = p_displayName payload
    ∧ avatar m = p_avatar payload
    ∧ status m = online
    ∧ lastSeen m = now
    ∧ (isHost m = true ↔
       isHost bySocket = true ∨ p_isHost payload = Some true).
Proof.
  intros Hroom Hfind. unfold upsertMember. rewrite Hroom, Hfind. simpl.
  rewrite getRoom_update_room, decide_True, Hroom by done. simpl.
  apply list_find_Some in Hfind as (Hi & Hsid & _).
  eexists _, _. split; [reflexivity|]. split; [reflexivity|]. simpl.
  split_and!; try done.
  - apply length_insert.
  - destruct (p_isHost payload) as [[]|], (isHost bySocket); simpl;
      intuition congruence.
Qed.

Lemma upsertMember_known_socket_witness :
  ∃ m room',
    (upsertMember 3000 "fresh" "k3x9qz"
       {| p_socketId := "sock-A"; p_clientId := "other";
          p_displayName := "New Name"; p_avatar := "N";
          p_isHost := Some false |} crowded_store).2 = Some m
    ∧ getRoom (upsertMember 3000 "fresh" "k3x9qz"
                 {| p_socketId := "sock-A"; p_clientId := "other";
                    p_displayName := "New Name"; p_avatar := "N";
                    p_isHost := Some false |} crowded_store).1 "k3x9qz"
      = Some room'
    ∧ members room' = <[0 := m]> (members crowded_room)
    ∧ length (members room') = length (members crowded_room)
    ∧ memberId m = "member-A"%string
    ∧ socketId m = "sock-A"%string
    ∧ clientId m = "client-0001"%string
    ∧ joinedAt m = 1000%Z
    ∧ displayName m = "New Name"%string
    ∧ avatar m = "N"%string
    ∧ status m = online
    ∧ lastSeen m = 3000%Z
    ∧ (isHost m = true ↔ true = true ∨ Some false = Some true).
Proof.
  apply (upsertMember_known_socket 3000 "fresh" "k3x9qz"
           {| p_socketId := "sock-A"; p_clientId := "other";
              p_displayName := "New Name"; p_avatar := "N";
              p_isHost := Some false |} crowded_store crowded_room 0
           (member_of "member-A" "sock-A" true 1000)).
  - reflexivity.
  - reflexivity.
Defined.

(** X5: the store methods leave the store alone when there is nothing to
    act on.  For a code with no room, [upsertMember] and
    [removeMemberBySocketId] return [null]; for a room that has no member
    with the [socketId], [removeMemberBySocketId] returns [null].  In each
    case the store, [lastActive] included, is unchanged. *)
Theorem store_methods_on_missing now uuid c payload sid st :
  (getRoom st c = None →
   upsertMember now uuid c payload st = (st, None)
   ∧ removeMemberBySocketId now c sid st = (st, None))
  ∧ (∀ room,
       getRoom st c = Some room →
       sid ∉ socketId <$> members room →
       removeMemberBySocketId now c sid st = (st, None)).
Proof.
  split.
  - intros Hnone. unfold upsertMember, removeMemberBySocketId.
    by rewrite Hnone.
  - intros room Hroom Hsid. unfold removeMemberBySocketId. rewrite Hroom.
    destruct (list_find _ (members room)) as [[index removed]|] eqn:Hfind;
      [|done].
    apply list_find_Some in Hfind as (Hi & Hrem & _).
    exfalso. apply Hsid. apply list_elem_of_fmap. exists removed.
    split; [done|]. by eapply list_elem_of_lookup_2.
Qed.

Lemma store_methods_on_missing_witness :
  (upsertMember 3000 "fresh" "zzzzzz"
     {| p_socketId := "sock-A"; p_clientId := "other";
        p_displayName := "New Name"; p_avatar := "N";
        p_isHost := None |} crowded_store = (crowded_store, None)
   ∧ removeMemberBySocketId 3000 "zzzzzz" "sock-A" crowded_store
     = (crowded_store, None))
  ∧ removeMemberBySocketId 3000 "k3x9qz" "sock-Z" crowded_store
    = (crowded_store, None).
Proof.
  destruct (store_methods_on_missing 3000 "fresh" "zzzzzz"
              {| p_socketId := "sock-A"; p_clientId := "other";
                 p_displayName := "New Name"; p_avatar := "N";
                 p_isHost := None |} "sock-A" crowded_store) as [Hnone _].
  destruct (store_methods_on_missing 3000 "fresh" "k3x9qz"
              {| p_socketId := "sock-A"; p_clientId := "other";
                 p_displayName := "New Name"; p_avatar := "N";
                 p_isHost := None |} "sock-Z" crowded_store) as [_ Hsock].
  split.
  - apply Hnone. reflexivity.
  - apply (Hsock crowded_room); [reflexivity|].
    unfold crowded_room. simpl. intros Hin.
    repeat (apply elem_of_cons in Hin as [Heq|Hin]; [discriminate|]).
    by apply elem_of_nil in Hin.
Defined.

Lemma removed_sockets now c sid st room index removed :
  getRoom st c = Some room →
  list_find (λ m, socketId m = sid) (members room) = Some (index, removed) →
  ∃ room',
    getRoom (removeMemberBySocketId now c sid st).1 c = Some room'
    ∧ socketId <$> members room' = delete index (socketId <$> members room).
Proof.
  intros Hroom Hfind. unfold removeMemberBySocketId.
  rewrite Hroom, Hfind. simpl.
  rewrite getRoom_update_room, decide_True, Hroom by done. simpl.
  eexists. split; [reflexivity|]. simpl.
  destruct (isHost removed && _).
  - by rewrite promote_next_host_sockets, list_fmap_delete.
  - by rewrite list_fmap_delete.
Qed.

Lemma removed_socket_gone (ms : list Member) index removed sid :
  NoDup (socketId <$> ms) →
  ms !! index = Some removed → socketId removed = sid →
  sid ∉ delete index (socketId <$> ms).
Proof.
  intros Hnd Hi Hsid Hin.
  apply list_elem_of_lookup in Hin as [j Hj].
  assert ((socketId <$> ms) !! index = Some sid) as Hindex
    by by rewrite list_lookup_fmap, Hi, <- Hsid.
  destruct (decide (j < index)) as [Hlt|Hge].
  - rewrite list_lookup_delete_lt in Hj by done.
    pose proof (NoDup_lookup _ _ _ _ Hnd Hj Hindex). lia.
  - rewrite list_lookup_delete_ge in Hj by lia.
    pose proof (NoDup_lookup _ _ _ _ Hnd Hj Hindex). lia.
Qed.

(** X6: [removeMemberBySocketId] returns the first member that has the
    [socketId] and stamps [lastActive].  The room then has one member
    fewer; the member list is the old one without that member, with no
    promotion when the removed member was not host; no [socketId] appears
    that was not there, and when members had distinct [socketId]s the
    removed one is gone. *)
Theorem removeMemberBySocketId_removes now c sid st room index removed :
  getRoom st c = Some room →
  list_find (λ m, socketId m = sid) (members room) = Some (index, removed) →
  ∃ room',
    (removeMemberBySocketId now c sid st).2 = Some removed
    ∧ socketId removed = sid
    ∧ getRoom (removeMemberBySocketId now c sid st).1 c = Some room'
    ∧ lastActive room' = now
    ∧ length (members room') + 1 = length (members room)
    ∧ socketId <$> members room' = delete index (socketId <$> members room)
    ∧ (isHost removed = false →
       members room' = delete index (members room))
    ∧ (NoDup (socketId <$> members room) →
       sid ∉ socketId <$> members room').
Proof.
  intros Hroom Hfind. unfold removeMemberBySocketId.
  rewrite Hroom, Hfind. simpl.
  rewrite getRoom_update_room, decide_True, Hroom by done. simpl.
  apply list_find_Some in Hfind as (Hi & Hsid & _).
  assert (socketId <$>
            (if isHost removed && (0 <? length (delete index (members room)))
             then promote_next_host (delete index (members room))
             else delete index (members room))
          = delete index (socketId <$> members room)) as Hsockets.
  { destruct (isHost removed && _).
    - by rewrite promote_next_host_sockets, list_fmap_delete.
    - by rewrite list_fmap_delete. }
  eexists. split_and!; [done|done|reflexivity|done|..]; simpl.
  - rewrite <- (length_fmap socketId), Hsockets, <- list_fmap_delete,
      length_fmap.
    rewrite length_delete by eauto.
    apply lookup_lt_Some in Hi. lia.
  - done.
  - intros ->. done.
  - intros Hnd. rewrite Hsockets. by eapply removed_socket_gone.
Qed.

Lemma removeMemberBySocketId_removes_witness :
  ∃ room',
    (removeMemberBySocketId 3000 "k3x9qz" "sock-B" crowded_store).2
    = Some (member_of "member-B" "sock-B" false 2000)
    ∧ socketId (member_of "member-B" "sock-B" false 2000) = "sock-B"%string
    ∧ getRoom (removeMemberBySocketId 3000 "k3x9qz" "sock-B"
                 crowded_store).1 "k3x9qz" = Some room'
    ∧ lastActive room' = 3000%Z
    ∧ length (members room') + 1 = length (members crowded_room)
    ∧ socketId <$> members room'
      = delete 1 (socketId <$> members crowded_room)
    ∧ (isHost (member_of "member-B" "sock-B" false 2000) = false →
       members room' = delete 1 (members crowded_room))
    ∧ (NoDup (socketId <$> members crowded_room) →
       "sock-B"%string ∉ socketId <$> members room').
Proof.
  apply (removeMemberBySocketId_removes 3000 "k3x9qz" "sock-B"
           crowded_store crowded_room 1
           (member_of "member-B" "sock-B" false 2000)).
  - reflexivity.
  - reflexivity.
Defined.

(** ** Disconnect *)

Section Disconnect.
Context `{Bcrypt}.
Implicit Types (st acc : RoomStore) (k sock : string).

Lemma leave_rooms_absent sock o entries acc out :
  (∀ k r, getRoom acc k = Some r → sock ∉ socketId <$> members r) →
  fold_left (leave_room sock o) entries (acc, out) = (acc, out).
Proof.
  intros Habsent. induction entries as [|entry entries IH]; [done|].
  simpl. unfold leave_room at 2. simpl.
  assert (removeMemberBySocketId (now o) entry.1 sock acc = (acc, None))
    as ->; [|done].
  unfold removeMemberBySocketId.
  destruct (getRoom acc entry.1) as [room|] eqn:Hroom; [|done].
  destruct (list_find _ (members room)) as [[index removed]|] eqn:Hfind;
    [|done].
  apply list_find_Some in Hfind as (Hi & Hsid & _).
  exfalso. apply (Habsent _ _ Hroom). apply list_elem_of_fmap.
  exists removed. split; [done|]. by eapply list_elem_of_lookup_2.
Qed.

Lemma removal_shrinks now k' sid st k r1 :
  getRoom (removeMemberBySocketId now k' sid st).1 k = Some r1 →
  ∃ r, getRoom st k = Some r
    ∧ ∀ s, s ∈ socketId <$> members r1 → s ∈ socketId <$> members r.
Proof.
  destruct (getRoom st k') as [room|] eqn:Hroom;
    [|unfold removeMemberBySocketId; rewrite Hroom; eauto].
  destruct (list_find (λ m, socketId m = sid) (members room))
    as [[index removed]|] eqn:Hfind;
    [|unfold removeMemberBySocketId; rewrite Hroom, Hfind; eauto].
  destruct (decide (k' = k)) as [->|Hne].
  - destruct (removed_sockets now k sid st room index removed Hroom Hfind)
      as (room' & Hroom' & Hsockets).
    rewrite Hroom'. intros [= <-]. exists room. split; [done|].
    intros s Hs. rewrite Hsockets in Hs.
    eapply elem_of_sublist; [done|]. apply sublist_delete.
  - unfold removeMemberBySocketId. rewrite Hroom, Hfind. simpl.
    rewrite getRoom_update_room, decide_False by done. eauto.
Qed.

Lemma removal_gone now k sock st r1 :
  table_wf st →
  getRoom (removeMemberBySocketId now k sock st).1 k = Some r1 →
  sock ∉ socketId <$> members r1.
Proof.
  intros [_ Hrooms].
  destruct (getRoom st k) as [room|] eqn:Hroom;
    [|unfold removeMemberBySocketId; rewrite Hroom; simpl; congruence].
  destruct (list_find (λ m, socketId m = sock) (members room))
    as [[index removed]|] eqn:Hfind.
  - destruct (removed_sockets now k sock st room index removed Hroom Hfind)
      as (room' & Hroom' & Hsockets).
    rewrite Hroom'. intros [= <-]. rewrite Hsockets.
    apply list_find_Some in Hfind as (Hi & Hsid & _).
    eapply removed_socket_gone; [|done..].
    apply getRoom_Some in Hroom. rewrite Forall_forall in Hrooms.
    by destruct (Hrooms _ Hroom).
  - unfold removeMemberBySocketId. rewrite Hroom, Hfind. simpl.
    rewrite Hroom. intros [= <-].
    apply list_find_None in Hfind. rewrite Forall_forall in Hfind.
    intros Hin. apply list_elem_of_fmap in Hin as (m & Hsid & Hm).
    by apply (Hfind m Hm).
Qed.

Lemma removal_keys now k sid st :
  (rooms (removeMemberBySocketId now k sid st).1).*1 = (rooms st).*1.
Proof.
  unfold removeMemberBySocketId.
  destruct (getRoom st k) as [room|]; [|done].
  destruct (list_find _ (members room)) as [[index removed]|]; [|done].
  simpl. apply update_room_keys.
Qed.

Lemma leave_rooms_spec sock o entries acc out :
  table_wf acc →
  ∃ st' out',
    fold_left (leave_room sock o) entries (acc, out) = (st', out')
    ∧ (rooms st').*1 = (rooms acc).*1
    ∧ (∀ k r, getRoom st' k = Some r →
         k ∈ entries.*1
         ∨ (∀ r0, getRoom acc k = Some r0 → sock ∉ socketId <$> members r0) →
         sock ∉ socketId <$> members r)
    ∧ (∀ e, e ∈ out' →
         e ∈ out
         ∨ ∃ k ms r0, e = io_to_emit k (room_members ms)
             ∧ getRoom acc k = Some r0
             ∧ sock ∈ socketId <$> members r0).
Proof.
  revert acc out.
  induction entries as [|entry entries IH]; intros acc out Hwf; simpl.
  - exists acc, out. split_and!; [done|done| |by left].
    intros k r Hr [Hin|Habsent]; [by apply elem_of_nil in Hin|].
    by apply Habsent.
  - unfold leave_room at 2. simpl.
    pose proof (table_wf_removeMemberBySocketId (now o) entry.1 sock acc Hwf)
      as Hwf1.
    pose proof (removal_keys (now o) entry.1 sock acc) as Hkeys1.
    pose proof (removal_gone (now o) entry.1 sock acc) as Hgone.
    pose proof (removal_shrinks (now o) entry.1 sock acc) as Hshrink.
    assert (∀ removed,
              (removeMemberBySocketId (now o) entry.1 sock acc).2
              = Some removed →
              ∃ r0, getRoom acc entry.1 = Some r0
                ∧ sock ∈ socketId <$> members r0) as Hwas.
    { unfold removeMemberBySocketId.
      destruct (getRoom acc entry.1) as [room|]; [|done].
      destruct (list_find _ (members room)) as [[index rem]|] eqn:Hfind;
        [|done].
      intros removed _. exists room. split; [done|].
      apply list_find_Some in Hfind as (Hi & Hsid & _).
      apply list_elem_of_fmap. exists rem. split; [done|].
      by eapply list_elem_of_lookup_2. }
    destruct (removeMemberBySocketId (now o) entry.1 sock acc)
      as [st1 removed]. simpl in *.
    destruct (IH st1 (match removed with
                      | Some _ => out ++ emitMembers st1 entry.1
                      | None => out
                      end) Hwf1)
      as (st' & out' & Hfold & Hkeys & Habsent & Hout).
    exists st', out'. split_and!.
    + rewrite <- Hfold. by destruct removed.
    + congruence.
    + intros k r Hr Hcase. apply (Habsent k r Hr).
      destruct Hcase as [Hin|Hacc].
      * apply elem_of_cons in Hin as [->|Hin]; [|by left].
        right. intros r1 Hr1. by apply (Hgone r1 Hwf).
      * right. intros r1 Hr1.
        destruct (Hshrink k r1 Hr1) as (r0 & Hr0 & Hsub).
        intros Hin. by apply (Hacc r0 Hr0), Hsub.
    + intros e He. destruct (Hout e He) as [Hin|(k & ms & r1 & -> & Hr1 & Hs)].
      * destruct removed as [rem|]; [|by left].
        apply elem_of_app in Hin as [Hin|Hin]; [by left|].
        apply list_elem_of_singleton in Hin as ->.
        right. destruct (Hwas rem eq_refl) as (r0 & Hr0 & Hs). eauto 10.
      * right. destruct (Hshrink k r1 Hr1) as (r0 & Hr0 & Hsub). eauto 10.
Qed.
End Disconnect.

(** X7: the disconnect of a connection that is a member of no room is a
    no-op: the store is unchanged, [lastActive] of every room included,
    and nothing is emitted. *)
Theorem disconnect_of_stranger `{Bcrypt} sock o st :
  (∀ k r, getRoom st k = Some r → sock ∉ socketId <$> members r) →
  handle sock o disconnect st = Some (st, []).
Proof.
  intros Habsent. simpl. unfold on_disconnect.
  by rewrite leave_rooms_absent.
Qed.

Lemma disconnect_of_stranger_witness :
  handle (H := plain_bcrypt) "sock-Z" (oracle_at 5000 "" "") disconnect
    crowded_store = Some (crowded_store, []).
Proof.
  apply (disconnect_of_stranger (H := plain_bcrypt)).
  intros k r Hget. apply getRoom_Some in Hget.
  apply list_elem_of_singleton in Hget. injection Hget as -> ->.
  unfold crowded_room. simpl. intros Hin.
  repeat (apply elem_of_cons in Hin as [Heq|Hin]; [discriminate|]).
  by apply elem_of_nil in Hin.
Defined.

(** X8: in a reachable store, after the disconnect of a connection no room
    has a member with its [socketId]; no room is deleted, an emptied room
    stays in the table; and every effect is a member-list broadcast to a
    room the connection was a member of. *)
Theorem disconnect_leaves_every_room `{Bcrypt} sock o st :
  reachable st →
  ∃ st' out,
    handle sock o disconnect st = Some (st', out)
    ∧ (rooms st').*1 = (rooms st).*1
    ∧ (∀ k r, getRoom st' k = Some r → sock ∉ socketId <$> members r)
    ∧ (∀ e, e ∈ out →
         ∃ k ms r0, e = io_to_emit k (room_members ms)
           ∧ getRoom st k = Some r0
           ∧ sock ∈ socketId <$> members r0).
Proof.
  intros Hreach. pose proof (reachable_table_wf st Hreach) as Hwf.
  destruct (leave_rooms_spec sock o (listRooms st) st [] Hwf)
    as (st' & out & Hfold & Hkeys & Habsent & Hout).
  exists st', out. simpl. unfold on_disconnect. rewrite Hfold.
  split_and!; [done|done| |].
  - intros k r Hr. apply (Habsent k r Hr). left.
    unfold listRooms. rewrite <- Hkeys.
    destruct (decide (k ∈ (rooms st').*1)) as [|Hnot]; [done|].
    apply getRoom_None_key in Hnot. congruence.
  - intros e He. destruct (Hout e He) as [Hin|Hex]; [|done].
    by apply elem_of_nil in Hin.
Qed.

Lemma disconnect_leaves_every_room_witness :
  ∃ st' out,
    handle (H := plain_bcrypt) "sock-A" (oracle_at 5000 "" "") disconnect
      drawn_store = Some (st', out)
    ∧ (rooms st').*1 = (rooms drawn_store).*1
    ∧ (∀ k r, getRoom st' k = Some r →
         "sock-A"%string ∉ socketId <$> members r)
    ∧ (∀ e, e ∈ out →
         ∃ k ms r0, e = io_to_emit k (room_members ms)
           ∧ getRoom drawn_store k = Some r0
           ∧ "sock-A"%string ∈ socketId <$> members r0).
Proof.
  apply (disconnect_leaves_every_room (H := plain_bcrypt)).
  apply drawn_store_reachable.
Defined.

(** ** The sweep *)

(** X9: [cleanupInactiveRooms] keeps exactly the rooms whose [lastActive]
    is at most [timeoutMs] old, each as it was; run twice with the same
    clock it does nothing the second time; and in a reachable store a code
    finds a room afterwards exactly when it found a room that is not
    stale. *)
Theorem cleanupInactiveRooms_keeps_fresh `{Bcrypt} now timeoutMs st :
  (∀ k r,
     (k, r) ∈ rooms (cleanupInactiveRooms now timeoutMs st)
     ↔ (k, r) ∈ rooms st ∧ (now - lastActive r ≤ timeoutMs)%Z)
  ∧ cleanupInactiveRooms now timeoutMs
      (cleanupInactiveRooms now timeoutMs st)
    = cleanupInactiveRooms now timeoutMs st
  ∧ (reachable st →
     ∀ k r,
       getRoom (cleanupInactiveRooms now timeoutMs st) k = Some r
       ↔ getRoom st k = Some r ∧ (now - lastActive r ≤ timeoutMs)%Z).
Proof.
  assert (∀ k r,
            (k, r) ∈ rooms (cleanupInactiveRooms now timeoutMs st)
            ↔ (k, r) ∈ rooms st ∧ (now - lastActive r ≤ timeoutMs)%Z)
    as Hkeep.
  { intros k r. unfold cleanupInactiveRooms. simpl.
    rewrite list_elem_of_filter. simpl. split; intros [? ?]; split;
      try done; lia. }
  split_and!; [done| |].
  - unfold cleanupInactiveRooms. simpl. f_equal.
    rewrite list_filter_filter. apply list_filter_iff. tauto.
  - intros Hreach k r.
    pose proof (reachable_table_wf st Hreach) as Hwf.
    pose proof (table_wf_cleanupInactiveRooms now timeoutMs st Hwf) as Hwf'.
    destruct Hwf as [Hkeys _]. destruct Hwf' as [Hkeys' _].
    rewrite <- !getRoom_elem_of by done. apply Hkeep.
Qed.

Lemma cleanupInactiveRooms_keeps_fresh_witness :
  (getRoom (cleanupInactiveRooms 3601500 (60 * 60 * 1000) drawn_store)
     "k3x9qz" = getRoom drawn_store "k3x9qz")
  ∧ getRoom (cleanupInactiveRooms 3601501 (60 * 60 * 1000) drawn_store)
      "k3x9qz" = None.
Proof.
  destruct (cleanupInactiveRooms_keeps_fresh (H := plain_bcrypt)
              3601500 (60 * 60 * 1000) drawn_store) as (_ & _ & Hfresh).
  destruct (cleanupInactiveRooms_keeps_fresh (H := plain_bcrypt)
              3601501 (60 * 60 * 1000) drawn_store) as (_ & _ & Hstale).
  specialize (Hfresh drawn_store_reachable "k3x9qz").
  specialize (Hstale drawn_store_reachable "k3x9qz").
  split.
  - destruct (getRoom drawn_store "k3x9qz") as [r|] eqn:Hr; [|done].
    apply Hfresh. split; [done|].
    vm_compute in Hr. injection Hr as <-. simpl. lia.
  - destruct (getRoom (cleanupInactiveRooms 3601501 _ drawn_store) "k3x9qz")
      as [r|] eqn:Hr; [|done].
    destruct (proj1 (Hstale r) eq_refl) as [Hr' Hage]. exfalso.
    vm_compute in Hr'. injection Hr' as <-. simpl in Hage. lia.
Defined.

(** ** Snapshots *)

(** X10: [canvas:save-snapshot] stores a string whose trimmed form starts
    with [{] or [data:image/], emits nothing, and a later
    [canvas:request-snapshot] on the room sends exactly that trimmed form
    (the history is no longer sent).  Any other snapshot value, a value
    that is not a string included, leaves the store as it was. *)
Theorem save_snapshot_round_trip `{Bcrypt} sock o codeParam roomCode st c room :
  lookup_room st (js_or codeParam roomCode) = Some (c, room) →
  (∀ snapshot,
     startsWith "{" (trim snapshot)
     || startsWith "data:image/" (trim snapshot) = true →
     ∃ st' room',
       handle sock o (save_snapshot codeParam roomCode (JsString snapshot)) st
       = Some (st', [])
       ∧ getRoom st' c = Some room'
       ∧ canvasData room' = Some (trim snapshot)
       ∧ lastActive room' = now o
       ∧ history room' = history room
       ∧ members room' = members room
       ∧ ∀ sock' o' codeParam' roomCode',
           js_or codeParam' roomCode' = JsString c →
           handle sock' o' (request_snapshot codeParam' roomCode') st'
           = Some (st', [socket_emit (canvas_snapshot (trim snapshot))]))
  ∧ (∀ v,
       (∀ snapshot, v = JsString snapshot →
          startsWith "{" (trim snapshot)
          || startsWith "data:image/" (trim snapshot) = false) →
       handle sock o (save_snapshot codeParam roomCode v) st
       = Some (st, [])).
Proof.
  intros Hroom. split.
  - intros snapshot Hstart. simpl. unfold on_save_snapshot.
    rewrite Hroom, Hstart.
    apply lookup_room_Some in Hroom as [_ Hget].
    eexists _, _. split; [reflexivity|].
    rewrite getRoom_update_room, decide_True, Hget by done. simpl.
    split; [reflexivity|]. simpl. split_and!; try done.
    intros sock' o' codeParam' roomCode' Hkey. simpl.
    unfold on_request_snapshot. rewrite Hkey. simpl.
    rewrite getRoom_update_room, decide_True, Hget by done. simpl.
    unfold send_recovery_state. simpl.
    destruct (String.eqb_spec (trim snapshot) "") as [Hempty|]; [|done].
    rewrite Hempty in Hstart. done.
  - intros v Hv. simpl. unfold on_save_snapshot. rewrite Hroom.
    destruct v as [| | | |snapshot| |]; try done.
    by rewrite (Hv snapshot eq_refl).
Qed.

Lemma save_snapshot_round_trip_witness :
  (∃ st' room',
     handle (H := plain_bcrypt) "sock-A" (oracle_at 1700 "" "")
       (save_snapshot (JsString "k3x9qz") JsUndefined
          (JsString "  data:image/png;base64,AAAA ")) drawn_store
     = Some (st', [])
     ∧ getRoom st' "k3x9qz" = Some room'
     ∧ canvasData room' = Some (trim "  data:image/png;base64,AAAA ")
     ∧ lastActive room' = 1700%Z
     ∧ history room' = [normalize (oracle_at 1500 "" "") stroke_s1]
     ∧ members room' = [member_of "member-A" "sock-A" true 1000]
     ∧ ∀ sock' o' codeParam' roomCode',
         js_or codeParam' roomCode' = JsString "k3x9qz" →
         handle (H := plain_bcrypt) sock' o'
           (request_snapshot codeParam' roomCode') st'
         = Some (st',
                 [socket_emit
                    (canvas_snapshot
                       (trim "  data:image/png;base64,AAAA "))]))
  ∧ handle (H := plain_bcrypt) "sock-A" (oracle_at 1700 "" "")
      (save_snapshot (JsString "k3x9qz") JsUndefined (JsString "<svg/>"))
      drawn_store = Some (drawn_store, []).
Proof.
  destruct (save_snapshot_round_trip (H := plain_bcrypt) "sock-A"
              (oracle_at 1700 "" "") (JsString "k3x9qz") JsUndefined
              drawn_store "k3x9qz"
              {| code := "k3x9qz"; passwordHash := None;
                 members := [member_of "member-A" "sock-A" true 1000];
                 createdAt := 1000; lastActive := 1500;
                 history := [normalize (oracle_at 1500 "" "") stroke_s1];
                 canvasData := None; diagramData := None |})
    as [Hsave Hreject]; [vm_compute; reflexivity|].
  split.
  - apply Hsave. reflexivity.
  - apply Hreject. intros snapshot [= <-]. reflexivity.
Defined.

(** ** Undo *)

(** X11: [canvas:undo] of an id the history holds removes the first entry
    with that id and no other, stamps [lastActive], drops a structured
    snapshot and keeps a raster one, leaves the members alone, and
    broadcasts [{strokeId}] to the room. *)
Theorem undo_removes_first `{Bcrypt} sock o codeParam roomCode strokeId st c
    room index entry :
  truthy (js_or codeParam roomCode) = true →
  lookup_room st (js_or codeParam roomCode) = Some (c, room) →
  list_find (λ e, id e = strokeId) (history room) = Some (index, entry) →
  ∃ st' room',
    handle sock o (undo_event codeParam roomCode (JsString strokeId)) st
    = Some (st', [io_to_emit c (canvas_undo strokeId)])
    ∧ getRoom st' c = Some room'
    ∧ history room' = delete index (history room)
    ∧ length (history room') + 1 = length (history room)
    ∧ (∀ j e, j < index → history room !! j = Some e → id e ≠ strokeId)
    ∧ lastActive room' = now o
    ∧ members room' = members room
    ∧ canvasData room' = snapshot_after_undo (canvasData room).
Proof.
  intros Hcode Hroom Hfind. simpl. unfold on_undo.
  rewrite Hcode, Hroom, Hfind. simpl.
  apply lookup_room_Some in Hroom as [_ Hget].
  apply list_find_Some in Hfind as (Hi & Hid & Hfirst).
  eexists _, _. split; [reflexivity|].
  rewrite getRoom_update_room, decide_True, Hget by done. simpl.
  split; [reflexivity|].
  assert (length (delete index (history room)) + 1 = length (history room))
    as Hlen.
  { rewrite length_delete by eauto. apply lookup_lt_Some in Hi. lia. }
  unfold snapshot_after_undo.
  destruct (canvasData room) as [data|] eqn:Hdata; simpl;
    [destruct (startsWith "{" (trim data)); simpl|];
    split_and!; try done; eauto.
Qed.

Lemma undo_removes_first_witness :
  ∃ st' room',
    handle (H := plain_bcrypt) "sock-B" (oracle_at 1800 "" "")
      (undo_event JsUndefined (JsString "k3x9qz") (JsString "s1")) saved_store
    = Some (st', [io_to_emit "k3x9qz" (canvas_undo "s1")])
    ∧ getRoom st' "k3x9qz" = Some room'
    ∧ history room'
      = delete 0 [normalize (oracle_at 1500 "" "") stroke_s1]
    ∧ length (history room') + 1 = 1
    ∧ (∀ j e, j < 0 →
         [normalize (oracle_at 1500 "" "") stroke_s1] !! j = Some e →
         id e ≠ "s1"%string)
    ∧ lastActive room' = 1800%Z
    ∧ members room' = [member_of "member-A" "sock-A" true 1000]
    ∧ canvasData room' = snapshot_after_undo (Some "{}"%string).
Proof.
  apply (undo_removes_first (H := plain_bcrypt) "sock-B"
           (oracle_at 1800 "" "") JsUndefined (JsString "k3x9qz") "s1"
           saved_store "k3x9qz"
           {| code := "k3x9qz"; passwordHash := None;
              members := [member_of "member-A" "sock-A" true 1000];
              createdAt := 1000; lastActive := 1700;
              history := [normalize (oracle_at 1500 "" "") stroke_s1];
              canvasData := Some "{}"%string; diagramData := None |}
           0 (normalize (oracle_at 1500 "" "") stroke_s1)).
  - reflexivity.
  - vm_compute. reflexivity.
  - vm_compute. reflexivity.
Defined.

(** X12: below the cap a stroke is appended and nothing is evicted, and a
    stroke followed by the undo of its id gives the history back.  For a
    valid stroke whose normal id no entry has, into a history of fewer than
    5000 entries, the two events return, broadcast the stroke and then its
    id, and leave the history of the room as it was before them. *)
Theorem stroke_then_undo `{Bcrypt} sock o sock' o' codeParam roomCode stroke
    st c room :
  truthy (js_or codeParam roomCode) = true →
  lookup_room st (js_or codeParam roomCode) = Some (c, room) →
  isValidStroke stroke = true →
  length (history room) < 5000 →
  (∀ e, e ∈ history room → id e ≠ id (normalize o stroke)) →
  ∃ st1 room1 st2 room2,
    handle sock o (stroke_event codeParam roomCode stroke) st
    = Some (st1, [io_to_emit c (canvas_stroke (normalize o stroke))])
    ∧ getRoom st1 c = Some room1
    ∧ history room1 = history room ++ [normalize o stroke]
    ∧ handle sock' o'
        (undo_event codeParam roomCode (JsString (id (normalize o stroke))))
        st1
      = Some (st2, [io_to_emit c (canvas_undo (id (normalize o stroke)))])
    ∧ getRoom st2 c = Some room2
    ∧ history room2 = history room.
Proof.
  intros Hcode Hroom Hvalid Hlen Hfresh.
  destruct (on_stroke_accepts o codeParam roomCode stroke st c room)
    as (st1 & room1 & Hstep & Hget1 & Hhist1 & _ & _); [done..|].
  assert (history room1 = history room ++ [normalize o stroke]) as Hh1.
  { rewrite Hhist1. unfold push_capped.
    destruct (Nat.ltb_spec 5000
                (length (history room ++ [normalize o stroke])))
      as [Hover|_]; [|done].
    rewrite length_app in Hover. simpl in Hover. lia. }
  assert (list_find (λ e, id e = id (normalize o stroke)) (history room1)
          = Some (length (history room), normalize o stroke)) as Hfind.
  { rewrite Hh1. apply list_find_Some. split_and!.
    - by rewrite list_lookup_middle.
    - done.
    - intros j e Hj Hlt. rewrite lookup_app_l in Hj by done.
      apply Hfresh. by eapply list_elem_of_lookup_2. }
  assert (lookup_room st1 (js_or codeParam roomCode) = Some (c, room1))
    as Hroom1.
  { apply lookup_room_Some in Hroom as [-> _]. simpl. by rewrite Hget1. }
  exists st1, room1. cbn [handle]. rewrite Hstep.
  unfold on_undo. rewrite Hcode, Hroom1, Hfind. cbn [negb].
  eexists _, _. split_and!; [done|done|done|reflexivity| |].
  - rewrite getRoom_update_room, decide_True, Hget1 by done. reflexivity.
  - assert (delete (length (history room)) (history room1) = history room)
      as Hdel.
    { rewrite Hh1, delete_take_drop.
      rewrite take_app_length, drop_ge; [apply app_nil_r|].
      rewrite length_app. simpl. lia. }
    simpl. by destruct (canvasData room1) as [data|];
      [destruct (startsWith "{" (trim data))|].
Qed.

Lemma stroke_then_undo_witness :
  ∃ st1 room1 st2 room2,
    handle (H := plain_bcrypt) "sock-A" (oracle_at 1600 "" "")
      (stroke_event (JsString "k3x9qz") JsUndefined stroke_s2) drawn_store
    = Some (st1,
            [io_to_emit "k3x9qz"
               (canvas_stroke (normalize (oracle_at 1600 "" "") stroke_s2))])
    ∧ getRoom st1 "k3x9qz" = Some room1
    ∧ history room1
      = [normalize (oracle_at 1500 "" "") stroke_s1]
        ++ [normalize (oracle_at 1600 "" "") stroke_s2]
    ∧ handle (H := plain_bcrypt) "sock-B" (oracle_at 1700 "" "")
        (undo_event (JsString "k3x9qz") JsUndefined
           (JsString (id (normalize (oracle_at 1600 "" "") stroke_s2))))
        st1
      = Some (st2,
              [io_to_emit "k3x9qz"
                 (canvas_undo
                    (id (normalize (oracle_at 1600 "" "") stroke_s2)))])
    ∧ getRoom st2 "k3x9qz" = Some room2
    ∧ history room2 = [normalize (oracle_at 1500 "" "") stroke_s1].
Proof.
  apply (stroke_then_undo (H := plain_bcrypt) "sock-A"
           (oracle_at 1600 "" "") "sock-B" (oracle_at 1700 "" "")
           (JsString "k3x9qz") JsUndefined stroke_s2 drawn_store "k3x9qz"
           {| code := "k3x9qz"; passwordHash := None;
              members := [member_of "member-A" "sock-A" true 1000];
              createdAt := 1000; lastActive := 1500;
              history := [normalize (oracle_at 1500 "" "") stroke_s1];
              canvasData := None; diagramData := None |}).
  - reflexivity.
  - vm_compute. reflexivity.
  - reflexivity.
  - simpl. lia.
  - intros e He. apply list_elem_of_singleton in He as ->. discriminate.
Defined.

(** ** Invariants of a room, and what every history entry looks like *)

Lemma rooms_Forall_update_room (P : Room → Prop) c (f : Room → Room) st :
  Forall (λ kv, P kv.2) (rooms st) →
  (∀ r, P r → P (f r)) →
  Forall (λ kv, P kv.2) (rooms (update_room c f st)).
Proof.
  intros Hall Hf. unfold update_room.
  destruct (list_find _ _) as [[i [k r]]|]; [|done]. simpl.
  apply Forall_alter; [done|]. intros [k' r'] _ Hr'. by apply Hf.
Qed.

Section RoomInvariant.
Context `{Bcrypt}.
Variable P : Room → Prop.
Hypothesis P_new :
  ∀ c hash t,
    P {| code := c; passwordHash := hash; members := [];
         createdAt := t; lastActive := t; history := [];
         canvasData := None; diagramData := None |}.
Hypothesis P_members : ∀ ms r, P r → P (set_members ms r).
Hypothesis P_lastActive : ∀ t r, P r → P (set_lastActive t r).
Hypothesis P_push :
  ∀ o stroke r,
    isValidStroke stroke = true → P r →
    P (set_history (push_capped (normalize o stroke) (history r)) r).
Hypothesis P_delete :
  ∀ i r, P r → P (set_history (delete i (history r)) r).
Hypothesis P_clear : ∀ r, P r → P (set_canvasData None r).
Hypothesis P_save :
  ∀ snapshot r,
    startsWith "{" (trim snapshot)
    || startsWith "data:image/" (trim snapshot) = true →
    P r → P (set_canvasData (Some (trim snapshot)) r).

Lemma invariant_createRoom now draws hash st st' room :
  Forall (λ kv, P kv.2) (rooms st) →
  createRoom now draws hash st = Some (st', room) →
  Forall (λ kv, P kv.2) (rooms st').
Proof.
  intros Hall. unfold createRoom.
  destruct (first_free_code st draws) as [c|]; [|done].
  intros [= <- <-]. simpl. apply Forall_app_2; [done|].
  apply Forall_singleton. apply P_new.
Qed.

Lemma invariant_upsertMember now uuid c payload st :
  Forall (λ kv, P kv.2) (rooms st) →
  Forall (λ kv, P kv.2) (rooms (upsertMember now uuid c payload st).1).
Proof.
  intros Hall. unfold upsertMember.
  destruct (getRoom st c) as [room|]; [|done].
  destruct (list_find _ (members room)) as [[i bySocket]|]; simpl;
    (apply (rooms_Forall_update_room P); [done|]);
    intros r Hr; by apply P_lastActive, P_members.
Qed.

Lemma invariant_removeMemberBySocketId now c sid st :
  Forall (λ kv, P kv.2) (rooms st) →
  Forall (λ kv, P kv.2)
    (rooms (removeMemberBySocketId now c sid st).1).
Proof.
  intros Hall. unfold removeMemberBySocketId.
  destruct (getRoom st c) as [room|]; [|done].
  destruct (list_find _ (members room)) as [[index removed]|]; [|done].
  simpl. apply (rooms_Forall_update_room P); [done|].
  intros r Hr. by apply P_lastActive, P_members.
Qed.

Lemma invariant_step s st st' out :
  Forall (λ kv, P kv.2) (rooms st) →
  step s st = Some (st', out) →
  Forall (λ kv, P kv.2) (rooms st').
Proof.
  intros Hall. destruct s as [sock o ev|o|o]; simpl.
  - destruct ev as [password profile|c password profile
                   |codeParam roomCode stroke|codeParam roomCode strokeId
                   |codeParam roomCode|codeParam roomCode snapshot|]; simpl.
    + unfold on_create_room.
      destruct (createRoom _ _ _ st) as [[st1 room]|] eqn:Hcreate; [|done].
      apply invariant_createRoom in Hcreate; [|done].
      match goal with
      | |- context [upsertMember ?t ?u ?k ?p st1] =>
          pose proof (invariant_upsertMember t u k p st1 Hcreate) as Hup;
          destruct (upsertMember t u k p st1) as [st2 member]
      end.
      by intros [= <- <-].
    + unfold on_join_room.
      destruct (getRoom st c) as [room|]; [|by intros [= <- <-]].
      destruct (password_rejected room password); [by intros [= <- <-]|].
      match goal with
      | |- context [upsertMember ?t ?u ?k ?p st] =>
          pose proof (invariant_upsertMember t u k p st Hall) as Hup;
          destruct (upsertMember t u k p st) as [st1 member]
      end.
      by intros [= <- <-].
    + unfold on_stroke.
      destruct (negb (truthy _)); [by intros [= <- <-]|].
      destruct (lookup_room st _) as [[c room]|]; [|by intros [= <- <-]].
      destruct (isValidStroke stroke) eqn:Hvalid; simpl;
        intros [= <- <-]; [|done].
      apply (rooms_Forall_update_room P); [done|].
      intros r Hr. by apply P_lastActive, P_push.
    + unfold on_undo.
      destruct strokeId as [| | | |strokeId| |];
        try by intros [= <- <-].
      destruct (negb (truthy _)); [by intros [= <- <-]|].
      destruct (lookup_room st _) as [[c room]|]; [|by intros [= <- <-]].
      destruct (list_find _ (history room)) as [[index entry]|];
        intros [= <- <-]; [|done].
      apply (rooms_Forall_update_room P); [done|].
      intros r Hr.
      assert (P (set_lastActive (now o)
                   (set_history (delete index (history r)) r))) as Hbase
        by by apply P_lastActive, P_delete.
      simpl. destruct (canvasData r) as [data|]; [|done].
      destruct (startsWith "{" (trim data)); [|done].
      by apply P_clear in Hbase.
    + intros [= Heq]. change st' with (st', out).1. rewrite <- Heq.
      by rewrite on_request_snapshot_state.
    + unfold on_save_snapshot.
      destruct (lookup_room st _) as [[c room]|]; [|by intros [= <- <-]].
      destruct snapshot as [| | | |snapshot| |]; try by intros [= <- <-].
      destruct (startsWith "{" (trim snapshot) || _) eqn:Hstart;
        intros [= <- <-]; [|done].
      apply (rooms_Forall_update_room P); [done|].
      intros r Hr. by apply P_lastActive, P_save.
    + intros [= Heq]. change st' with (st', out).1. rewrite <- Heq.
      clear Heq. unfold on_disconnect. generalize (listRooms st).
      generalize (@nil Effect). intros acc entries. revert st acc Hall.
      induction entries as [|entry entries IH]; intros st acc Hall; [done|].
      simpl. unfold leave_room at 2. simpl.
      pose proof (invariant_removeMemberBySocketId (now o) entry.1 sock st Hall).
      destruct (removeMemberBySocketId _ _ _ st) as [st1 [removed|]];
        by apply IH.
  - destruct (createRoom _ _ _ st) as [[st1 room]|] eqn:Hcreate; [|done].
    simpl. intros [= <- <-]. by eapply invariant_createRoom.
  - intros [= <- <-]. unfold cleanupInactiveRooms. simpl.
    rewrite Forall_forall in Hall. apply Forall_forall.
    intros kv Hin. apply list_elem_of_filter in Hin as [_ Hin]. auto.
Qed.

Lemma reachable_room st c room :
  reachable st → getRoom st c = Some room → P room.
Proof.
  intros Hreach Hget.
  assert (Forall (λ kv, P kv.2) (rooms st)) as Hall.
  { clear Hget. induction Hreach as [|s st st' out _ IH Hstep].
    - constructor.
    - by eapply invariant_step. }
  apply getRoom_Some in Hget. rewrite Forall_forall in Hall.
  apply (Hall _ Hget).
Qed.
End RoomInvariant.

Lemma normalize_point_wf pt :
  valid_point pt = true → point_wf (normalize_point pt).
Proof.
  unfold valid_point, point_wf, normalize_point, finite_number. simpl.
  intros Hpt. repeat (apply andb_true_iff in Hpt as [Hpt ?]).
  split_and!; try (by apply andb_true_iff).
  by destruct (typeof_number (get pt "pressure")
               && Number_isFinite (get pt "pressure")) eqn:Hpr.
Qed.

Lemma normalize_wf o stroke :
  isValidStroke stroke = true → stroke_wf (normalize o stroke).
Proof.
  unfold isValidStroke, stroke_wf, normalize. simpl.
  destruct (negb (truthy stroke)); [done|].
  destruct (typeof_string (get stroke "color")) eqn:Hcolor; [|done]. simpl.
  destruct (typeof_number (get stroke "width")) eqn:Hwidth; simpl.
  - destruct (get stroke "points") as [| | | | |pts|]; try done.
    intros Hpts. split_and!; [done|done|]. simpl.
    apply Forall_fmap, Forall_forall. intros pt Hin.
    apply normalize_point_wf.
    rewrite forallb_forall in Hpts. apply Hpts. by apply list_elem_of_In.
  - destruct (typeof_number (get stroke "size")) eqn:Hsize; [|done]. simpl.
    destruct (get stroke "points") as [| | | | |pts|]; try done.
    intros Hpts. split_and!; [done|done|]. simpl.
    apply Forall_fmap, Forall_forall. intros pt Hin.
    apply normalize_point_wf.
    rewrite forallb_forall in Hpts. apply Hpts. by apply list_elem_of_In.
Qed.

(** X13: every stroke in the history of a room of a reachable store has a
    string [color], a numeric [width], and only points whose [x], [y] and
    [pressure] are finite numbers: what validation admits and
    normalisation completes is all a history ever holds. *)
Theorem history_entries_well_formed `{Bcrypt} st c room :
  reachable st → getRoom st c = Some room →
  Forall stroke_wf (history room).
Proof.
  apply (reachable_room (λ r, Forall stroke_wf (history r))); try done.
  - intros o stroke r Hvalid Hh. simpl. unfold push_capped.
    assert (Forall stroke_wf (history r ++ [normalize o stroke])) as Hall.
    { apply Forall_app_2; [done|]. apply Forall_singleton.
      by apply normalize_wf. }
    destruct (5000 <? length (history r ++ [normalize o stroke])); [|done].
    destruct (history r ++ [normalize o stroke]); [done|]. simpl.
    by apply Forall_cons in Hall as [_ Hall].
  - intros i r Hh. simpl. by apply Forall_delete.
Qed.

Lemma history_entries_well_formed_witness :
  Forall stroke_wf [normalize (oracle_at 1500 "" "") stroke_s1].
Proof.
  apply (history_entries_well_formed (H := plain_bcrypt) drawn_store
           "k3x9qz"
           {| code := "k3x9qz"; passwordHash := None;
              members := [member_of "member-A" "sock-A" true 1000];
              createdAt := 1000; lastActive := 1500;
              history := [normalize (oracle_at 1500 "" "") stroke_s1];
              canvasData := None; diagramData := None |}).
  - apply drawn_store_reachable.
  - vm_compute. reflexivity.
Defined.

(** ** Rooms persist, and events stay in their room *)

Section RoomRelation.
Context `{Bcrypt}.
Variable R : Room → Room → Prop.
Hypothesis R_refl : ∀ r, R r r.
Hypothesis R_trans : ∀ r1 r2 r3, R r1 r2 → R r2 r3 → R r1 r3.
Hypothesis R_members : ∀ ms r, R r (set_members ms r).
Hypothesis R_lastActive : ∀ t r, R r (set_lastActive t r).
Hypothesis R_history : ∀ h r, R r (set_history h r).
Hypothesis R_canvasData : ∀ d r, R r (set_canvasData d r).

Lemma related_update_room st c (f : Room → Room) k r :
  (∀ r, R r (f r)) →
  getRoom st k = Some r →
  ∃ r', getRoom (update_room c f st) k = Some r' ∧ R r r'.
Proof.
  intros Hf Hr. rewrite getRoom_update_room, Hr.
  case_decide; simpl; eauto.
Qed.

Lemma related_upsertMember now uuid c payload st k r :
  getRoom st k = Some r →
  ∃ r', getRoom (upsertMember now uuid c payload st).1 k = Some r' ∧ R r r'.
Proof.
  intros Hr. unfold upsertMember.
  destruct (getRoom st c) as [room|]; [|eauto].
  destruct (list_find _ (members room)) as [[i bySocket]|]; simpl;
    (apply related_update_room; [|done]); intros r0; eauto.
Qed.

Lemma related_removeMemberBySocketId now c sid st k r :
  getRoom st k = Some r →
  ∃ r', getRoom (removeMemberBySocketId now c sid st).1 k = Some r'
    ∧ R r r'.
Proof.
  intros Hr. unfold removeMemberBySocketId.
  destruct (getRoom st c) as [room|]; [|eauto].
  destruct (list_find _ (members room)) as [[index removed]|]; simpl;
    [|eauto].
  apply related_update_room; [|done]. intros r0. eauto.
Qed.

Lemma related_leave_rooms sock o entries acc out k r0 r :
  R r0 r → getRoom acc k = Some r →
  ∃ r', getRoom (fold_left (leave_room sock o) entries (acc, out)).1 k
        = Some r' ∧ R r0 r'.
Proof.
  revert acc out r. induction entries as [|entry entries IH];
    intros acc out r Hrel Hr; simpl; [eauto|].
  unfold leave_room at 2. simpl.
  destruct (related_removeMemberBySocketId (now o) entry.1 sock acc k r Hr)
    as (r1 & Hr1 & Hrel1).
  destruct (removeMemberBySocketId _ _ _ acc) as [st1 [removed|]];
    simpl in Hr1; (eapply IH; [eapply R_trans; eassumption|exact Hr1]).
Qed.

Lemma related_handle sock o ev st st' out k r :
  handle sock o ev st = Some (st', out) →
  getRoom st k = Some r →
  ∃ r', getRoom st' k = Some r' ∧ R r r'.
Proof.
  intros Hstep Hr.
  destruct ev as [password profile|c password profile
                 |codeParam roomCode stroke|codeParam roomCode strokeId
                 |codeParam roomCode|codeParam roomCode snapshot|];
    simpl in Hstep.
  - unfold on_create_room in Hstep.
    destruct (createRoom _ _ _ st) as [[st1 room]|] eqn:Hcreate; [|done].
    assert (getRoom st1 k = Some r) as Hr1.
    { unfold createRoom in Hcreate.
      destruct (first_free_code st (codeDraws o)) as [c0|] eqn:Hfree;
        [|done].
      injection Hcreate as <- <-.
      destruct (decide (c0 = k)) as [->|Hne].
      - apply first_free_code_free in Hfree. congruence.
      - by rewrite getRoom_new_ne. }
    match type of Hstep with
    | context [upsertMember ?t ?u ?c ?p st1] =>
        destruct (related_upsertMember t u c p st1 k r Hr1)
          as (r' & Hr' & Hrel);
        destruct (upsertMember t u c p st1) as [st2 member]
    end.
    injection Hstep as <- <-. eauto.
  - unfold on_join_room in Hstep.
    destruct (getRoom st c) as [room|];
      [|injection Hstep as <- <-; eauto].
    destruct (password_rejected room password);
      [injection Hstep as <- <-; eauto|].
    match type of Hstep with
    | context [upsertMember ?t ?u ?c ?p st] =>
        destruct (related_upsertMember t u c p st k r Hr)
          as (r' & Hr' & Hrel);
        destruct (upsertMember t u c p st) as [st1 member]
    end.
    injection Hstep as <- <-. eauto.
  - unfold on_stroke in Hstep.
    destruct (negb (truthy _)); [injection Hstep as <- <-; eauto|].
    destruct (lookup_room st _) as [[c room]|];
      [|injection Hstep as <- <-; eauto].
    destruct (negb (isValidStroke stroke)); injection Hstep as <- <-;
      [eauto|].
    apply related_update_room; [|done]. intros r0. eauto.
  - unfold on_undo in Hstep.
    destruct strokeId as [| | | |strokeId| |];
      try (injection Hstep as <- <-; eauto; fail).
    destruct (negb (truthy _)); [injection Hstep as <- <-; eauto|].
    destruct (lookup_room st _) as [[c room]|];
      [|injection Hstep as <- <-; eauto].
    destruct (list_find _ (history room)) as [[index entry]|];
      injection Hstep as <- <-; [|eauto].
    apply related_update_room; [|done]. intros r0. simpl.
    assert (R r0 (set_lastActive (now o)
                    (set_history (delete index (history r0)) r0))) as Hbase
      by (eapply R_trans; [apply R_history|apply R_lastActive]).
    destruct (canvasData r0) as [data|];
      [destruct (startsWith "{" (trim data))|]; try done.
    eapply R_trans; [exact Hbase|apply R_canvasData].
  - injection Hstep as Heq. change st' with (st', out).1. rewrite <- Heq.
    rewrite on_request_snapshot_state. eauto.
  - unfold on_save_snapshot in Hstep.
    destruct (lookup_room st _) as [[c room]|];
      [|injection Hstep as <- <-; eauto].
    destruct snapshot as [| | | |snapshot| |];
      try (injection Hstep as <- <-; eauto; fail).
    destruct (startsWith "{" (trim snapshot) || _);
      injection Hstep as <- <-; [|eauto].
    apply related_update_room; [|done]. intros r0. eauto.
  - injection Hstep as Heq. change st' with (st', out).1. rewrite <- Heq.
    unfold on_disconnect.
    eapply related_leave_rooms; [apply R_refl|exact Hr].
Qed.
End RoomRelation.

(** X14: no socket event deletes a room or rewrites what was set at its
    creation.  A room found before an event that returns is found after
    it, under the same code, with the same [code], [passwordHash] and
    [createdAt]; a room emptied by a disconnect stays in the table. *)
Theorem rooms_outlive_events `{Bcrypt} sock o ev st st' out k r :
  handle sock o ev st = Some (st', out) →
  getRoom st k = Some r →
  ∃ r', getRoom st' k = Some r' ∧ same_identity r r'.
Proof.
  apply (related_handle same_identity); try done.
  intros r1 r2 r3 (? & ? & ?) (? & ? & ?). split_and!; congruence.
Qed.

Lemma rooms_outlive_events_witness :
  ∃ r',
    getRoom emptied_store "k3x9qz" = Some r'
    ∧ same_identity
        {| code := "k3x9qz"; passwordHash := None;
           members := [member_of "member-A" "sock-A" true 1000];
           createdAt := 1000; lastActive := 1000; history := [];
           canvasData := None; diagramData := None |} r'.
Proof.
  eapply (rooms_outlive_events (H := plain_bcrypt) "sock-A"
            (oracle_at 2000 "" "") disconnect created_store emptied_store
            _ "k3x9qz").
  - vm_compute. reflexivity.
  - vm_compute. reflexivity.
Defined.

Lemma upsertMember_other now uuid c' payload st c :
  c' ≠ c → getRoom (upsertMember now uuid c' payload st).1 c = getRoom st c.
Proof.
  intros Hne. unfold upsertMember.
  destruct (getRoom st c') as [room|]; [|done].
  destruct (list_find _ (members room)) as [[i bySocket]|]; simpl;
    by rewrite getRoom_update_room, decide_False.
Qed.

Lemma removeMemberBySocketId_other now c' sid st c :
  c' ≠ c → getRoom (removeMemberBySocketId now c' sid st).1 c = getRoom st c.
Proof.
  intros Hne. unfold removeMemberBySocketId.
  destruct (getRoom st c') as [room|]; [|done].
  destruct (list_find _ (members room)) as [[index removed]|]; [|done].
  simpl. by rewrite getRoom_update_room, decide_False.
Qed.

Lemma recovery_is_unicast room c e :
  io_to_emit c e ∉ send_recovery_state room.
Proof.
  unfold send_recovery_state, send_history. intros Hin.
  destruct (canvasData room) as [data|];
    [destruct (String.eqb data "")|];
    try destruct (0 <? length (history room));
    repeat (apply elem_of_cons in Hin as [Heq|Hin]; [discriminate|]);
    by apply elem_of_nil in Hin.
Qed.

(** X15: an event that carries a room key touches that room only.  Every
    room under another code is, after the event, exactly the room it was,
    and every broadcast of the event goes to the topic of that key. *)
Theorem events_stay_in_their_room `{Bcrypt} sock o ev st st' out v :
  handle sock o ev st = Some (st', out) →
  addressed ev = Some v →
  (∀ c, v ≠ JsString c → getRoom st' c = getRoom st c)
  ∧ (∀ c e, io_to_emit c e ∈ out → v = JsString c).
Proof.
  intros Hstep Hv.
  destruct ev as [password profile|c0 password profile
                 |codeParam roomCode stroke|codeParam roomCode strokeId
                 |codeParam roomCode|codeParam roomCode snapshot|];
    simpl in Hstep, Hv; try done; injection Hv as <-.
  - unfold on_join_room in Hstep.
    destruct (getRoom st c0) as [room|].
    2:{ injection Hstep as <- <-. split; [done|]. intros c e Hin.
        apply list_elem_of_singleton in Hin. discriminate. }
    destruct (password_rejected room password).
    { injection Hstep as <- <-. split; [done|]. intros c e Hin.
      apply list_elem_of_singleton in Hin. discriminate. }
    match type of Hstep with
    | context [upsertMember ?t ?u ?k ?p st] =>
        pose proof (upsertMember_other t u k p st) as Hother;
        destruct (upsertMember t u k p st) as [st1 member]
    end.
    injection Hstep as <- <-. split.
    + intros c Hne. apply Hother. congruence.
    + intros c e Hin. simpl in Hin.
      apply elem_of_cons in Hin as [Heq|Hin]; [discriminate|].
      apply elem_of_cons in Hin as [Heq|Hin]; [congruence|].
      apply elem_of_app in Hin as [Hin|Hin];
        [by apply recovery_is_unicast in Hin|].
      apply list_elem_of_singleton in Hin. discriminate.
  - unfold on_stroke in Hstep.
    destruct (negb (truthy _)).
    { injection Hstep as <- <-. split; [done|]. intros c e Hin.
      by apply elem_of_nil in Hin. }
    destruct (lookup_room st _) as [[c0 room]|] eqn:Hroom.
    2:{ injection Hstep as <- <-. split; [done|]. intros c e Hin.
        by apply elem_of_nil in Hin. }
    apply lookup_room_Some in Hroom as [Hkey _].
    destruct (negb (isValidStroke stroke)); injection Hstep as <- <-.
    { split; [done|]. intros c e Hin.
      apply list_elem_of_singleton in Hin. discriminate. }
    split.
    + intros c Hne. rewrite getRoom_update_room, decide_False; [done|].
      congruence.
    + intros c e Hin. apply list_elem_of_singleton in Hin. congruence.
  - unfold on_undo in Hstep.
    assert (st' = st ∧ out = [] → 
            (∀ c, js_or codeParam roomCode ≠ JsString c →
                  getRoom st' c = getRoom st c)
            ∧ (∀ c e, io_to_emit c e ∈ out →
                      js_or codeParam roomCode = JsString c)) as Hnoop.
    { intros [-> ->]. split; [done|]. intros c e Hin.
      by apply elem_of_nil in Hin. }
    destruct strokeId as [| | | |strokeId| |];
      try (injection Hstep as <- <-; by apply Hnoop).
    destruct (negb (truthy _));
      [injection Hstep as <- <-; by apply Hnoop|].
    destruct (lookup_room st _) as [[c0 room]|] eqn:Hroom;
      [|injection Hstep as <- <-; by apply Hnoop].
    apply lookup_room_Some in Hroom as [Hkey _].
    destruct (list_find _ (history room)) as [[index entry]|];
      injection Hstep as <- <-; [|by apply Hnoop].
    split.
    + intros c Hne. rewrite getRoom_update_room, decide_False; [done|].
      congruence.
    + intros c e Hin. apply list_elem_of_singleton in Hin. congruence.
  - unfold on_request_snapshot in Hstep.
    destruct (lookup_room st _) as [[c0 room]|];
      injection Hstep as <- <-; (split; [done|]); intros c e Hin.
    + by apply recovery_is_unicast in Hin.
    + by apply elem_of_nil in Hin.
  - unfold on_save_snapshot in Hstep.
    assert (∀ c e, io_to_emit c e ∈ @nil Effect →
                   js_or codeParam roomCode = JsString c) as Hnone.
    { intros c e Hin. by apply elem_of_nil in Hin. }
    destruct (lookup_room st _) as [[c0 room]|] eqn:Hroom;
      [|by injection Hstep as <- <-].
    apply lookup_room_Some in Hroom as [Hkey _].
    destruct snapshot as [| | | |snapshot| |];
      try by injection Hstep as <- <-.
    destruct (startsWith "{" (trim snapshot) || _);
      injection Hstep as <- <-; [|done].
    split; [|done].
    intros c Hne. rewrite getRoom_update_room, decide_False; [done|].
    congruence.
Qed.

Lemma events_stay_in_their_room_witness :
  (∀ c, JsString "k3x9qz" ≠ JsString c →
        getRoom drawn_store c = getRoom created_store c)
  ∧ (∀ c e,
       io_to_emit c e
       ∈ [io_to_emit "k3x9qz"
            (canvas_stroke (normalize (oracle_at 1500 "" "") stroke_s1))] →
       JsString "k3x9qz" = JsString c).
Proof.
  apply (events_stay_in_their_room (H := plain_bcrypt) "sock-A"
           (oracle_at 1500 "" "")
           (stroke_event (JsString "k3x9qz") JsUndefined stroke_s1)
           created_store drawn_store).
  - vm_compute. reflexivity.
  - reflexivity.
Defined.

(** ** The single host, while the room is occupied *)

Lemma removal_keeps_one_host now k sid st c room :
  getRoom st c = Some room →
  members room = [] ∨ exactly_one_host (members room) →
  ∃ room',
    getRoom (removeMemberBySocketId now k sid st).1 c = Some room'
    ∧ (members room' = [] ∨ exactly_one_host (members room')).
Proof.
  intros Hroom Hone.
  destruct (decide (k = c)) as [->|Hne];
    [|rewrite removeMemberBySocketId_other by done; eauto].
  unfold removeMemberBySocketId. rewrite Hroom.
  destruct (list_find _ (members room)) as [[index removed]|] eqn:Hfind;
    [|eauto].
  simpl. rewrite getRoom_update_room, decide_True, Hroom by done. simpl.
  eexists. split; [reflexivity|]. simpl.
  apply list_find_Some in Hfind as (Hi & _ & _).
  destruct Hone as [Hempty|Hone]; [by rewrite Hempty in Hi|].
  unfold exactly_one_host in *.
  pose proof (hosts_length_delete (members room) index removed Hi) as Hdel.
  destruct (isHost removed); simpl; [|right; lia].
  destruct (delete index (members room)) as [|m0 rest0] eqn:Hrest;
    [by left|].
  right. rewrite <- Hrest in *.
  destruct (promote_next_host_spec (delete index (members room)))
    as (j & m & Hj & _ & _ & ->); [by rewrite Hrest|].
  assert ((0 <? length (delete index (members room))) = true) as ->.
  { rewrite Hrest. done. }
  pose proof (hosts_length_insert _ j m (set_isHost true m) Hj) as Hins.
  assert (hosts (delete index (members room)) = []) as Hnone
    by (apply length_zero_iff_nil; lia).
  rewrite hosts_nil_iff in Hnone. rewrite (Hnone j m Hj) in Hins.
  simpl in Hins. lia.
Qed.

Lemma upsertMember_keeps_one_host now uuid k payload st c room :
  p_isHost payload = Some false →
  getRoom st c = Some room →
  exactly_one_host (members room) →
  ∃ room',
    getRoom (upsertMember now uuid k payload st).1 c = Some room'
    ∧ exactly_one_host (members room').
Proof.
  intros Hflag Hroom Hone.
  destruct (decide (k = c)) as [->|Hne];
    [|rewrite upsertMember_other by done; eauto].
  unfold upsertMember. rewrite Hroom, Hflag.
  destruct (list_find _ (members room)) as [[i bySocket]|] eqn:Hfind; simpl;
    rewrite getRoom_update_room, decide_True, Hroom by done; simpl;
    (eexists; split; [reflexivity|]); simpl; unfold exactly_one_host in *.
  - apply list_find_Some in Hfind as (Hi & _ & _).
    match goal with
    | |- context [<[i := ?m']> _] =>
        pose proof (hosts_length_insert (members room) i bySocket m' Hi)
          as Hins
    end.
    simpl in Hins. destruct (isHost bySocket); lia.
  - rewrite hosts_app, length_app, hosts_cons. simpl. lia.
Qed.

(** X16: a room that has exactly one host keeps exactly one host through
    every socket event that returns, for as long as it has a member: after
    the event the room is still there and has exactly one host, or the
    event was a disconnect and the room is empty. *)
Theorem one_host_while_occupied `{Bcrypt} sock o ev st st' out c room :
  handle sock o ev st = Some (st', out) →
  getRoom st c = Some room →
  exactly_one_host (members room) →
  ∃ room',
    getRoom st' c = Some room'
    ∧ (exactly_one_host (members room')
       ∨ (ev = disconnect ∧ members room' = [])).
Proof.
  intros Hstep Hroom Hone.
  assert (∀ (f : Room → Room) k,
            (∀ r, members (f r) = members r) →
            ∃ room', getRoom (update_room k f st) c = Some room'
              ∧ (exactly_one_host (members room')
                 ∨ (ev = disconnect ∧ members room' = []))) as Hframe.
  { intros f k Hf. rewrite getRoom_update_room, Hroom.
    case_decide; simpl; eexists; (split; [reflexivity|]); left;
      by rewrite ?Hf. }
  destruct ev as [password profile|c0 password profile
                 |codeParam roomCode stroke|codeParam roomCode strokeId
                 |codeParam roomCode|codeParam roomCode snapshot|];
    simpl in Hstep.
  - unfold on_create_room in Hstep.
    destruct (createRoom _ _ _ st) as [[st1 new]|] eqn:Hcreate; [|done].
    unfold createRoom in Hcreate.
    destruct (first_free_code st (codeDraws o)) as [c1|] eqn:Hfree; [|done].
    injection Hcreate as <- <-. simpl in Hstep.
    apply first_free_code_free in Hfree.
    assert (c1 ≠ c) as Hne by congruence.
    match type of Hstep with
    | context [upsertMember ?t ?u ?k ?p ?s] =>
        pose proof (upsertMember_other t u k p s c Hne) as Hother;
        destruct (upsertMember t u k p s) as [st2 member]
    end.
    injection Hstep as <- <-. simpl in Hother.
    rewrite Hother, getRoom_new_ne by done. eauto.
  - unfold on_join_room in Hstep.
    destruct (getRoom st c0) as [room0|];
      [|injection Hstep as <- <-; eauto].
    destruct (password_rejected room0 password);
      [injection Hstep as <- <-; eauto|].
    match type of Hstep with
    | context [upsertMember ?t ?u ?k ?p st] =>
        destruct (upsertMember_keeps_one_host t u k p st c room eq_refl
                    Hroom Hone) as (room' & Hroom' & Hone');
        destruct (upsertMember t u k p st) as [st1 member]
    end.
    injection Hstep as <- <-. eauto.
  - unfold on_stroke in Hstep.
    destruct (negb (truthy _)); [injection Hstep as <- <-; eauto|].
    destruct (lookup_room st _) as [[c0 room0]|];
      [|injection Hstep as <- <-; eauto].
    destruct (negb (isValidStroke stroke)); injection Hstep as <- <-;
      [eauto|].
    by apply Hframe.
  - unfold on_undo in Hstep.
    destruct strokeId as [| | | |strokeId| |];
      try (injection Hstep as <- <-; eauto; fail).
    destruct (negb (truthy _)); [injection Hstep as <- <-; eauto|].
    destruct (lookup_room st _) as [[c0 room0]|];
      [|injection Hstep as <- <-; eauto].
    destruct (list_find _ (history room0)) as [[index entry]|];
      injection Hstep as <- <-; [|eauto].
    apply Hframe. intros r. simpl.
    by destruct (canvasData r) as [data|];
      [destruct (startsWith "{" (trim data))|].
  - injection Hstep as Heq. change st' with (st', out).1. rewrite <- Heq.
    rewrite on_request_snapshot_state. eauto.
  - unfold on_save_snapshot in Hstep.
    destruct (lookup_room st _) as [[c0 room0]|];
      [|injection Hstep as <- <-; eauto].
    destruct snapshot as [| | | |snapshot| |];
      try (injection Hstep as <- <-; eauto; fail).
    destruct (startsWith "{" (trim snapshot) || _);
      injection Hstep as <- <-; [|eauto].
    by apply Hframe.
  - injection Hstep as Heq. change st' with (st', out).1. rewrite <- Heq.
    clear Heq Hframe. unfold on_disconnect.
    assert (∀ entries acc acc_out r,
              getRoom acc c = Some r →
              members r = [] ∨ exactly_one_host (members r) →
              ∃ room',
                getRoom (fold_left (leave_room sock o) entries
                           (acc, acc_out)).1 c = Some room'
                ∧ (members room' = [] ∨ exactly_one_host (members room')))
      as Hfold.
    { induction entries as [|entry entries IH];
        intros acc acc_out r Hr Hcase; simpl; [eauto|].
      unfold leave_room at 2. simpl.
      destruct (removal_keeps_one_host (now o) entry.1 sock acc c r Hr Hcase)
        as (r1 & Hr1 & Hcase1).
      destruct (removeMemberBySocketId _ _ _ acc) as [st1 [removed|]];
        simpl in Hr1; by eapply IH. }
    destruct (Hfold (listRooms st) st [] room Hroom (or_intror Hone))
      as (room' & Hroom' & [Hempty|Hone']); eauto.
Qed.

Lemma one_host_while_occupied_witness :
  ∃ room',
    getRoom (removeMemberBySocketId 3000 "k3x9qz" "sock-A"
               crowded_store).1 "k3x9qz" = Some room'
    ∧ (exactly_one_host (members room')
       ∨ (disconnect = disconnect ∧ members room' = [])).
Proof.
  eapply (one_host_while_occupied (H := plain_bcrypt) "sock-A"
            (oracle_at 3000 "" "") disconnect crowded_store _ _ "k3x9qz"
            crowded_room).
  - vm_compute. reflexivity.
  - reflexivity.
  - reflexivity.
Defined.

(** ** Strings *)

Section Strings.
Implicit Types (s t a b : string) (c : ascii).

Lemma append_cons c a b : String c a +:+ b = String c (a +:+ b).
Proof. reflexivity. Qed.

Lemma append_nil_r s : s +:+ "" = s.
Proof.
  induction s as [|c s IH]; [done|]. by rewrite append_cons, IH.
Qed.

Lemma append_assoc a b t : (a +:+ b) +:+ t = a +:+ (b +:+ t).
Proof.
  induction a as [|c a IH]; [done|]. by rewrite !append_cons, IH.
Qed.

Lemma length_append a b :
  String.length (a +:+ b) = String.length a + String.length b.
Proof.
  induction a as [|c a IH]; [done|]. rewrite append_cons. simpl.
  by rewrite IH.
Qed.

Lemma substring_all s : substring 0 (String.length s) s = s.
Proof. induction s as [|c s IH]; simpl; congruence. Qed.

Lemma substring_skip a b n :
  substring (String.length a) n (a +:+ b) = substring 0 n b.
Proof.
  induction a as [|c a IH]; [done|]. rewrite append_cons. simpl. apply IH.
Qed.

Lemma slice0_length n s :
  String.length (slice0 n s) = n `min` String.length s.
Proof.
  unfold slice0. revert n. induction s as [|c s IH]; intros [|n]; simpl;
    try done.
  by rewrite IH.
Qed.

Lemma slice0_no_break n s : no_break s = true → no_break (slice0 n s) = true.
Proof.
  unfold slice0. revert n. induction s as [|c s IH]; intros [|n]; simpl;
    try done.
  intros Hs. apply andb_true_iff in Hs as [Hc Hs].
  apply andb_true_iff. split; [done|]. by apply IH.
Qed.

Lemma collapse_breaks_no_break in_run s :
  no_break (collapse_breaks in_run s) = true.
Proof.
  revert in_run. induction s as [|c s IH]; intros in_run; simpl; [done|].
  destruct (is_break c) eqn:Hc.
  - destruct in_run; simpl; by rewrite ?IH.
  - simpl. by rewrite Hc, IH.
Qed.

Lemma string_rev_acc acc s : string_rev acc s = string_rev "" s +:+ acc.
Proof.
  revert acc. induction s as [|c s IH]; intros acc; simpl; [done|].
  rewrite (IH (String c acc)), (IH (String c "")).
  by rewrite append_assoc.
Qed.

Lemma string_rev_append a b :
  string_rev "" (a +:+ b) = string_rev "" b +:+ string_rev "" a.
Proof.
  induction a as [|c a IH]; simpl; [by rewrite append_nil_r|].
  rewrite (string_rev_acc (String c "") (a +:+ b)), IH.
  rewrite (string_rev_acc (String c "") a). by rewrite append_assoc.
Qed.

Lemma string_rev_involutive s : string_rev "" (string_rev "" s) = s.
Proof.
  induction s as [|c s IH]; simpl; [done|].
  rewrite (string_rev_acc (String c "") s), string_rev_append, IH. done.
Qed.

Lemma trimStart_clean s : starts_clean (trimStart s) = true.
Proof.
  induction s as [|c s IH]; simpl; [done|].
  destruct (is_white_space c) eqn:Hc; [done|]. simpl. by rewrite Hc.
Qed.

Lemma trimStart_id s : starts_clean s = true → trimStart s = s.
Proof.
  destruct s as [|c s]; simpl; [done|].
  by destruct (is_white_space c).
Qed.

Lemma trimStart_suffix s : ∃ w, s = w +:+ trimStart s.
Proof.
  induction s as [|c s [w IH]]; simpl; [by exists ""|].
  destruct (is_white_space c).
  - exists (String c w). rewrite append_cons. congruence.
  - by exists "".
Qed.

Lemma starts_clean_prefix a b :
  starts_clean (a +:+ b) = true → a ≠ ""%string → starts_clean a = true.
Proof. by destruct a. Qed.

Lemma trim_ends_clean s : starts_clean (string_rev "" (trim s)) = true.
Proof.
  unfold trim. rewrite string_rev_involutive. apply trimStart_clean.
Qed.

Lemma trim_starts_clean s : starts_clean (trim s) = true.
Proof.
  unfold trim.
  destruct (trimStart_suffix (string_rev "" (trimStart s))) as [w Hw].
  set (u := trimStart (string_rev "" (trimStart s))) in *.
  destruct (string_rev "" u) as [|c x] eqn:Hu; [done|].
  apply (starts_clean_prefix _ (string_rev "" w)); [|done].
  rewrite <- Hu, <- string_rev_append, <- Hw, string_rev_involutive.
  apply trimStart_clean.
Qed.

Lemma trim_fixed s :
  starts_clean s = true → starts_clean (string_rev "" s) = true →
  trim s = s.
Proof.
  intros Hstart Hend. unfold trim.
  rewrite (trimStart_id s Hstart), (trimStart_id _ Hend).
  apply string_rev_involutive.
Qed.

Lemma trim_idempotent s : trim (trim s) = trim s.
Proof. apply trim_fixed; [apply trim_starts_clean|apply trim_ends_clean]. Qed.

Lemma startsWith_not_empty p s :
  p ≠ ""%string → startsWith p s = true → s ≠ ""%string.
Proof. intros Hp Hs ->. by destruct p. Qed.
End Strings.

(** ** The stored snapshot *)

(** X17: in every reachable store a stored snapshot is the trimmed string
    it was saved as: trimming it changes nothing and it starts with [{] or
    [data:image/].  So the test [canvasData.trim().startsWith("{")] of the
    undo handler is a test on the stored value itself, and saving the
    snapshot a room hands out stores that same snapshot again. *)
Theorem stored_snapshot_is_trimmed `{Bcrypt} st c room d :
  reachable st → getRoom st c = Some room → canvasData room = Some d →
  snapshot_wf d
  ∧ snapshot_after_undo (Some d) = (if startsWith "{" d then None else Some d)
  ∧ ∀ sock o codeParam roomCode,
      js_or codeParam roomCode = JsString c →
      ∃ st' room',
        handle sock o (save_snapshot codeParam roomCode (JsString d)) st
        = Some (st', [])
        ∧ getRoom st' c = Some room'
        ∧ canvasData room' = Some d.
Proof.
  intros Hreach Hget Hd.
  assert (snapshot_wf d) as [Htrim Hprefix].
  { pose proof (reachable_room
                  (λ r, ∀ d, canvasData r = Some d → snapshot_wf d)) as Hinv.
    eapply Hinv; try done.
    intros snapshot r Hstart _ d0 [= <-]. split; [apply trim_idempotent|done]. }
  split_and!; [done|by simpl; rewrite Htrim|].
  intros sock o codeParam roomCode Hkey. simpl. unfold on_save_snapshot.
  rewrite Hkey. simpl. rewrite Hget. simpl.
  rewrite Htrim, Hprefix.
  eexists _, _. split; [reflexivity|].
  rewrite getRoom_update_room, decide_True, Hget by done. done.
Qed.

Lemma stored_snapshot_is_trimmed_witness :
  snapshot_wf "{}"
  ∧ snapshot_after_undo (Some "{}"%string)
    = (if startsWith "{" "{}" then None else Some "{}"%string)
  ∧ ∀ sock o codeParam roomCode,
      js_or codeParam roomCode = JsString "k3x9qz" →
      ∃ st' room',
        handle (H := plain_bcrypt) sock o
          (save_snapshot codeParam roomCode (JsString "{}")) saved_store
        = Some (st', [])
        ∧ getRoom st' "k3x9qz" = Some room'
        ∧ canvasData room' = Some "{}"%string.
Proof.
  apply (stored_snapshot_is_trimmed (H := plain_bcrypt) saved_store
           "k3x9qz"
           {| code := "k3x9qz"; passwordHash := None;
              members := [member_of "member-A" "sock-A" true 1000];
              createdAt := 1000; lastActive := 1700;
              history := [normalize (oracle_at 1500 "" "") stroke_s1];
              canvasData := Some "{}"%string; diagramData := None |}).
  - apply saved_store_reachable.
  - vm_compute. reflexivity.
  - reflexivity.
Defined.

(** ** Creating and joining *)

Lemma first_free_code_is_Some st draws :
  is_Some (first_free_code st draws)
  ↔ ∃ d, d ∈ draws ∧ getRoom st d = None.
Proof.
  induction draws as [|d draws IH]; simpl.
  - split; [by intros [? ?]|]. intros (d & Hin & _).
    by apply elem_of_nil in Hin.
  - unfold has. case_bool_decide as Hd.
    + rewrite IH. split; intros (d' & Hin & Hfree).
      * exists d'. split; [by right|done].
      * exists d'. split; [|done].
        apply elem_of_cons in Hin as [->|Hin]; [|done].
        rewrite Hfree in Hd. by destruct Hd.
    + split; [|eauto]. intros _. exists d. split; [by left|].
      by apply eq_None_not_Some.
Qed.

Lemma first_free_code_elem st draws c :
  first_free_code st draws = Some c → c ∈ draws.
Proof.
  induction draws as [|d draws IH]; simpl; [done|].
  destruct (has st d); [right; auto|]. intros [= ->]. by left.
Qed.

(** X18: [create-room] answers exactly when one of the drawn codes is
    free.  When it does, the store has a new room under a code that no
    room had; the room has one member, the caller, who is host; its history
    and snapshot are empty; the connection joins the topic, the member list
    is broadcast to it and the answer carries [isHost: true] with the
    caller as [self]; and every room that was there is untouched. *)
Theorem create_room_makes_host `{Bcrypt} sock o password profile st :
  (is_Some (handle sock o (create_room password profile) st)
   ↔ ∃ d, d ∈ codeDraws o ∧ getRoom st d = None)
  ∧ (∀ st' out,
       handle sock o (create_room password profile) st = Some (st', out) →
       ∃ c room self,
         c ∈ codeDraws o
         ∧ getRoom st c = None
         ∧ getRoom st' c = Some room
         ∧ code room = c
         ∧ members room = [self]
         ∧ socketId self = sock
         ∧ isHost self = true
         ∧ memberId self = memberUuid o
         ∧ joinedAt self = now o
         ∧ history room = []
         ∧ canvasData room = None
         ∧ out = [socket_join c;
                  io_to_emit c (room_members [toSnapshotOf self]);
                  callback (ack_success c true [toSnapshotOf self]
                              (Some (toSnapshotOf self)))]
         ∧ (∀ k r, getRoom st k = Some r → getRoom st' k = Some r)).
Proof.
  split.
  - rewrite <- first_free_code_is_Some. simpl.
    unfold on_create_room, createRoom.
    destruct (first_free_code st (codeDraws o)) as [c|]; simpl.
    + match goal with
      | |- context [upsertMember ?t ?u ?k ?p ?s] =>
          destruct (upsertMember t u k p s) as [st2 member]
      end.
      split; eauto.
    + split; by intros [? ?].
  - intros st' out. simpl. unfold on_create_room, createRoom.
    destruct (first_free_code st (codeDraws o)) as [c|] eqn:Hfree; [|done].
    pose proof (first_free_code_elem _ _ _ Hfree) as Hin.
    apply first_free_code_free in Hfree. simpl.
    set (room0 := {| code := c; passwordHash := _; members := [];
                     createdAt := now o; lastActive := now o;
                     history := []; canvasData := None;
                     diagramData := None |}).
    set (st1 := {| rooms := rooms st ++ [(c, room0)] |}).
    assert (getRoom st1 c = Some room0) as Hnew by by apply getRoom_new.
    unfold upsertMember. rewrite Hnew. simpl.
    intros [= <- <-].
    eexists c, _, _. split; [done|]. split; [done|].
    split.
    { rewrite getRoom_update_room, decide_True, Hnew by done. reflexivity. }
    simpl. split_and!; try done.
    + unfold emitMembers, getMembersSnapshot.
      rewrite getRoom_update_room, decide_True, Hnew by done. done.
    + intros k r Hr.
      assert (c ≠ k) as Hne by congruence.
      rewrite getRoom_update_room, decide_False by done.
      unfold st1. by rewrite getRoom_new_ne.
Qed.

Lemma create_room_makes_host_witness :
  ∃ c room self,
    c ∈ ["k3x9qz"%string]
    ∧ getRoom empty_store c = None
    ∧ getRoom created_store c = Some room
    ∧ code room = c
    ∧ members room = [self]
    ∧ socketId self = "sock-A"%string
    ∧ isHost self = true
    ∧ memberId self = "member-A"%string
    ∧ joinedAt self = 1000%Z
    ∧ history room = []
    ∧ canvasData room = None
    ∧ [socket_join "k3x9qz";
       io_to_emit "k3x9qz"
         (room_members
            [toSnapshotOf (member_of "member-A" "sock-A" true 1000)]);
       callback (ack_success "k3x9qz" true
                   [toSnapshotOf (member_of "member-A" "sock-A" true 1000)]
                   (Some (toSnapshotOf
                            (member_of "member-A" "sock-A" true 1000))))]
      = [socket_join c;
         io_to_emit c (room_members [toSnapshotOf self]);
         callback (ack_success c true [toSnapshotOf self]
                     (Some (toSnapshotOf self)))]
    ∧ (∀ k r, getRoom empty_store k = Some r →
              getRoom created_store k = Some r).
Proof.
  destruct (create_room_makes_host (H := plain_bcrypt) "sock-A"
              (oracle_at 1000 "k3x9qz" "member-A") None None empty_store)
    as [_ Hmade].
  apply Hmade. vm_compute. reflexivity.
Defined.

(** X19: what [join-room] does past its password gate.  With nothing
    handled in between, the handler is the rest of its body run in the
    store it read the room from; a room with no password hash has no
    [await], so this is its only case.  When the room is in the table as
    the handler goes on, the caller is a member afterwards: a connection
    that was not a member is appended as a new member that is not host; a
    connection that was a member is updated at the place it had, with its
    [memberId], [clientId], [joinedAt] and host flag kept.  The room keeps
    its history and snapshot, [lastActive] is stamped, and the answer
    carries the member list that was broadcast, with the caller as [self].
    When the room has been deleted during the [await], no member is added,
    the store is as it was, an empty member list is broadcast, and the
    answer is still a success, with no [self] and no member. *)
Theorem join_room_admits `{Bcrypt} sock o c profile st :
  (∀ password room,
     getRoom st c = Some room →
     password_rejected room password = false →
     handle sock o (join_room c password profile) st
     = Some (join_room_after_await sock o c profile room st))
  ∧ (∀ captured room,
       getRoom st c = Some room →
       ∃ st' room' self,
         join_room_after_await sock o c profile captured st
         = (st',
            [socket_join c;
             io_to_emit c (room_members (toSnapshotOf <$> members room'))]
            ++ send_recovery_state captured
            ++ [callback (ack_success c (isHost self)
                            (toSnapshotOf <$> members room')
                            (Some (toSnapshotOf self)))])
         ∧ getRoom st' c = Some room'
         ∧ self ∈ members room'
         ∧ socketId self = sock
         ∧ lastActive room' = now o
         ∧ history room' = history room
         ∧ canvasData room' = canvasData room
         ∧ (sock ∉ socketId <$> members room →
            members room' = members room ++ [self]
            ∧ isHost self = false
            ∧ memberId self = memberUuid o
            ∧ joinedAt self = now o)
         ∧ (∀ i was,
              list_find (λ m, socketId m = sock) (members room)
              = Some (i, was) →
              members room' = <[i := self]> (members room)
              ∧ memberId self = memberId was
              ∧ clientId self = clientId was
              ∧ joinedAt self = joinedAt was
              ∧ isHost self = isHost was))
  ∧ (∀ captured,
       getRoom st c = None →
       join_room_after_await sock o c profile captured st
       = (st,
          [socket_join c; io_to_emit c (room_members [])]
          ++ send_recovery_state captured
          ++ [callback (ack_success c false [] None)])).
Proof.
  split_and!.
  - intros password room Hroom Hgate. simpl.
    unfold on_join_room, join_room_after_await. by rewrite Hroom, Hgate.
  - intros captured room Hroom. unfold join_room_after_await, upsertMember.
    rewrite Hroom. simpl.
    destruct (list_find (λ member, socketId member = sock) (members room))
      as [[i bySocket]|] eqn:Hfind; simpl.
    + apply list_find_Some in Hfind as (Hi & Hsid & _).
      lazymatch goal with
      | |- context [update_room c ?f st] =>
          lazymatch goal with
          | |- context [<[i := ?m]> _] =>
              exists (update_room c f st), (f room), m
          end
      end.
      unfold emitMembers, getMembersSnapshot.
      rewrite getRoom_update_room, decide_True, Hroom by done. simpl.
      split; [reflexivity|]. split; [reflexivity|].
      split.
      { apply list_elem_of_lookup. exists i.
        apply list_lookup_insert_eq. by eapply lookup_lt_Some. }
      split_and!; try done.
      * intros Hnot. exfalso. apply Hnot. apply list_elem_of_fmap.
        exists bySocket. split; [done|]. by eapply list_elem_of_lookup_2.
      * by intros i' was [= <- <-].
    + apply list_find_None in Hfind. rewrite Forall_forall in Hfind.
      lazymatch goal with
      | |- context [update_room c ?f st] =>
          lazymatch goal with
          | |- context [members _ ++ [?m]] =>
              exists (update_room c f st), (f room), m
          end
      end.
      unfold emitMembers, getMembersSnapshot.
      rewrite getRoom_update_room, decide_True, Hroom by done. simpl.
      split; [reflexivity|]. split; [reflexivity|].
      split.
      { apply elem_of_app. right. by apply list_elem_of_singleton. }
      by split_and!.
  - intros captured Hnone. unfold join_room_after_await, upsertMember.
    rewrite Hnone. simpl. unfold emitMembers, getMembersSnapshot.
    by rewrite Hnone.
Qed.

Lemma join_room_admits_witness :
  handle (H := plain_bcrypt) "sock-B" (oracle_at 3000 "" "member-B")
    (join_room "k3x9qz" (Some "secret"%string) None) guarded_store
  = Some (join_room_after_await "sock-B" (oracle_at 3000 "" "member-B")
            "k3x9qz" None
            {| code := "k3x9qz"; passwordHash := Some "salt$secret"%string;
               members := [member_of "member-A" "sock-A" true 1000];
               createdAt := 1000; lastActive := 1000; history := [];
               canvasData := None; diagramData := None |}
            guarded_store)
  ∧ join_room_after_await "sock-B" (oracle_at 3601002 "" "member-B")
      "k3x9qz" None
      {| code := "k3x9qz"; passwordHash := Some "salt$secret"%string;
         members := [member_of "member-A" "sock-A" true 1000];
         createdAt := 1000; lastActive := 1000; history := [];
         canvasData := None; diagramData := None |}
      guarded_swept_store
    = (guarded_swept_store,
       [socket_join "k3x9qz"; io_to_emit "k3x9qz" (room_members []);
        callback (ack_success "k3x9qz" false [] None)]).
Proof.
  split.
  - apply (join_room_admits (H := plain_bcrypt) "sock-B"
             (oracle_at 3000 "" "member-B") "k3x9qz" None guarded_store).
    + vm_compute. reflexivity.
    + vm_compute. reflexivity.
  - apply (join_room_admits (H := plain_bcrypt) "sock-B"
             (oracle_at 3601002 "" "member-B") "k3x9qz" None
             guarded_swept_store).
    vm_compute. reflexivity.
Defined.

(** ** The profile normaliser *)

Section Profile.
Implicit Types (o : Oracle) (s v : string).

Lemma pickRandom_elem i (items : list string) :
  items ≠ [] → pickRandom i items ∈ items.
Proof.
  intros Hne. unfold pickRandom. destruct (items !! i) as [s|] eqn:Hi.
  - by eapply list_elem_of_lookup_2.
  - destruct items as [|s items]; [done|]. simpl. left.
Qed.

Lemma random_name_wf o : name_wf (random_name o) = true.
Proof.
  assert (forallb (λ a, forallb (λ n, name_wf (a +:+ " " +:+ n)) NOUNS)
            ADJECTIVES = true) as Hall by (vm_compute; reflexivity).
  rewrite forallb_forall in Hall.
  assert (In (pickRandom (adjectivePick o) ADJECTIVES) ADJECTIVES) as Ha
    by by apply list_elem_of_In, pickRandom_elem.
  assert (In (pickRandom (nounPick o) NOUNS) NOUNS) as Hn
    by by apply list_elem_of_In, pickRandom_elem.
  specialize (Hall _ Ha). rewrite forallb_forall in Hall.
  apply (Hall _ Hn).
Qed.

Lemma sanitizeDisplayName_wf o value :
  name_wf (sanitizeDisplayName o value) = true.
Proof.
  unfold sanitizeDisplayName.
  destruct value as [v|]; [|apply random_name_wf].
  cbv zeta.
  destruct (2 <=? String.length (collapse_breaks false (trim v))) eqn:Hlen;
    [|apply random_name_wf].
  apply Nat.leb_le in Hlen. unfold name_wf.
  rewrite slice0_length, slice0_no_break
    by apply collapse_breaks_no_break.
  rewrite andb_true_r. apply andb_true_iff.
  split; apply Nat.leb_le; lia.
Qed.

Lemma sanitizeAvatar_nonempty o value : sanitizeAvatar o value ≠ ""%string.
Proof.
  assert (pickRandom (avatarPick o) AVATARS ≠ ""%string) as Hpick.
  { assert (forallb (λ a, negb (String.eqb a "")) AVATARS = true) as Hall
      by (vm_compute; reflexivity).
    rewrite forallb_forall in Hall.
    assert (In (pickRandom (avatarPick o) AVATARS) AVATARS) as Ha
      by by apply list_elem_of_In, pickRandom_elem.
    specialize (Hall _ Ha). apply negb_true_iff, String.eqb_neq in Hall.
    done. }
  unfold sanitizeAvatar. destruct value as [v|]; [|done].
  destruct (0 <? _) eqn:Hlen; [|done].
  apply Nat.ltb_lt in Hlen. intros Hempty.
  apply (f_equal String.length) in Hempty.
  rewrite slice0_length in Hempty.
  change (String.length "") with 0 in Hempty. lia.
Qed.

Lemma slice0_short n s : String.length s ≤ n → slice0 n s = s.
Proof.
  unfold slice0. revert n. induction s as [|c s IH]; intros [|n]; simpl;
    try done; try lia.
  intros Hlen. f_equal. apply IH. lia.
Qed.

Lemma collapse_breaks_clean s :
  no_break s = true → collapse_breaks false s = s.
Proof.
  induction s as [|c s IH]; simpl; [done|].
  intros Hs. apply andb_true_iff in Hs as [Hc Hs].
  apply negb_true_iff in Hc. rewrite Hc. f_equal. by apply IH.
Qed.

End Profile.

(** X20: whatever a client sends as its profile, [buildProfile] hands out
    a display name of two to sixty code units with no CR, LF or TAB, an
    avatar that is not empty and of at most four code units when it was
    taken from the payload, and a client id that is either the fresh UUID
    or six to sixty-four code units long. *)
Theorem buildProfile_bounds o profile :
  name_wf (prof_displayName (buildProfile o profile)) = true
  ∧ prof_avatar (buildProfile o profile) ≠ ""%string
  ∧ (prof_avatar (buildProfile o profile) = pickRandom (avatarPick o) AVATARS
     ∨ String.length (prof_avatar (buildProfile o profile)) ≤ 4)
  ∧ (prof_clientId (buildProfile o profile) = clientUuid o
     ∨ 6 ≤ String.length (prof_clientId (buildProfile o profile)) ≤ 64).
Proof.
  split; [apply sanitizeDisplayName_wf|].
  split; [apply sanitizeAvatar_nonempty|].
  split.
  - simpl. unfold sanitizeAvatar.
    destruct (profile ≫= pp_avatar) as [v|]; [|by left].
    destruct (0 <? _); [|by left]. right. rewrite slice0_length. lia.
  - simpl. unfold sanitizeClientId.
    destruct (6 <=? _) eqn:Hlen; [|by left]. right.
    apply Nat.leb_le in Hlen. rewrite slice0_length. lia.
Qed.

(** X21: a profile that is already in the form [buildProfile] hands out
    passes through unchanged: a client id, a display name and an avatar
    with no white space at either end, of six to sixty-four, two to sixty
    and one to four code units, the name without CR, LF or TAB. *)
Theorem buildProfile_keeps_clean o cid name av :
  trim cid = cid → 6 ≤ String.length cid ≤ 64 →
  trim name = name → name_wf name = true →
  trim av = av → 1 ≤ String.length av ≤ 4 →
  buildProfile o (Some {| pp_clientId := Some cid;
                          pp_displayName := Some name;
                          pp_avatar := Some av |})
  = {| prof_clientId := cid; prof_displayName := name; prof_avatar := av |}.
Proof.
  intros Hcid Hcid_len Hname Hname_wf Hav Hav_len.
  unfold name_wf in Hname_wf.
  apply andb_true_iff in Hname_wf as [Hlen Hbreak].
  apply andb_true_iff in Hlen as [Hmin Hmax].
  apply Nat.leb_le in Hmin, Hmax.
  change (buildProfile o _)
    with {| prof_clientId := sanitizeClientId o (Some cid);
            prof_displayName := sanitizeDisplayName o (Some name);
            prof_avatar := sanitizeAvatar o (Some av) |}.
  f_equal.
  - unfold sanitizeClientId. cbv zeta. rewrite Hcid.
    destruct (6 <=? String.length cid) eqn:Hlen;
      [|apply Nat.leb_gt in Hlen; lia].
    apply slice0_short. lia.
  - unfold sanitizeDisplayName. cbv zeta.
    rewrite Hname, collapse_breaks_clean by done.
    destruct (2 <=? String.length name) eqn:Hlen;
      [|apply Nat.leb_gt in Hlen; lia].
    by apply slice0_short.
  - unfold sanitizeAvatar. rewrite Hav.
    destruct (0 <? String.length av) eqn:Hlen;
      [|apply Nat.ltb_ge in Hlen; lia].
    apply slice0_short. lia.
Qed.

Lemma buildProfile_keeps_clean_witness :
  buildProfile (oracle_at 1000 "k3x9qz" "member-A")
    (Some {| pp_clientId := Some "client-0001"%string;
             pp_displayName := Some "Ada Lovelace"%string;
             pp_avatar := Some "AL"%string |})
  = {| prof_clientId := "client-0001"; prof_displayName := "Ada Lovelace";
       prof_avatar := "AL" |}.
Proof.
  apply buildProfile_keeps_clean.
  - vm_compute. reflexivity.
  - simpl. lia.
  - vm_compute. reflexivity.
  - vm_compute. reflexivity.
  - vm_compute. reflexivity.
  - simpl. lia.
Defined.

(** ** What members show of their profile *)

Section MemberProfiles.
Context `{Bcrypt}.

Lemma members_wf_upsertMember now uuid c payload st :
  name_wf (p_displayName payload) = true →
  p_avatar payload ≠ ""%string →
  Forall (λ kv, Forall member_wf (members kv.2)) (rooms st) →
  Forall (λ kv, Forall member_wf (members kv.2))
    (rooms (upsertMember now uuid c payload st).1).
Proof.
  intros Hname Havatar Hall. unfold upsertMember.
  destruct (getRoom st c) as [room|]; [|done].
  destruct (list_find _ (members room)) as [[i bySocket]|]; simpl;
    (apply (rooms_Forall_update_room (λ r, Forall member_wf (members r)));
     [done|]);
    intros r Hr; simpl.
  - by apply Forall_insert.
  - apply Forall_app_2; [done|]. by apply Forall_singleton.
Qed.

Lemma members_wf_promote_next_host ms :
  Forall member_wf ms → Forall member_wf (promote_next_host ms).
Proof.
  intros Hms. unfold promote_next_host.
  destruct (nextHost ms) as [[k m]|]; [|done].
  apply Forall_alter; [done|]. by intros [] _.
Qed.

Lemma members_wf_removeMemberBySocketId now c sid st :
  Forall (λ kv, Forall member_wf (members kv.2)) (rooms st) →
  Forall (λ kv, Forall member_wf (members kv.2))
    (rooms (removeMemberBySocketId now c sid st).1).
Proof.
  intros Hall. unfold removeMemberBySocketId.
  destruct (getRoom st c) as [room|] eqn:Hroom; [|done].
  destruct (list_find _ (members room)) as [[index removed]|]; [|done].
  simpl.
  apply (rooms_Forall_update_room (λ r, Forall member_wf (members r)));
    [done|].
  intros r _. simpl.
  assert (Forall member_wf (members room)) as Hroom_wf.
  { apply getRoom_Some in Hroom. rewrite Forall_forall in Hall.
    apply (Hall _ Hroom). }
  destruct (isHost removed && _).
  - by apply members_wf_promote_next_host, Forall_delete.
  - by apply Forall_delete.
Qed.

Lemma members_wf_createRoom now draws hash st st' room :
  Forall (λ kv, Forall member_wf (members kv.2)) (rooms st) →
  createRoom now draws hash st = Some (st', room) →
  Forall (λ kv, Forall member_wf (members kv.2)) (rooms st')
  ∧ members room = [].
Proof.
  intros Hall. unfold createRoom.
  destruct (first_free_code st draws) as [c|]; [|done].
  intros [= <- <-]. simpl. split; [|done].
  apply Forall_app_2; [done|]. by apply Forall_singleton.
Qed.

Lemma members_wf_step s st st' out :
  Forall (λ kv, Forall member_wf (members kv.2)) (rooms st) →
  step s st = Some (st', out) →
  Forall (λ kv, Forall member_wf (members kv.2)) (rooms st').
Proof.
  intros Hall. destruct s as [sock o ev|o|o]; simpl.
  - destruct ev as [password profile|c password profile
                   |codeParam roomCode stroke|codeParam roomCode strokeId
                   |codeParam roomCode|codeParam roomCode snapshot|]; simpl.
    + unfold on_create_room.
      destruct (createRoom _ _ _ st) as [[st1 room]|] eqn:Hcreate; [|done].
      apply members_wf_createRoom in Hcreate as [Hcreate _]; [|done].
      match goal with
      | |- context [upsertMember ?t ?u ?k ?p st1] =>
          pose proof (members_wf_upsertMember t u k p st1
                        (sanitizeDisplayName_wf _ _)
                        (sanitizeAvatar_nonempty _ _) Hcreate) as Hup;
          destruct (upsertMember t u k p st1) as [st2 member]
      end.
      by intros [= <- <-].
    + unfold on_join_room.
      destruct (getRoom st c) as [room|]; [|by intros [= <- <-]].
      destruct (password_rejected room password); [by intros [= <- <-]|].
      match goal with
      | |- context [upsertMember ?t ?u ?k ?p st] =>
          pose proof (members_wf_upsertMember t u k p st
                        (sanitizeDisplayName_wf _ _)
                        (sanitizeAvatar_nonempty _ _) Hall) as Hup;
          destruct (upsertMember t u k p st) as [st1 member]
      end.
      by intros [= <- <-].
    + unfold on_stroke.
      destruct (negb (truthy _)); [by intros [= <- <-]|].
      destruct (lookup_room st _) as [[c room]|]; [|by intros [= <- <-]].
      destruct (isValidStroke stroke); simpl; intros [= <- <-]; [|done].
      by apply (rooms_Forall_update_room
                  (λ r, Forall member_wf (members r))).
    + unfold on_undo.
      destruct strokeId as [| | | |strokeId| |];
        try by intros [= <- <-].
      destruct (negb (truthy _)); [by intros [= <- <-]|].
      destruct (lookup_room st _) as [[c room]|]; [|by intros [= <- <-]].
      destruct (list_find _ (history room)) as [[index entry]|];
        intros [= <- <-]; [|done].
      apply (rooms_Forall_update_room (λ r, Forall member_wf (members r)));
        [done|].
      intros r Hr. simpl. destruct (canvasData r) as [data|]; [|done].
      by destruct (startsWith "{" (trim data)).
    + intros [= Heq]. change st' with (st', out).1. rewrite <- Heq.
      by rewrite on_request_snapshot_state.
    + unfold on_save_snapshot.
      destruct (lookup_room st _) as [[c room]|]; [|by intros [= <- <-]].
      destruct snapshot as [| | | |snapshot| |]; try by intros [= <- <-].
      destruct (startsWith "{" (trim snapshot) || _);
        intros [= <- <-]; [|done].
      by apply (rooms_Forall_update_room
                  (λ r, Forall member_wf (members r))).
    + intros [= Heq]. change st' with (st', out).1. rewrite <- Heq.
      clear Heq. unfold on_disconnect. generalize (listRooms st).
      generalize (@nil Effect). intros acc entries. revert st acc Hall.
      induction entries as [|entry entries IH]; intros st acc Hall; [done|].
      simpl. unfold leave_room at 2. simpl.
      pose proof (members_wf_removeMemberBySocketId (now o) entry.1 sock
                    st Hall).
      destruct (removeMemberBySocketId _ _ _ st) as [st1 [removed|]];
        by apply IH.
  - destruct (createRoom _ _ _ st) as [[st1 room]|] eqn:Hcreate; [|done].
    simpl. intros [= <- <-]. by eapply members_wf_createRoom.
  - intros [= <- <-]. unfold cleanupInactiveRooms. simpl.
    rewrite Forall_forall in Hall. apply Forall_forall.
    intros kv Hin. apply list_elem_of_filter in Hin as [_ Hin]. auto.
Qed.

End MemberProfiles.

(** X22: in every state the server can reach, every member of every room
    shows a display name of two to sixty code units with no CR, LF or TAB
    and an avatar that is not empty, and so does every entry of the member
    list the room hands out: the handlers pass [upsertMember] nothing but
    what [buildProfile] made. *)
Theorem member_profiles_well_formed `{Bcrypt} st c room :
  reachable st → getRoom st c = Some room →
  Forall member_wf (members room)
  ∧ Forall (λ s, name_wf (snap_displayName s) = true
                 ∧ snap_avatar s ≠ ""%string)
      (getMembersSnapshot st c).
Proof.
  intros Hreach Hget.
  assert (Forall (λ kv, Forall member_wf (members kv.2)) (rooms st))
    as Hall.
  { clear Hget. induction Hreach as [|s st st' out _ IH Hstep].
    - constructor.
    - by eapply members_wf_step. }
  assert (Forall member_wf (members room)) as Hroom.
  { apply getRoom_Some in Hget. rewrite Forall_forall in Hall.
    apply (Hall _ Hget). }
  split; [done|].
  unfold getMembersSnapshot. rewrite Hget. by apply Forall_fmap.
Qed.

Lemma member_profiles_well_formed_witness :
  ∃ room,
    getRoom drawn_store "k3x9qz" = Some room
    ∧ Forall member_wf (members room)
    ∧ Forall (λ s, name_wf (snap_displayName s) = true
                   ∧ snap_avatar s ≠ ""%string)
        (getMembersSnapshot drawn_store "k3x9qz").
Proof.
  eexists. split; [vm_compute; reflexivity|].
  apply (member_profiles_well_formed (H := plain_bcrypt) drawn_store
           "k3x9qz").
  - apply drawn_store_reachable.
  - vm_compute. reflexivity.
Defined.

(** ** The password gate *)

Lemma plain_bcrypt_verifies : bcrypt_verifies (H := plain_bcrypt).
Proof.
  intros pw s. simpl.
  rewrite !length_append.
  replace (String.length s + (String.length "$" + String.length pw)
           - String.length pw - 1) with (String.length s)
    by (simpl; lia).
  rewrite substring_skip.
  replace (String.length pw + 1) with (String.length ("$" +:+ pw))
    by (rewrite length_append; simpl; lia).
  rewrite substring_all. apply String.eqb_refl.
Qed.

(** X23: provided a password verifies against the hashes made of it, the
    room [create-room] makes admits the password it was made with.  Made
    with no password, or with the empty one, the room has no hash and its
    gate rejects nothing; made with a password, the room holds the hash of
    that password under the drawn salt.  A room made by the REST endpoint
    has no hash and no member. *)
Theorem creator_password_opens `{Bcrypt} :
  bcrypt_verifies →
  (∀ sock o password profile st st' out,
     handle sock o (create_room password profile) st = Some (st', out) →
     ∃ c room,
       getRoom st c = None
       ∧ getRoom st' c = Some room
       ∧ password_rejected room password = false
       ∧ (nonempty password = false →
          passwordHash room = None
          ∧ ∀ pw, password_rejected room pw = false)
       ∧ (nonempty password = true →
          passwordHash room
          = Some (bcrypt_hash (supplied password) (salt o))))
  ∧ (∀ o st st' out,
       step (http_create_room o) st = Some (st', out) →
       ∃ c room,
         getRoom st c = None
         ∧ getRoom st' c = Some room
         ∧ members room = []
         ∧ ∀ pw, password_rejected room pw = false).
Proof.
  intros Hverifies. split.
  - intros sock o password profile st st' out. simpl.
    unfold on_create_room, createRoom.
    destruct (first_free_code st (codeDraws o)) as [c|] eqn:Hfree; [|done].
    apply first_free_code_free in Hfree. simpl.
    match goal with
    | |- context [{| code := c; passwordHash := ?h |}] => set (hash := h)
    end.
    set (room0 := {| code := c; passwordHash := hash; members := [];
                     createdAt := now o; lastActive := now o;
                     history := []; canvasData := None;
                     diagramData := None |}).
    set (st1 := {| rooms := rooms st ++ [(c, room0)] |}).
    assert (getRoom st1 c = Some room0) as Hnew by by apply getRoom_new.
    unfold upsertMember. rewrite Hnew. simpl.
    intros [= <- <-].
    eexists c, _. split; [done|]. split.
    { rewrite getRoom_update_room, decide_True, Hnew by done. reflexivity. }
    unfold password_rejected. simpl. subst hash.
    destruct password as [pw|]; simpl.
    + destruct (String.eqb pw "") eqn:Hpw; simpl.
      * split; [done|]. split; [done|]. done.
      * split; [|split; [done|done]].
        destruct (String.eqb (bcrypt_hash pw (salt o)) ""); [done|].
        by rewrite Hverifies.
    + split; [done|]. split; [done|]. done.
  - intros o st st' out. simpl. unfold createRoom.
    destruct (first_free_code st (codeDraws o)) as [c|] eqn:Hfree; [|done].
    apply first_free_code_free in Hfree. simpl. intros [= <- <-].
    eexists c, _. split; [done|]. split; [by apply getRoom_new|].
    done.
Qed.

Lemma creator_password_opens_witness :
  ∃ c room,
    getRoom empty_store c = None
    ∧ getRoom guarded_store c = Some room
    ∧ password_rejected (H := plain_bcrypt) room (Some "secret"%string)
      = false
    ∧ (nonempty (Some "secret"%string) = false →
       passwordHash room = None
       ∧ ∀ pw, password_rejected (H := plain_bcrypt) room pw = false)
    ∧ (nonempty (Some "secret"%string) = true →
       passwordHash room = Some "salt$secret"%string).
Proof.
  destruct (creator_password_opens (H := plain_bcrypt)
              plain_bcrypt_verifies) as [Hsocket _].
  eapply (Hsocket "sock-A" (oracle_at 1000 "k3x9qz" "member-A")
            (Some "secret"%string) None empty_store guarded_store).
  vm_compute. reflexivity.
Defined.

(** ** Rejected strokes *)

(** X24: a stroke is taken whole or not at all.  For an event whose key
    finds a room, the handler leaves the store as it was and sends nothing
    but its warning exactly when [isValidStroke] fails; and it fails as
    soon as one element of [points] is not a point with finite numbers as
    [x] and [y], when [color] is not a string, when neither [width] nor
    [size] is a number, and when [points] is not an array. *)
Theorem invalid_stroke_is_dropped `{Bcrypt} sock o codeParam roomCode stroke
    st c room :
  truthy (js_or codeParam roomCode) = true →
  lookup_room st (js_or codeParam roomCode) = Some (c, room) →
  (isValidStroke stroke = false
   ↔ handle sock o (stroke_event codeParam roomCode stroke) st
     = Some (st, [console_warn]))
  ∧ (∀ pts bad,
       get stroke "points" = JsArray pts → bad ∈ pts →
       valid_point bad = false → isValidStroke stroke = false)
  ∧ (typeof_string (get stroke "color") = false →
     isValidStroke stroke = false)
  ∧ (typeof_number (get stroke "width") = false →
     typeof_number (get stroke "size") = false →
     isValidStroke stroke = false)
  ∧ ((∀ pts, get stroke "points" ≠ JsArray pts) →
     isValidStroke stroke = false).
Proof.
  intros Hcode Hroom. split_and!.
  - cbn [handle]. unfold on_stroke. rewrite Hcode, Hroom. cbn [negb].
    destruct (isValidStroke stroke); cbn [negb]; split; done.
  - intros pts bad Hpts Hin Hbad. unfold isValidStroke. rewrite Hpts.
    destruct (negb (truthy stroke)); [done|].
    destruct (negb (typeof_string _)); [done|].
    destruct (negb _ && negb _); [done|].
    apply not_true_iff_false. intros Hall.
    rewrite forallb_forall in Hall.
    apply list_elem_of_In in Hin. specialize (Hall _ Hin). congruence.
  - intros Hcolor. unfold isValidStroke. rewrite Hcolor.
    by destruct (negb (truthy stroke)).
  - intros Hwidth Hsize. unfold isValidStroke. rewrite Hwidth, Hsize.
    destruct (negb (truthy stroke)); [done|].
    by destruct (negb (typeof_string _)).
  - intros Hpts. unfold isValidStroke.
    destruct (negb (truthy stroke)); [done|].
    destruct (negb (typeof_string _)); [done|].
    destruct (negb _ && negb _); [done|].
    destruct (get stroke "points") as [| | | | |pts|]; try done.
    by destruct (Hpts pts).
Qed.

Lemma invalid_stroke_is_dropped_witness :
  handle (H := plain_bcrypt) "sock-A" (oracle_at 1600 "" "")
    (stroke_event (JsString "k3x9qz") JsUndefined stroke_bad_point)
    drawn_store
  = Some (drawn_store, [console_warn]).
Proof.
  eapply (invalid_stroke_is_dropped (H := plain_bcrypt) "sock-A"
            (oracle_at 1600 "" "") (JsString "k3x9qz") JsUndefined
            stroke_bad_point drawn_store "k3x9qz").
  - vm_compute. reflexivity.
  - vm_compute. reflexivity.
  - vm_compute. reflexivity.
Defined.

(** ** Deleting rooms *)

Section DeleteRoom.
Implicit Types (st : RoomStore) (c k : string) (r : Room)
               (pre post l : list (string * Room)).

Lemma deleteRoom_middle pre k r post :
  k ∉ pre.*1 →
  deleteRoom k {| rooms := pre ++ (k, r) :: post |}
  = {| rooms := pre ++ post |}.
Proof.
  intros Hk. unfold deleteRoom. simpl.
  assert (list_find (λ kv : string * Room, kv.1 = k) (pre ++ (k, r) :: post)
          = Some (length pre, (k, r))) as ->.
  { apply list_find_Some. split_and!.
    - by rewrite list_lookup_middle.
    - done.
    - intros j [k' r'] Hj Hlt. simpl. intros ->. apply Hk.
      rewrite lookup_app_l in Hj by done.
      apply list_elem_of_fmap. exists (k, r'). split; [done|].
      by eapply list_elem_of_lookup_2. }
  f_equal. apply delete_middle.
Qed.

Lemma deleteRoom_found st c :
  NoDup (rooms st).*1 → is_Some (getRoom st c) →
  ∃ pre r post,
    rooms st = pre ++ (c, r) :: post
    ∧ rooms (deleteRoom c st) = pre ++ post
    ∧ (c ∉ pre.*1) ∧ (c ∉ post.*1).
Proof.
  intros Hkeys [r Hr]. apply getRoom_Some in Hr.
  apply list_elem_of_split in Hr as (pre & post & Hsplit).
  rewrite Hsplit, fmap_app, fmap_cons in Hkeys. simpl in Hkeys.
  apply NoDup_app in Hkeys as (_ & Hpre & Hpost).
  apply NoDup_cons in Hpost as [Hpost _].
  assert (c ∉ pre.*1) as Hnot.
  { intros Hin. apply (Hpre _ Hin). left. }
  exists pre, r, post. split_and!; try done.
  destruct st as [rs]. simpl in Hsplit. subst rs.
  by rewrite deleteRoom_middle.
Qed.

Lemma cleanup_loop_filter now timeoutMs pre l :
  NoDup (pre ++ l).*1 →
  fold_left (delete_if_stale now timeoutMs) l {| rooms := pre ++ l |}
  = {| rooms :=
         pre ++ filter (λ kv, ¬ (now - lastActive kv.2 > timeoutMs)%Z) l |}.
Proof.
  revert pre. induction l as [|[k r] l IH]; intros pre Hkeys; [done|].
  simpl. unfold delete_if_stale at 2. simpl. rewrite filter_cons. simpl.
  assert (NoDup (pre ++ l).*1 ∧ k ∉ pre.*1) as [Hrest Hk].
  { rewrite fmap_app, fmap_cons in Hkeys. simpl in Hkeys.
    apply NoDup_app in Hkeys as (Hpre & Hsep & Hl).
    apply NoDup_cons in Hl as [Hkl Hl]. split.
    - rewrite fmap_app. apply NoDup_app. split_and!; [done| |done].
      intros x Hx Hxl. apply (Hsep _ Hx). by right.
    - intros Hin. apply (Hsep _ Hin). left. }
  destruct (decide (now - lastActive r > timeoutMs)%Z) as [Hstale|Hfresh].
  - rewrite decide_False by tauto.
    rewrite deleteRoom_middle by done. by apply IH.
  - rewrite decide_True by done.
    replace (pre ++ (k, r) :: l) with ((pre ++ [(k, r)]) ++ l)
      by by rewrite <- app_assoc.
    rewrite IH; [by rewrite <- app_assoc|].
    by rewrite <- app_assoc.
Qed.

End DeleteRoom.

(** X25: the sweep as a filter is the sweep as the loop the method is
    written as.  In a table with no two entries under one key, visiting
    the entries in order and deleting each stale one by its code leaves
    the table [cleanupInactiveRooms] gives. *)
Theorem cleanupInactiveRooms_is_delete_loop now timeoutMs st :
  NoDup (rooms st).*1 →
  cleanup_loop now timeoutMs st = cleanupInactiveRooms now timeoutMs st.
Proof.
  intros Hkeys. unfold cleanup_loop, listRooms, cleanupInactiveRooms.
  destruct st as [rs]. simpl in *.
  apply (cleanup_loop_filter now timeoutMs [] rs Hkeys).
Qed.

Lemma cleanupInactiveRooms_is_delete_loop_witness :
  cleanup_loop 3601501 (60 * 60 * 1000) drawn_store
  = cleanupInactiveRooms 3601501 (60 * 60 * 1000) drawn_store.
Proof.
  apply cleanupInactiveRooms_is_delete_loop.
  vm_compute. apply NoDup_singleton.
Defined.

(** X26: [deleteRoom] takes the room of a code out of the table and
    nothing else.  In a table with no two entries under one key, the code
    finds no room afterwards, every other code finds what it found, the
    keys stay distinct, and deleting a code that has no room changes
    nothing. *)
Theorem deleteRoom_removes st c :
  NoDup (rooms st).*1 →
  getRoom (deleteRoom c st) c = None
  ∧ (∀ k, k ≠ c → getRoom (deleteRoom c st) k = getRoom st k)
  ∧ NoDup (rooms (deleteRoom c st)).*1
  ∧ (getRoom st c = None → deleteRoom c st = st)
  ∧ (is_Some (getRoom st c) →
     length (rooms (deleteRoom c st)) + 1 = length (rooms st)).
Proof.
  intros Hkeys.
  assert (getRoom st c = None → deleteRoom c st = st) as Hmissing.
  { unfold getRoom, deleteRoom.
    by destruct (list_find _ (rooms st)) as [[i kv]|]. }
  destruct (getRoom st c) as [r0|] eqn:Hget.
  - destruct (deleteRoom_found st c Hkeys) as
      (pre & r & post & Hsplit & Hdel & Hpre & Hpost); [by rewrite Hget|].
    assert (NoDup (rooms (deleteRoom c st)).*1) as Hkeys'.
    { rewrite Hdel. rewrite Hsplit in Hkeys.
      rewrite fmap_app, fmap_cons in Hkeys. simpl in Hkeys.
      apply NoDup_app in Hkeys as (Hp & Hsep & Hl).
      apply NoDup_cons in Hl as [_ Hl].
      rewrite fmap_app. apply NoDup_app. split_and!; [done| |done].
      intros x Hx Hxl. apply (Hsep _ Hx). by right. }
    split_and!; [| |done|done|].
    + apply getRoom_None_key. rewrite Hdel, fmap_app, elem_of_app. tauto.
    + intros k Hne.
      assert (∀ r', (k, r') ∈ rooms (deleteRoom c st) ↔ (k, r') ∈ rooms st)
        as Hsame.
      { intros r'. rewrite Hdel, Hsplit, !elem_of_app, elem_of_cons.
        split; [tauto|]. intros [?|[[= ? ?]|?]]; tauto || congruence. }
      destruct (getRoom st k) as [r1|] eqn:Hk.
      * apply getRoom_elem_of; [done|]. apply Hsame.
        by apply getRoom_elem_of.
      * destruct (getRoom (deleteRoom c st) k) as [r1|] eqn:Hk'; [|done].
        apply getRoom_elem_of in Hk'; [|done]. apply Hsame in Hk'.
        apply getRoom_elem_of in Hk'; [|done]. congruence.
    + intros _. rewrite Hdel, Hsplit, !length_app. simpl. lia.
  - rewrite Hmissing by done. by split_and!.
Qed.

Lemma deleteRoom_removes_witness :
  getRoom (deleteRoom "k3x9qz" drawn_store) "k3x9qz" = None
  ∧ (∀ k, k ≠ "k3x9qz"%string →
          getRoom (deleteRoom "k3x9qz" drawn_store) k = getRoom drawn_store k)
  ∧ NoDup (rooms (deleteRoom "k3x9qz" drawn_store)).*1
  ∧ (getRoom drawn_store "k3x9qz" = None →
     deleteRoom "k3x9qz" drawn_store = drawn_store)
  ∧ (is_Some (getRoom drawn_store "k3x9qz") →
     length (rooms (deleteRoom "k3x9qz" drawn_store)) + 1
     = length (rooms drawn_store)).
Proof.
  apply deleteRoom_removes. vm_compute. apply NoDup_singleton.
Defined.

(** ** A join that resumes later *)

(** X27: a [join-room] that goes on after other steps were taken during
    its [await] keeps the invariants of the store.  Run in any store, the
    rest of the handler keeps at most one host per room, the bound on the
    histories and the stored snapshots not empty; it keeps the keys of the
    table distinct, each room under its own code and one member per
    connection; it keeps every member's shown profile well formed; and it
    leaves the codes in the table, every history and every snapshot as
    they are. *)
Theorem join_room_after_await_keeps_invariants sock o c profile captured st :
  (store_ok st →
   store_ok (join_room_after_await sock o c profile captured st).1)
  ∧ (table_wf st →
     table_wf (join_room_after_await sock o c profile captured st).1)
  ∧ (Forall (λ kv, Forall member_wf (members kv.2)) (rooms st) →
     Forall (λ kv, Forall member_wf (members kv.2))
       (rooms (join_room_after_await sock o c profile captured st).1))
  ∧ same_canvas st (join_room_after_await sock o c profile captured st).1
  ∧ (rooms (join_room_after_await sock o c profile captured st).1).*1
    = (rooms st).*1.
Proof.
  unfold join_room_after_await.
  match goal with
  | |- context [upsertMember ?t ?u ?k ?p st] =>
      pose proof (upsertMember_ok t u k p st) as Hok;
      pose proof (table_wf_upsertMember t u k p st) as Hwf;
      pose proof (members_wf_upsertMember t u k p st
                    (sanitizeDisplayName_wf _ _)
                    (sanitizeAvatar_nonempty _ _)) as Hprofiles;
      pose proof (same_canvas_upsertMember t u k p st) as Hcanvas;
      assert ((rooms (upsertMember t u k p st).1).*1 = (rooms st).*1)
        as Hkeys;
      [|destruct (upsertMember t u k p st) as [st1 member]]
  end.
  { unfold upsertMember. destruct (getRoom st c) as [room|]; [|done].
    destruct (list_find _ (members room)) as [[i bySocket]|]; simpl;
      apply update_room_keys. }
  simpl in *. split_and!; try done.
  intros Hst. by apply Hok.
Qed.
